(** * App-Store-Data: the two release generators

    A shallow embedding of
    - [.github/scripts/generate-category-all.json.js] (module [Consolidated]) and
    - [.scripts/generate-releases.js] (module [Releases]),
    and the properties of their aggregation, slug, timestamp, exit-code and
    clean-up logic.

    Strings are sequences of code units below 256.  On those,
    [String.prototype.toLowerCase] changes the letters A-Z and the Latin-1
    capitals only, one code unit for one, and none of the latter is mapped
    into [a-z0-9].  Above 255 the case mapping is not one for one (U+0130
    becomes two code units, U+212A becomes [k]); names with such code units
    are outside this embedding, and no property below speaks of the length
    of a lower-cased name. *)

From Stdlib Require Import ZArith NArith List String Ascii Bool Lia.
From Stdlib Require Import Sorted Permutation DecimalString DecimalPos DecimalZ.
Import ListNotations.

Open Scope string_scope.
Open Scope Z_scope.

Set Implicit Arguments.
Set Warnings "-register-all".


(* ================================================================== *)
(** * JavaScript string primitives used by the scripts *)
(* ================================================================== *)

Module Js.

Definition code (c : ascii) : N := N_of_ascii c.

Definition is_lower (c : ascii) : bool := (97 <=? code c)%N && (code c <=? 122)%N.
Definition is_upper (c : ascii) : bool := (65 <=? code c)%N && (code c <=? 90)%N.
Definition is_digit (c : ascii) : bool := (48 <=? code c)%N && (code c <=? 57)%N.

(** The character class [[a-z0-9]] and its complement [[^a-z0-9]]. *)
Definition in_az09 (c : ascii) : bool := is_lower c || is_digit c.
Definition not_az09 (c : ascii) : bool := negb (in_az09 c).

Definition hyphen : ascii := "-"%char.

(** The capitals of Latin-1: U+00C0 to U+00DE without the multiplication
    sign U+00D7. *)
Definition is_latin1_upper (c : ascii) : bool :=
  (192 <=? code c)%N && (code c <=? 222)%N && negb (code c =? 215)%N.

(** [toLowerCase] on one code unit below 256: the letters A-Z and the
    Latin-1 capitals move 32 up, every other code unit stays. *)
Definition lower_char (c : ascii) : ascii :=
  if is_upper c || is_latin1_upper c then ascii_of_N (code c + 32) else c.

Fixpoint toLowerCase (s : string) : string :=
  match s with
  | EmptyString => EmptyString
  | String c r => String (lower_char c) (toLowerCase r)
  end.

(** [s.replace(/[^a-z0-9]/g, '-')]: every code unit outside the class
    becomes one hyphen. *)
Fixpoint replaceEach (s : string) : string :=
  match s with
  | EmptyString => EmptyString
  | String c r => String (if not_az09 c then hyphen else c) (replaceEach r)
  end.

(** [s.replace(/[^a-z0-9]+/g, '-')]: the scanner walks the string from the
    left; [inMatch] says that the code unit just consumed belongs to the
    match of [[^a-z0-9]+] in progress, whose single replacement has already
    been emitted.  The quantifier is greedy, so a match extends as long as
    the class does. *)
Fixpoint replaceRunsFrom (inMatch : bool) (s : string) : string :=
  match s with
  | EmptyString => EmptyString
  | String c r =>
      if not_az09 c
      then if inMatch then replaceRunsFrom true r
           else String hyphen (replaceRunsFrom true r)
      else String c (replaceRunsFrom false r)
  end.

Definition replaceRuns (s : string) : string := replaceRunsFrom false s.

(** [s.replace(/\\/g, '/')]. *)
Fixpoint backslashesToSlashes (s : string) : string :=
  match s with
  | EmptyString => EmptyString
  | String c r =>
      String (if Ascii.eqb c "\"%char then "/"%char else c) (backslashesToSlashes r)
  end.

(** White space of [trim] and [parseInt] among the code units below 256:
    TAB, LF, VT, FF, CR, SP and NBSP. *)
Definition is_space (c : ascii) : bool :=
  ((9 <=? code c)%N && (code c <=? 13)%N) || (code c =? 32)%N || (code c =? 160)%N.

Fixpoint trimStart (s : string) : string :=
  match s with
  | EmptyString => EmptyString
  | String c r => if is_space c then trimStart r else s
  end.

(** [trimEnd] drops a code unit when it is white space and everything after
    it has been dropped too. *)
Fixpoint trimEnd (s : string) : string :=
  match s with
  | EmptyString => EmptyString
  | String c r =>
      match trimEnd r with
      | EmptyString => if is_space c then EmptyString else String c EmptyString
      | r' => String c r'
      end
  end.

Definition trim (s : string) : string := trimEnd (trimStart s).

(** A string is truthy when it is not empty. *)
Definition truthy_string (s : string) : bool :=
  match s with EmptyString => false | _ => true end.

Definition startsWith (s p : string) : bool := String.prefix p s.

Definition endsWith (s p : string) : bool :=
  (String.length p <=? String.length s)%nat
  && String.eqb (String.substring (String.length s - String.length p) (String.length p) s) p.

Definition includes (l : list string) (x : string) : bool :=
  existsb (String.eqb x) l.

(** [parts.join(sep)] on strings. *)
Fixpoint join (sep : string) (parts : list string) : string :=
  match parts with
  | [] => ""
  | [p] => p
  | p :: rest => p ++ sep ++ join sep rest
  end.

(** [s.split(sep)] for a one-character separator: the pieces between the
    separators, an empty string giving one empty piece. *)
Fixpoint split (sep : ascii) (s : string) : list string :=
  match s with
  | EmptyString => [""]
  | String c r =>
      if Ascii.eqb c sep then "" :: split sep r
      else match split sep r with
           | p :: ps => String c p :: ps
           | [] => [String c ""]
           end
  end.

(** ** [parseInt(s)] with no radix

    Leading white space is skipped, a sign is read, a [0x]/[0X] prefix
    selects base 16, and the longest prefix of digits is the value.  [None]
    stands for [NaN] (no digit at all). *)

Definition digit_value (radix : N) (c : ascii) : option N :=
  let v :=
    if is_digit c then Some (code c - 48)%N
    else if is_lower c then Some (code c - 87)%N
    else if is_upper c then Some (code c - 55)%N
    else None in
  match v with
  | Some d => if (d <? radix)%N then Some d else None
  | None => None
  end.

Fixpoint digitsFrom (radix : N) (acc : option N) (s : string) : option N :=
  match s with
  | EmptyString => acc
  | String c r =>
      match digit_value radix c with
      | Some d =>
          digitsFrom radix
            (Some (match acc with Some a => a * radix + d | None => d end)%N) r
      | None => acc
      end
  end.

Definition stripHexPrefix (s : string) : option string :=
  match s with
  | String "0" (String x r) =>
      if Ascii.eqb x "x" || Ascii.eqb x "X" then Some r else None
  | _ => None
  end.

Definition parseUnsigned (s : string) : option N :=
  match stripHexPrefix s with
  | Some r => digitsFrom 16 None r
  | None => digitsFrom 10 None s
  end.

Definition parseInt (s : string) : option Z :=
  match trimStart s with
  | String "-" r => option_map (fun n => - Z.of_N n) (parseUnsigned r)
  | String "+" r => option_map Z.of_N (parseUnsigned r)
  | t => option_map Z.of_N (parseUnsigned t)
  end.

(** [new Date(ms).toISOString()] throws a [RangeError] outside the range
    of time values, 8.64e15 milliseconds on either side of the epoch. *)
Definition validTimeValue (ms : Z) : bool :=
  (-8640000000000000 <=? ms) && (ms <=? 8640000000000000).

End Js.

(* ================================================================== *)
(** * Exceptions *)
(* ================================================================== *)

Inductive exn : Type :=
| TypeError (what : string)
| RangeError (what : string)
| IOError (what : string).

Inductive result (A : Type) : Type :=
| Ok (a : A)
| Throw (e : exn).

Arguments Ok {A} a.
Arguments Throw {A} e.

Definition bind (A B : Type) (m : result A) (k : A -> result B) : result B :=
  match m with
  | Ok a => k a
  | Throw e => Throw e
  end.

Declare Scope result_scope.
Delimit Scope result_scope with result.
Notation "x <- m ;; k" := (bind m (fun x => k))
  (at level 61, m at next level, right associativity) : result_scope.
Open Scope result_scope.

(* ================================================================== *)
(** * Parsed JSON values and plain objects *)
(* ================================================================== *)

(** What [JSON.parse] returns.  Numbers are the integers (printed by
    [ToString] in plain decimal, as JavaScript does below 1e21); an object
    is its own properties in order, each key once. *)
Inductive json : Type :=
| JNull
| JBool (b : bool)
| JNum (n : Z)
| JStr (s : string)
| JArr (items : list json)
| JObj (fields : list (string * json)).

Definition props := list (string * json).

Module Obj.

(** Own-property lookup; [None] is [undefined]. *)
Fixpoint get (A : Type) (k : string) (o : list (string * A)) : option A :=
  match o with
  | [] => None
  | (k', v) :: r => if String.eqb k k' then Some v else get k r
  end.

(** [o[k] = v]: an existing key keeps its place, a new one goes last. *)
Fixpoint set (A : Type) (k : string) (v : A) (o : list (string * A)) : list (string * A) :=
  match o with
  | [] => [(k, v)]
  | (k', v') :: r => if String.eqb k k' then (k, v) :: r else (k', v') :: set k v r
  end.

Definition remove (A : Type) (k : string) (o : list (string * A)) : list (string * A) :=
  filter (fun kv => negb (String.eqb k (fst kv))) o.

Definition removeAll (A : Type) (ks : list string) (o : list (string * A)) : list (string * A) :=
  filter (fun kv => negb (Js.includes ks (fst kv))) o.

(** The properties every plain object inherits from [Object.prototype]:
    [o[k]] is truthy for these keys although [o] has no such own property. *)
Definition inherited : list string :=
  [ "constructor"; "__proto__"; "hasOwnProperty"; "isPrototypeOf";
    "propertyIsEnumerable"; "toLocaleString"; "toString"; "valueOf";
    "__defineGetter__"; "__defineSetter__"; "__lookupGetter__";
    "__lookupSetter__" ].

Definition is_inherited (k : string) : bool := Js.includes inherited k.

(** ** Property enumeration order

    [Object.keys], [Object.values], [Object.entries] and [for ... in] list
    the array-index keys first, in ascending numeric order, then the other
    string keys in insertion order.  An array index is a canonical decimal
    numeral below 2^32 - 1. *)

Fixpoint all_digits (s : string) : bool :=
  match s with
  | EmptyString => true
  | String c r => Js.is_digit c && all_digits r
  end.

Definition arrayIndex (k : string) : option N :=
  match k with
  | EmptyString => None
  | String "0" EmptyString => Some 0%N
  | String "0" _ => None
  | _ =>
      if all_digits k && (String.length k <=? 10)%nat
      then match Js.digitsFrom 10 None k with
           | Some n => if (n <? 4294967295)%N then Some n else None
           | None => None
           end
      else None
  end.

Fixpoint insertIndexed (A : Type) (n : N) (kv : string * A)
         (l : list (N * (string * A))) : list (N * (string * A)) :=
  match l with
  | [] => [(n, kv)]
  | (m, kv') :: r =>
      if (n <? m)%N then (n, kv) :: l else (m, kv') :: insertIndexed n kv r
  end.

Fixpoint indexed (A : Type) (o : list (string * A)) : list (N * (string * A)) :=
  match o with
  | [] => []
  | kv :: r =>
      match arrayIndex (fst kv) with
      | Some n => insertIndexed n kv (indexed r)
      | None => indexed r
      end
  end.

Definition named (A : Type) (o : list (string * A)) : list (string * A) :=
  filter (fun kv => match arrayIndex (fst kv) with Some _ => false | None => true end) o.

Definition entries (A : Type) (o : list (string * A)) : list (string * A) :=
  (map snd (indexed o) ++ named o)%list.

Definition values (A : Type) (o : list (string * A)) : list A := map snd (entries o).
Definition keys (A : Type) (o : list (string * A)) : list string := map fst (entries o).

End Obj.

Module Json.

(** [Number.prototype.toString] on an integer below 10^21 in absolute
    value, the numbers the metadata files use: the decimal numeral.  (From
    10^21 on JavaScript prints an exponent; such numbers are not
    embedded.) *)
Definition decimal (n : Z) : string := NilZero.string_of_int (Z.to_int n).

(** The string [ToString] gives for a JSON value, where it gives one (see
    [convertible] and [ToString] below).  Inside [Array.prototype.join], a
    [null] element prints as the empty string. *)
Fixpoint toString (j : json) : string :=
  match j with
  | JNull => "null"
  | JBool true => "true"
  | JBool false => "false"
  | JNum n => decimal n
  | JStr s => s
  | JArr items =>
      (fix joined (l : list json) : string :=
         match l with
         | [] => ""
         | x :: r =>
             let sx := match x with JNull => "" | _ => toString x end in
             match r with
             | [] => sx
             | _ => sx ++ "," ++ joined r
             end
         end) items
  | JObj _ => "[object Object]"
  end.

(** The same for a property read, [undefined] included. *)
Definition toStringOpt (v : option json) : string :=
  match v with
  | None => "undefined"
  | Some j => toString j
  end.

(** Where [ToString] returns.  An object is converted by its [toString]
    method; an own property [toString] of a parsed object hides the one of
    [Object.prototype] and cannot be called, [valueOf] gives no primitive
    either, and the conversion throws.  An array is converted by [join],
    which converts the elements that are not [null]. *)
Fixpoint convertible (j : json) : bool :=
  match j with
  | JArr items => forallb convertible items
  | JObj fields =>
      match Obj.get "toString" fields with
      | Some _ => false
      | None => true
      end
  | JNull | JBool _ | JNum _ | JStr _ => true
  end.

(** [ToString], as a template literal, a property key and the argument of
    [localeCompare] apply it. *)
Definition ToString (j : json) : result string :=
  if convertible j then Ok (toString j)
  else Throw (TypeError "Cannot convert object to primitive value").

Definition ToStringOpt (v : option json) : result string :=
  match v with
  | None => Ok "undefined"
  | Some j => ToString j
  end.

(** [ToBoolean]. *)
Definition truthy (j : json) : bool :=
  match j with
  | JNull => false
  | JBool b => b
  | JNum n => negb (n =? 0)
  | JStr s => Js.truthy_string s
  | JArr _ | JObj _ => true
  end.

Definition truthyOpt (v : option json) : bool :=
  match v with
  | None => false
  | Some j => truthy j
  end.

(** Strict equality with a string literal. *)
Definition isString (j : option json) (s : string) : bool :=
  match j with
  | Some (JStr t) => String.eqb t s
  | _ => false
  end.

(** The own enumerable properties copied by an object spread
    [{...v}]: those of an object, the indexed elements of an array or the
    indexed code units of a string, nothing for the other values. *)
Fixpoint indexFrom (A : Type) (i : nat) (l : list A) : list (string * A) :=
  match l with
  | [] => []
  | x :: r => (decimal (Z.of_nat i), x) :: indexFrom (S i) r
  end.

Fixpoint chars (s : string) : list json :=
  match s with
  | EmptyString => []
  | String c r => JStr (String c EmptyString) :: chars r
  end.

Definition spread (j : json) : props :=
  match j with
  | JObj fields => fields
  | JArr items => indexFrom 0 items
  | JStr s => indexFrom 0 (chars s)
  | JNull | JBool _ | JNum _ => []
  end.

End Json.

(* ================================================================== *)
(** * [Array.prototype.sort] with a comparator that may throw *)
(* ================================================================== *)

(** [Array.prototype.sort] is stable, so for a consistent comparator every
    engine returns the same arrangement.  The model is an insertion sort that
    calls [comparefn x y] with [x] the element being placed and [y] an
    element of the sorted prefix, the argument order V8 uses while it extends
    a run and while it inserts: an array of fewer than two elements never
    calls the comparator, and an exception of the comparator ends the sort. *)
Module ArraySort.
Section Sort.
Variable A : Type.
Variable comparefn : A -> A -> result Z.

Fixpoint insert (x : A) (sorted : list A) : result (list A) :=
  match sorted with
  | [] => Ok [x]
  | y :: r =>
      c <- comparefn x y ;;
      if c <? 0 then Ok (x :: y :: r)
      else r' <- insert x r ;; Ok (y :: r')
  end.

Fixpoint sortFrom (sorted rest : list A) : result (list A) :=
  match rest with
  | [] => Ok sorted
  | x :: r => s <- insert x sorted ;; sortFrom s r
  end.

Definition sort (l : list A) : result (list A) := sortFrom [] l.
End Sort.
End ArraySort.

(** [(a, b) => a.name.localeCompare(b.name)] on the values of the two [name]
    properties: reading [localeCompare] off anything but a string throws a
    [TypeError]; the argument is converted with [ToString], which may throw
    too. *)
Definition compareNames (localeCompare : string -> string -> Z)
           (aName bName : option json) : result Z :=
  match aName with
  | Some (JStr s) => that <- Json.ToStringOpt bName ;; Ok (localeCompare s that)
  | None | Some JNull =>
      Throw (TypeError "Cannot read properties of undefined (reading 'localeCompare')")
  | Some _ => Throw (TypeError "a.name.localeCompare is not a function")
  end.

(* ================================================================== *)
(** * The data the scripts emit *)
(* ================================================================== *)

(** The result of [Math.max] over a list of integers. *)
Inductive jsnum : Type :=
| NegInfinity
| Num (z : Z).

(** [generate-category-all.json.js]. *)
Module Catalog.

(** [{ ...metadata, slug, lastUpdated, metadataPath }]: the spread
    properties and the three the script defines itself. *)
Record App : Type := {
  metadata : props;
  slug : string;
  lastUpdated : Z;
  metadataPath : string
}.

(** [app.name] and [app.category] are read from the spread properties
    (the three own keys have other names). *)
Definition prop (k : string) (a : App) : option json := Obj.get k (metadata a).

(** All the properties of the object, as they are serialised. *)
Definition properties (a : App) : props :=
  Obj.set "metadataPath" (JStr (metadataPath a))
    (Obj.set "lastUpdated" (JNum (lastUpdated a))
       (Obj.set "slug" (JStr (slug a)) (metadata a))).

(** A category object; [catLastUpdated] is [None] until [main] assigns it. *)
Record Category : Type := {
  catName : string;
  catSlug : string;
  catCount : nat;
  catApps : list App;
  catLastUpdated : option jsnum
}.

Record CategoryAllData : Type := {
  generated : Z;
  totalCategories : nat;
  totalApps : nat;
  categories : list Category
}.

End Catalog.

(** [generate-releases.js]. *)
Module Release.

(** [{ category, count, apps }], the content of one [category-*.json]. *)
Record ReleaseData : Type := {
  category : string;
  count : nat;
  apps : list props
}.

(** One entry of [categories.json]. *)
Record CategoryData : Type := {
  name : string;
  slug : string;
  catCount : nat;
  lastUpdated : Z
}.

Record CategoriesData : Type := {
  totalCategories : nat;
  totalApps : nat;
  categories : list CategoryData
}.

End Release.

(* ================================================================== *)
(** * The environment of a run *)
(* ================================================================== *)

(** [fs.readFileSync] followed by [JSON.parse]. *)
Inductive FileRead : Type :=
| Unreadable
| Malformed
| Parsed (j : json).

(** The tree under [repositories/]: regular files with what reading them
    yields, directories, directories [readdirSync] fails on, and symbolic
    links with what they point to.  [LinkNode None] is a link that
    [statSync] fails on, and stands for every entry that [readdirSync]
    reports as no directory and that can be neither examined nor read.
    The tree is finite: links form no cycle. *)
Inductive fsnode : Type :=
| FileNode (content : FileRead)
| DirNode (entries : list (string * fsnode))
| LockedDir
| LinkNode (target : option fsnode).

(** What [statSync] sees: the node at the end of the links. *)
Fixpoint follow (node : fsnode) : option fsnode :=
  match node with
  | LinkNode (Some target) => follow target
  | LinkNode None => None
  | FileNode _ | DirNode _ | LockedDir => Some node
  end.

(** [readFileSync] followed by [JSON.parse] on a path: links are followed,
    and a directory cannot be read. *)
Definition readThrough (node : fsnode) : FileRead :=
  match follow node with
  | Some (FileNode content) => content
  | _ => Unreadable
  end.

(** [child_process.execSync]: the standard output, or an exception (the
    command failed or could not be started). *)
Inductive ExecResult : Type :=
| ExecThrows
| Stdout (out : string).

(** A file of [releases/]. *)
Inductive FileData : Type :=
| Existing (content : string)
| CategoryAllFile (data : Catalog.CategoryAllData)
| ReleaseFile (data : Release.ReleaseData)
| CategoriesFile (data : Release.CategoriesData).

Definition Dir := list (string * FileData).

Record World : Type := {
  (** [String.prototype.localeCompare] in the locale of the process *)
  localeCompare : string -> string -> Z;
  (** the answer of git to a command line *)
  execSync : string -> ExecResult;
  (** [Math.floor(Date.now() / 1000)] while the time stamp of the given
      file or category is resolved; the clock is within the range of [Date] *)
  dateNow : string -> Z;
  (** [path.join(__dirname, '..')] of [generate-releases.js] *)
  checkout : string;
  (** the [repositories] directory, when it exists *)
  repositories : option fsnode;
  (** reading and parsing [categories.json] *)
  categoriesJson : FileRead;
  (** the [releases] directory, when it exists *)
  releases : option Dir;
  (** whether [writeFileSync] succeeds on a file of [releases/] *)
  writable : string -> bool;
  (** whether [unlinkSync] succeeds on a file of [releases/] *)
  removable : string -> bool;
  (** whether [mkdirSync] can create [releases/] when it is missing *)
  canCreate : bool;
  (** whether [readdirSync] can list [releases/] *)
  canList : bool
}.

(** How the body of [main] ends. *)
Inductive completion : Type :=
| Returned
| Exited (code : Z)
| Thrown (e : exn).

(** [main().catch(error => { ...; process.exit(1); })]: the exit status of
    the process. *)
Definition exitCode (c : completion) : Z :=
  match c with
  | Returned => 0
  | Exited code => code
  | Thrown _ => 1
  end.

(** What a run leaves behind: how [main] ended, [releases/] afterwards, the
    files it wrote successfully with their content, in order, and the files
    it passed to [unlinkSync]. *)
Record Run : Type := {
  ending : completion;
  releasesAfter : option Dir;
  outputs : list (string * FileData);
  removals : list string
}.

Definition exitStatus (r : Run) : Z := exitCode (ending r).

Definition dquote : string := String (ascii_of_N 34) EmptyString.

(** [path.join(a, b)] for a directory and the name of one of its entries. *)
Definition pathJoin (a b : string) : string :=
  match a with
  | EmptyString => b
  | _ => a ++ "/" ++ b
  end.

(** [path.dirname]. *)
Definition dirname (p : string) : string :=
  match Js.split "/" p with
  | [] | [_] => "."
  | parts =>
      match Js.join "/" (removelast parts) with
      | EmptyString => "/"
      | d => d
      end
  end.

Definition gitLog (filePath : string) : string :=
  "git log -1 --format=%ct --follow -- " ++ dquote ++ filePath ++ dquote.

Definition gitStatus (filePath : string) : string :=
  "git status --porcelain " ++ dquote ++ filePath ++ dquote.

(** The part both resolvers share: the trimmed output of [git log] is parsed
    when it is not empty; formatting the result for the log line throws a
    [RangeError] when it is [NaN] or outside the range of [Date], which the
    enclosing [catch] turns into the current time. *)
Definition timestampOfLog (r : ExecResult) (now : Z) : Z :=
  match r with
  | ExecThrows => now
  | Stdout out =>
      let result := Js.trim out in
      if Js.truthy_string result then
        match Js.parseInt result with
        | Some timestamp =>
            if Js.validTimeValue (timestamp * 1000) then timestamp else now
        | None => now
        end
      else now
  end.

(** [fs.writeFileSync] into [releases/]: it fails when the directory is
    missing or the file cannot be written. *)
Definition writeFileSync (w : World) (dir : option Dir) (file : string)
           (data : FileData) : result Dir :=
  match dir with
  | None => Throw (IOError "ENOENT")
  | Some d =>
      if writable w file then Ok (Obj.set file data d)
      else Throw (IOError "EACCES")
  end.

(** [fs.unlinkSync] in [releases/]. *)
Definition unlinkSync (w : World) (d : Dir) (file : string) : result Dir :=
  if removable w file then Ok (Obj.remove file d)
  else Throw (IOError "EPERM").

Definition maxNum (a b : jsnum) : jsnum :=
  match a, b with
  | NegInfinity, _ => b
  | _, NegInfinity => a
  | Num x, Num y => Num (Z.max x y)
  end.

(** [Math.max(...values)]; with no argument it is [-Infinity]. *)
Definition mathMax (values : list Z) : jsnum :=
  fold_right (fun v acc => maxNum (Num v) acc) NegInfinity values.

(* ================================================================== *)
(** * [.github/scripts/generate-category-all.json.js] *)
(* ================================================================== *)

Module Consolidated.
Import Catalog.

Definition getLastCommitTimestampForMetadataFile (w : World) (filePath : string) : Z :=
  timestampOfLog (execSync w (gitLog filePath)) (dateNow w filePath).

(** An element of the list the collector returns; [content] stands for
    what reading [fullPath] gives later. *)
Record MetadataFile : Type := {
  relativePath : string;
  directoryPath : string;
  content : FileRead
}.

(** [readdirSync], [statSync] and the loop are inside one [try]: a
    directory that cannot be listed is warned about and contributes
    nothing, and an entry [statSync] fails on ends the loop over its
    directory, the files found before it being kept.  [statSync] follows
    symbolic links, so a link to a directory is searched like a directory. *)
Fixpoint findAllMetadataFiles (dir : fsnode) (basePath : string) : list MetadataFile :=
  match dir with
  | DirNode items =>
      (fix each (l : list (string * fsnode)) : list MetadataFile :=
         match l with
         | [] => []
         | (item, node) :: r =>
             match follow node with
             | None => []
             | Some (FileNode c) =>
                 if String.eqb item "metadata.json"
                 then {| relativePath := pathJoin basePath item;
                         directoryPath := basePath;
                         content := c |} :: each r
                 else each r
             | Some _ => (findAllMetadataFiles node (pathJoin basePath item) ++ each r)%list
             end
         end) items
  | LinkNode (Some target) => findAllMetadataFiles target basePath
  | FileNode _ | LockedDir | LinkNode None => []
  end.

(** The body of the loop of [readAllMetadataFiles] for one file: the app it
    pushes, if any, and the warning it logs, if any.  The app is pushed
    before the line that logs [metadata.name] and [metadata.category], which
    throws when the file holds [null] or when one of the two cannot be
    converted to a string. *)
Definition readMetadataFile (w : World) (f : MetadataFile) : option App * option string :=
  match content f with
  | Unreadable => (None, Some ("Could not read " ++ relativePath f))
  | Malformed => (None, Some ("Could not read " ++ relativePath f))
  | Parsed metadata =>
      let lastUpdated := getLastCommitTimestampForMetadataFile w (relativePath f) in
      let pathParts := tl (Js.split "/" (directoryPath f)) in
      let appSlug := Js.join "/" pathParts in
      let app := {| metadata := Json.spread metadata;
                    slug := appSlug;
                    lastUpdated := lastUpdated;
                    metadataPath := Js.backslashesToSlashes (relativePath f) |} in
      match metadata with
      | JNull => (Some app, Some ("Could not read " ++ relativePath f))
      | _ =>
          match Json.ToStringOpt (prop "name" app), Json.ToStringOpt (prop "category" app) with
          | Ok _, Ok _ => (Some app, None)
          | _, _ => (Some app, Some ("Could not read " ++ relativePath f))
          end
      end
  end.

Definition collect (w : World) : list MetadataFile :=
  match repositories w with
  | None => []
  | Some root => findAllMetadataFiles root "repositories"
  end.

Definition readAllMetadataFiles (w : World) : list App :=
  flat_map (fun f => match fst (readMetadataFile w f) with
                     | Some app => [app]
                     | None => []
                     end) (collect w).

(** [app.category || 'Uncategorized']. *)
Definition categoryNameOf (app : App) : json :=
  match prop "category" app with
  | Some v => if Json.truthy v then v else JStr "Uncategorized"
  | None => JStr "Uncategorized"
  end.

Definition categorySlug (categoryName : string) : string :=
  Js.replaceRuns (Js.toLowerCase categoryName).

(** One turn of the first loop of [organizeAppsByCategory].  The property
    key is [ToString] of the category value, which may throw.  A key
    inherited from
    [Object.prototype] reads as truthy, so no category is created and the
    [push] fails; creating a category calls [toLowerCase] on the category
    value, which only strings have. *)
Definition addApp (categories : list (string * Category)) (app : App)
  : result (list (string * Category)) :=
  let categoryName := categoryNameOf app in
  key <- Json.ToString categoryName ;;
  cats <- match Obj.get key categories with
          | Some _ => Ok categories
          | None =>
              if Obj.is_inherited key then Ok categories
              else match categoryName with
                   | JStr s =>
                       Ok (Obj.set key {| catName := s;
                                          catSlug := categorySlug s;
                                          catCount := 0;
                                          catApps := [];
                                          catLastUpdated := None |} categories)
                   | _ => Throw (TypeError "categoryName.toLowerCase is not a function")
                   end
          end ;;
  match Obj.get key cats with
  | Some c =>
      Ok (Obj.set key {| catName := catName c;
                         catSlug := catSlug c;
                         catCount := S (catCount c);
                         catApps := (catApps c ++ [app])%list;
                         catLastUpdated := catLastUpdated c |} cats)
  | None => Throw (TypeError "Cannot read properties of undefined (reading 'push')")
  end.

Fixpoint addApps (categories : list (string * Category)) (apps : list App)
  : result (list (string * Category)) :=
  match apps with
  | [] => Ok categories
  | app :: r => cats <- addApp categories app ;; addApps cats r
  end.

Definition compareApps (w : World) (a b : App) : result Z :=
  compareNames (localeCompare w) (prop "name" a) (prop "name" b).

(** [categories[categoryName].apps.sort(...)] for the keys in enumeration
    order. *)
Fixpoint sortApps (w : World) (keys : list string)
         (categories : list (string * Category)) : result (list (string * Category)) :=
  match keys with
  | [] => Ok categories
  | k :: r =>
      match Obj.get k categories with
      | Some c =>
          sorted <- ArraySort.sort (compareApps w) (catApps c) ;;
          sortApps w r
            (Obj.set k {| catName := catName c;
                          catSlug := catSlug c;
                          catCount := catCount c;
                          catApps := sorted;
                          catLastUpdated := catLastUpdated c |} categories)
      | None => sortApps w r categories
      end
  end.

Definition organizeAppsByCategory (w : World) (apps : list App)
  : result (list (string * Category)) :=
  categories <- addApps [] apps ;;
  sortApps w (Obj.keys categories) categories.

Definition getCategoryLastUpdated (apps : list App) : jsnum :=
  mathMax (map lastUpdated apps).

Definition withLastUpdated (c : Category) : Category :=
  {| catName := catName c;
     catSlug := catSlug c;
     catCount := catCount c;
     catApps := catApps c;
     catLastUpdated := Some (getCategoryLastUpdated (catApps c)) |}.

Definition compareCategories (w : World) (a b : Category) : result Z :=
  compareNames (localeCompare w) (Some (JStr (catName a))) (Some (JStr (catName b))).

(** [main] up to the structure it serialises: [None] when it returns early
    because no app was read. *)
Definition build (w : World) : result (option CategoryAllData) :=
  let apps := readAllMetadataFiles w in
  match apps with
  | [] => Ok None
  | _ =>
      categoriesMap <- organizeAppsByCategory w apps ;;
      let categoriesArray := map withLastUpdated (Obj.values categoriesMap) in
      sorted <- ArraySort.sort (compareCategories w) categoriesArray ;;
      Ok (Some {| generated := dateNow w "generated";
                  totalCategories := List.length sorted;
                  totalApps := List.length apps;
                  categories := sorted |})
  end.

Definition stopped (w : World) (c : completion) : Run :=
  {| ending := c; releasesAfter := releases w; outputs := []; removals := [] |}.

(** [main].  A failure to write [category-all.json] is caught and ends the
    process with status 1.  The log lines after the write format time
    stamps that the resolver has already formatted, or clock readings. *)
Definition main (w : World) : Run :=
  match build w with
  | Throw e => stopped w (Thrown e)
  | Ok None => stopped w Returned
  | Ok (Some categoryAllData) =>
      match writeFileSync w (releases w) "category-all.json"
              (CategoryAllFile categoryAllData) with
      | Ok d => {| ending := Returned;
                   releasesAfter := Some d;
                   outputs := [("category-all.json", CategoryAllFile categoryAllData)];
                   removals := [] |}
      | Throw _ => stopped w (Exited 1)
      end
  end.

End Consolidated.

(* ================================================================== *)
(** * [.scripts/generate-releases.js] *)
(* ================================================================== *)

Module Releases.
Import Release.

Definition categorySlug (category : string) : string :=
  Js.replaceEach (Js.toLowerCase category).

Definition categoryFilePath (category : string) : string :=
  "releases/category-" ++ categorySlug category ++ ".json".

Definition releaseFileName (category : string) : string :=
  "category-" ++ categorySlug category ++ ".json".

(** The file shows up in [git status] when the command succeeds with a
    non-empty output; a failure of that command is only logged. *)
Definition hasUncommittedChanges (w : World) (filePath : string) : bool :=
  match execSync w (gitStatus filePath) with
  | Stdout out => Js.truthy_string (Js.trim out)
  | ExecThrows => false
  end.

(** The second parameter of the source, [categorizedApps], is not used. *)
Definition getLastCommitTimestampForCategory (w : World) (category : string) : Z :=
  let filePath := categoryFilePath category in
  if hasUncommittedChanges w filePath then dateNow w category
  else timestampOfLog (execSync w (gitLog filePath)) (dateNow w category).

(** The collector has no [try]: a directory that cannot be listed throws.
    Each path comes with what reading it gives later.  The entries are
    told apart by [Dirent.isDirectory], which is false for a symbolic link:
    a link is never searched, and one named [metadata.json] is taken for a
    metadata file.  The path the collector is called with first is resolved
    by [existsSync] and [readdirSync], which follow links. *)
Fixpoint findMetadataFiles (node : fsnode) (dir : string)
  : result (list (string * FileRead)) :=
  match node with
  | DirNode items =>
      (fix each (l : list (string * fsnode)) : result (list (string * FileRead)) :=
         match l with
         | [] => Ok []
         | (name, child) :: r =>
             let fullPath := pathJoin dir name in
             match child with
             | FileNode _ | LinkNode _ =>
                 rest <- each r ;;
                 Ok (if String.eqb name "metadata.json"
                     then (fullPath, readThrough child) :: rest else rest)
             | DirNode _ | LockedDir =>
                 sub <- findMetadataFiles child fullPath ;;
                 rest <- each r ;;
                 Ok (sub ++ rest)%list
             end
         end) items
  | LockedDir => Throw (IOError "EACCES")
  | FileNode _ => Throw (IOError "ENOTDIR")
  | LinkNode (Some target) => findMetadataFiles target dir
  | LinkNode None => Ok []
  end.

Definition requiredFields : list string :=
  ["name"; "category"; "description"; "version"; "commit"; "owner"; "repo"; "path"].

(** [field in metadata] and the value is not [null], [undefined] or ['']. *)
Definition fieldPresent (metadata : props) (field : string) : bool :=
  match Obj.get field metadata with
  | None => false
  | Some JNull => false
  | Some (JStr EmptyString) => false
  | Some _ => true
  end.

Inductive loaded : Type :=
| Loaded (metadata : props)
| Skipped (warning : string).

(** [loadMetadata]: [Skipped] is the [null] it returns after a warning.
    The [in] operator throws on a primitive, and an array has none of the
    required keys. *)
Definition loadMetadata (filePath : string) (content : FileRead) : loaded :=
  match content with
  | Unreadable => Skipped ("Skipping " ++ filePath ++ ": cannot read")
  | Malformed => Skipped ("Skipping " ++ filePath ++ ": cannot parse")
  | Parsed (JObj metadata) =>
      match find (fun field => negb (fieldPresent metadata field)) requiredFields with
      | Some field =>
          Skipped ("Skipping " ++ filePath ++ ": missing or empty field '" ++ field ++ "'")
      | None =>
          Loaded (Obj.set "filePath" (JStr (Js.backslashesToSlashes (dirname filePath)))
                    metadata)
      end
  | Parsed (JArr _) =>
      Skipped ("Skipping " ++ filePath ++ ": missing or empty field 'name'")
  | Parsed _ =>
      Skipped ("Skipping " ++ filePath ++ ": Cannot use 'in' operator")
  end.

Definition loadValidCategories (w : World) : json :=
  match categoriesJson w with
  | Parsed j => j
  | Unreadable | Malformed => JArr []
  end.

(** [validCategories.join(', ')] in the first log line of [main]: only an
    array has [join], and [join] converts every element that is not [null]
    with [ToString]. *)
Definition joinValidCategories (validCategories : json) : result string :=
  match validCategories with
  | JArr items =>
      if forallb Json.convertible items
      then Ok (Js.join ", "
                 (map (fun x => match x with JNull => "" | _ => Json.toString x end) items))
      else Throw (TypeError "Cannot convert object to primitive value")
  | _ => Throw (TypeError "validCategories.join is not a function")
  end.

(** The grouping step for one loaded metadata object.  The log line before
    the grouping converts [metadata.name] and the category with [ToString],
    outside every [try].  The key is [ToString] of the category; a key
    inherited from [Object.prototype] reads as truthy, no array is created,
    and [push] is missing. *)
Definition addMetadata (categorizedApps : list (string * list props))
           (metadata : props) : result (list (string * list props)) :=
  name <- Json.ToStringOpt (Obj.get "name" metadata) ;;
  category <- Json.ToStringOpt (Obj.get "category" metadata) ;;
  match Obj.get category categorizedApps with
  | Some apps => Ok (Obj.set category (apps ++ [metadata])%list categorizedApps)
  | None =>
      if Obj.is_inherited category
      then Throw (TypeError "categorizedApps[category].push is not a function")
      else Ok (Obj.set category [metadata] categorizedApps)
  end.

Fixpoint groupByCategory (categorizedApps : list (string * list props))
         (metadataFiles : list (string * FileRead))
  : result (list (string * list props)) :=
  match metadataFiles with
  | [] => Ok categorizedApps
  | (filePath, content) :: r =>
      match loadMetadata filePath content with
      | Loaded metadata =>
          cats <- addMetadata categorizedApps metadata ;;
          groupByCategory cats r
      | Skipped _ => groupByCategory categorizedApps r
      end
  end.

Definition compareApps (w : World) (a b : props) : result Z :=
  compareNames (localeCompare w) (Obj.get "name" a) (Obj.get "name" b).

Definition strippedFields : list string :=
  ["commit"; "owner"; "repo"; "path"; "filePath"; "category"; "files"].

Definition setIf (cond : bool) (k : string) (v : option json) (o : props) : props :=
  match v with
  | Some x => if cond then Obj.set k x o else o
  | None => o
  end.

(** The object [cleanApp] that the callback of [apps.map] returns: the
    entry without the stripped fields, with the slug and the two
    conditional lists. *)
Definition cleanApp (app : props) : props :=
  let rest := Obj.removeAll strippedFields app in
  let slug := Json.toStringOpt (Obj.get "owner" app) ++ "/"
              ++ Json.toStringOpt (Obj.get "repo" app) ++ "/"
              ++ Json.toStringOpt (Obj.get "name" app) in
  let withSlug := Obj.set "slug" (JStr slug) rest in
  let isTheme := Json.isString (Obj.get "category" app) "Themes" in
  let devices := Obj.get "supported-devices" app in
  let sizes := Obj.get "supported-screen-size" app in
  setIf (Json.truthyOpt sizes && isTheme) "supported-screen-size" sizes
    (setIf (Json.truthyOpt devices && negb isTheme) "supported-devices" devices withSlug).

(** The callback of [apps.map] itself: the template literal of the slug
    converts [owner], [repo] and [app.name] with [ToString], in that order,
    outside every [try]. *)
Definition filterApp (app : props) : result props :=
  owner <- Json.ToStringOpt (Obj.get "owner" app) ;;
  repo <- Json.ToStringOpt (Obj.get "repo" app) ;;
  name <- Json.ToStringOpt (Obj.get "name" app) ;;
  Ok (cleanApp app).

Fixpoint mapM (A B : Type) (f : A -> result B) (l : list A) : result (list B) :=
  match l with
  | [] => Ok []
  | x :: r => y <- f x ;; ys <- mapM f r ;; Ok (y :: ys)
  end.

(** The state of the generation loop. *)
Record GenState : Type := {
  dir : Dir;
  releaseFiles : list string;
  categoriesWithReleases : list string;
  written : list (string * FileData)
}.

(** One turn of the loop over [Object.entries(categorizedApps)]: the sort
    and the map are outside the [try], the write inside. *)
Definition generateRelease (w : World) (st : GenState)
           (entry : string * list props) : result GenState :=
  let (category, apps) := entry in
  sorted <- ArraySort.sort (compareApps w) apps ;;
  filteredApps <- mapM filterApp sorted ;;
  let releaseData := {| category := category;
                        count := List.length sorted;
                        apps := filteredApps |} in
  match writeFileSync w (Some (dir st)) (releaseFileName category)
          (ReleaseFile releaseData) with
  | Ok d => Ok {| dir := d;
                  releaseFiles := (releaseFiles st ++ [releaseFileName category])%list;
                  categoriesWithReleases :=
                    (categoriesWithReleases st ++ [category])%list;
                  written :=
                    (written st ++ [(releaseFileName category, ReleaseFile releaseData)])%list |}
  | Throw _ => Ok st
  end.

(** The loop; when a turn throws, the state reached so far is what is left
    on disk. *)
Fixpoint generateReleases (w : World) (st : GenState)
         (entries : list (string * list props)) : option exn * GenState :=
  match entries with
  | [] => (None, st)
  | entry :: r =>
      match generateRelease w st entry with
      | Ok st' => generateReleases w st' r
      | Throw e => (Some e, st)
      end
  end.

Definition categoryData (w : World) (categorizedApps : list (string * list props))
           (category : string) : result CategoryData :=
  match Obj.get category categorizedApps with
  | Some apps =>
      Ok {| name := category;
            slug := categorySlug category;
            catCount := List.length apps;
            lastUpdated := getLastCommitTimestampForCategory w category |}
  | None => Throw (TypeError "Cannot read properties of undefined (reading 'length')")
  end.

Definition compareCategories (w : World) (a b : CategoryData) : result Z :=
  compareNames (localeCompare w) (Some (JStr (name a))) (Some (JStr (name b))).

Definition sumLengths (categorizedApps : list (string * list props)) : nat :=
  fold_left (fun sum apps => (sum + List.length apps)%nat) (Obj.values categorizedApps) 0%nat.

(** The block that writes [categories.json], entered when some release
    file was written; the write itself is inside a [try]. *)
Definition writeCategoriesIndex (w : World)
           (categorizedApps : list (string * list props)) (st : GenState)
  : result GenState :=
  match categoriesWithReleases st with
  | [] => Ok st
  | _ =>
      entries <- mapM (categoryData w categorizedApps) (categoriesWithReleases st) ;;
      categoriesWithCounts <- ArraySort.sort (compareCategories w) entries ;;
      let categoriesData :=
        {| totalCategories := List.length (categoriesWithReleases st);
           totalApps := sumLengths categorizedApps;
           categories := categoriesWithCounts |} in
      match writeFileSync w (Some (dir st)) "categories.json"
              (CategoriesFile categoriesData) with
      | Ok d => Ok {| dir := d;
                      releaseFiles := releaseFiles st;
                      categoriesWithReleases := categoriesWithReleases st;
                      written :=
                        (written st ++ [("categories.json", CategoriesFile categoriesData)])%list |}
      | Throw _ => Ok st
      end
  end.

Definition isReleaseFileName (file : string) : bool :=
  Js.startsWith file "category-" && Js.endsWith file ".json".

(** The files the clean-up passes to [unlinkSync]. *)
Definition obsoleteFiles (d : Dir) (releaseFiles : list string) : list string :=
  filter (fun existingFile => negb (Js.includes releaseFiles existingFile))
    (filter isReleaseFileName (map fst d)).

(** A removal that fails is warned about and leaves the file. *)
Fixpoint removeFiles (w : World) (d : Dir) (files : list string) : Dir :=
  match files with
  | [] => d
  | f :: r =>
      match unlinkSync w d f with
      | Ok d' => removeFiles w d' r
      | Throw _ => removeFiles w d r
      end
  end.

(** The clean-up: [readdirSync(releasesDir)] is outside every [try] and
    throws when the directory cannot be listed; the removals are each in a
    [try] of their own. *)
Definition cleanUp (w : World) (st : GenState) : result Dir :=
  if canList w
  then Ok (removeFiles w (dir st) (obsoleteFiles (dir st) (releaseFiles st)))
  else Throw (IOError "EACCES").

(** [if (!fs.existsSync(releasesDir)) fs.mkdirSync(releasesDir, ...)],
    outside every [try]: creating a missing directory can fail. *)
Definition mkdirSync (w : World) : result unit :=
  match releases w with
  | Some _ => Ok tt
  | None => if canCreate w then Ok tt else Throw (IOError "EACCES")
  end.

(** What [releases/] holds once it exists: what it held, or nothing when
    it has just been created. *)
Definition ensureReleasesDir (w : World) : Dir :=
  match releases w with
  | Some d => d
  | None => []
  end.

Definition repositoriesDir (w : World) : string := pathJoin (checkout w) "repositories".

Definition collect (w : World) : result (list (string * FileRead)) :=
  match repositories w with
  | None => Ok []
  | Some root => findMetadataFiles root (repositoriesDir w)
  end.

Definition stopped (w : World) (c : completion) : Run :=
  {| ending := c; releasesAfter := releases w; outputs := []; removals := [] |}.

Definition crashed (e : exn) (st : GenState) : Run :=
  {| ending := Thrown e;
     releasesAfter := Some (dir st);
     outputs := written st;
     removals := [] |}.

(** The state when the generation loop starts: nothing is written yet. *)
Definition initialState (w : World) : GenState :=
  {| dir := ensureReleasesDir w;
     releaseFiles := [];
     categoriesWithReleases := [];
     written := [] |}.

(** [main]. *)
Definition main (w : World) : Run :=
  match joinValidCategories (loadValidCategories w) with
  | Throw e => stopped w (Thrown e)
  | Ok _ =>
  match collect w with
  | Throw e => stopped w (Thrown e)
  | Ok [] => stopped w Returned
  | Ok metadataFiles =>
  match groupByCategory [] metadataFiles with
  | Throw e => stopped w (Thrown e)
  | Ok categorizedApps =>
  match mkdirSync w with
  | Throw e => stopped w (Thrown e)
  | Ok _ =>
      match generateReleases w (initialState w) (Obj.entries categorizedApps) with
      | (Some e, st) => crashed e st
      | (None, st) =>
          match writeCategoriesIndex w categorizedApps st with
          | Throw e => crashed e st
          | Ok st' =>
              match cleanUp w st' with
              | Throw e => crashed e st'
              | Ok d =>
                  {| ending := Returned;
                     releasesAfter := Some d;
                     outputs := written st';
                     removals := obsoleteFiles (dir st') (releaseFiles st') |}
              end
          end
      end
  end end end end.

End Releases.

(* ================================================================== *)
(** * Notions the properties are stated with *)
(* ================================================================== *)

Module Spec.

(** ** Slugs *)

Definition isSlugChar (c : ascii) : bool := Js.in_az09 c || Ascii.eqb c Js.hyphen.

Fixpoint allChars (p : ascii -> bool) (s : string) : bool :=
  match s with
  | EmptyString => true
  | String c r => p c && allChars p r
  end.

(** The maximal runs of a string: consecutive code units that are all
    outside [[a-z0-9]] (flag [true]) or all inside (flag [false]). *)
Fixpoint runs (s : string) : list (bool * string) :=
  match s with
  | EmptyString => []
  | String c r =>
      let b := Js.not_az09 c in
      match runs r with
      | (b', run) :: rest =>
          if Bool.eqb b b' then (b, String c run) :: rest
          else (b, String c EmptyString) :: (b', run) :: rest
      | [] => [(b, String c EmptyString)]
      end
  end.

Definition replaceRun (r : bool * string) : string :=
  if fst r then String Js.hyphen EmptyString else snd r.

(** Neighbouring runs are of different kinds: no run can be extended. *)
Fixpoint alternating (l : list (bool * string)) : Prop :=
  match l with
  | [] => True
  | (b, _) :: r =>
      match r with
      | [] => True
      | (b', _) :: _ => b <> b' /\ alternating r
      end
  end.

(** A run is not empty and of one kind. *)
Definition isRun (r : bool * string) : Prop :=
  snd r <> EmptyString
  /\ allChars (fun c => Bool.eqb (Js.not_az09 c) (fst r)) (snd r) = true.

(** After a match has begun, the scanner skips what is left of the run it
    is in and replaces the runs that follow. *)
Definition afterMatch (l : list (bool * string)) : list (bool * string) :=
  match l with
  | (true, _) :: rest => rest
  | _ => l
  end.

(** The slug in the words of the specification: the name lowercased, with
    every maximal run of non-alphanumeric characters replaced by a single
    hyphen. *)
Definition concatAll (parts : list string) : string :=
  fold_right String.append EmptyString parts.

Definition collapsedSlug (name : string) : string :=
  concatAll (map replaceRun (runs (Js.toLowerCase name))).

(** The name lowercased, with every non-alphanumeric character replaced,
    one by one, by a hyphen. *)
Fixpoint mapChars (f : ascii -> ascii) (s : string) : string :=
  match s with
  | EmptyString => EmptyString
  | String c r => String (f c) (mapChars f r)
  end.

Definition charwiseSlug (name : string) : string :=
  mapChars (fun c => if Js.in_az09 c then c else Js.hyphen) (Js.toLowerCase name).

(** ** Collation *)

(** What sorting needs of [localeCompare]: the sign of [compare b a] is
    opposed to that of [compare a b], and "not after" is transitive. *)
Record Collation (compare : string -> string -> Z) : Prop := {
  collation_total : forall a b, 0 <= compare a b -> compare b a <= 0;
  collation_trans : forall a b c,
      compare a b <= 0 -> compare b c <= 0 -> compare a c <= 0
}.

(** Comparison by code units, the collation of the examples. *)
Definition codeUnitCompare (a b : string) : Z :=
  match String.compare a b with
  | Lt => -1
  | Eq => 0
  | Gt => 1
  end.

(** [a] does not sort after [b]. *)
Definition notAfter (w : World) (a b : string) : Prop := localeCompare w a b <= 0.

(** The name an object is sorted by: [ToString] of its [name] property. *)
Definition sortName (o : props) : string := Json.toStringOpt (Obj.get "name" o).

Definition appsSorted (w : World) (apps : list props) : Prop :=
  StronglySorted (fun a b => notAfter w (sortName a) (sortName b)) apps.

Definition catalogAppsSorted (w : World) (apps : list Catalog.App) : Prop :=
  StronglySorted (fun a b => notAfter w (sortName (Catalog.metadata a))
                                     (sortName (Catalog.metadata b))) apps.

(** ** The fallback chain of the time stamp resolver *)

(** [git status --porcelain] lists the file. *)
Definition uncommitted (w : World) (filePath : string) : Prop :=
  exists out, execSync w (gitStatus filePath) = Stdout out /\ Js.trim out <> "".

(** [git log] prints the time stamp [t] of the last commit of the file. *)
Definition lastCommit (w : World) (filePath : string) (t : Z) : Prop :=
  exists out,
    execSync w (gitLog filePath) = Stdout out /\ Js.trim out <> ""
    /\ Js.parseInt (Js.trim out) = Some t
    /\ Js.validTimeValue (t * 1000) = true.

(** The chain of the specification, for the value [resolved] returned for
    [filePath] at clock reading [now]. *)
Definition followsChain (w : World) (filePath : string) (now resolved : Z) : Prop :=
  (uncommitted w filePath -> resolved = now)
  /\ (~ uncommitted w filePath -> forall t, lastCommit w filePath t -> resolved = t)
  /\ (~ uncommitted w filePath -> (forall t, ~ lastCommit w filePath t) -> resolved = now).

(** The chain without its first step. *)
Definition followsHistory (w : World) (filePath : string) (now resolved : Z) : Prop :=
  (forall t, lastCommit w filePath t -> resolved = t)
  /\ ((forall t, ~ lastCommit w filePath t) -> resolved = now).

(** ** Validation *)

(** The parsed content is an object that has every required field, none
    of them [null] or the empty string. *)
Definition complete (content : FileRead) : Prop :=
  exists fields,
    content = Parsed (JObj fields)
    /\ forall field, In field Releases.requiredFields ->
                     Releases.fieldPresent fields field = true.

(** The entries [generate-releases.js] loads, in the order of the files. *)
Fixpoint validEntries (metadataFiles : list (string * FileRead)) : list props :=
  match metadataFiles with
  | [] => []
  | (filePath, content) :: r =>
      match Releases.loadMetadata filePath content with
      | Releases.Loaded metadata => metadata :: validEntries r
      | Releases.Skipped _ => validEntries r
      end
  end.

(** The property key an entry is grouped under. *)
Definition categoryKey (metadata : props) : string :=
  Json.toStringOpt (Obj.get "category" metadata).

Definition inCategory (category : string) (metadata : props) : bool :=
  String.eqb category (categoryKey metadata).

(** An entry whose [name] is a string. *)
Definition hasStringName (o : props) : Prop :=
  exists s, Obj.get "name" o = Some (JStr s).

(** A property read that [ToString] converts. *)
Definition printable (v : option json) : Prop :=
  exists s, Json.ToStringOpt v = Ok s.

(** ** Invariants of the aggregation *)

(** A category object of the consolidated script while it is being built
    from the apps of [pool]. *)
Definition wellFormed (pool : list Catalog.App) (k : string) (c : Catalog.Category) : Prop :=
  Catalog.catName c = k
  /\ Catalog.catSlug c = Consolidated.categorySlug k
  /\ Catalog.catCount c = List.length (Catalog.catApps c)
  /\ Catalog.catApps c <> []
  /\ Catalog.catLastUpdated c = None
  /\ incl (Catalog.catApps c) pool.

Definition wellFormedMap (pool : list Catalog.App)
           (categories : list (string * Catalog.Category)) : Prop :=
  NoDup (map fst categories)
  /\ forall k c, Obj.get k categories = Some c -> wellFormed pool k c.

(** The same category with its apps rearranged. *)
Definition rearranged (c c' : Catalog.Category) : Prop :=
  Catalog.catName c' = Catalog.catName c
  /\ Catalog.catSlug c' = Catalog.catSlug c
  /\ Catalog.catCount c' = Catalog.catCount c
  /\ Catalog.catLastUpdated c' = Catalog.catLastUpdated c
  /\ Permutation (Catalog.catApps c) (Catalog.catApps c').

(** An app of the consolidated script the grouping and the sort accept:
    its name is a string, and its category is missing, falsy, or a string
    that is not a property of [Object.prototype]. *)
Definition wellTyped (app : Catalog.App) : Prop :=
  hasStringName (Catalog.metadata app)
  /\ exists s, Consolidated.categoryNameOf app = JStr s /\ Obj.is_inherited s = false.

(** A loaded entry of [generate-releases.js] the grouping, the sort and
    the slug accept: its name is a string, its category, owner and repo can
    be converted to strings, and the key of its category is no property of
    [Object.prototype]. *)
Definition wellTypedEntry (metadata : props) : Prop :=
  hasStringName metadata
  /\ printable (Obj.get "category" metadata)
  /\ Obj.is_inherited (categoryKey metadata) = false
  /\ printable (Obj.get "owner" metadata)
  /\ printable (Obj.get "repo" metadata).

(** The grouped entries are those of [entries], by category key and in
    order. *)
Definition grouped (entries : list props) (categorizedApps : list (string * list props))
  : Prop :=
  NoDup (map fst categorizedApps)
  /\ forall k,
      match Obj.get k categorizedApps with
      | Some apps => apps = filter (inCategory k) entries /\ apps <> []
      | None => filter (inCategory k) entries = []
      end.

(** The release file written for an entry of [categorizedApps] whose apps
    sort into [sorted]. *)
Definition releaseOutput (entry : string * list props) (sorted : list props)
  : string * FileData :=
  (Releases.releaseFileName (fst entry),
   ReleaseFile {| Release.category := fst entry;
                  Release.count := List.length sorted;
                  Release.apps := map Releases.cleanApp sorted |}).

Definition isReleaseOf (w : World) (entries : list (string * list props))
           (out : string * FileData) : Prop :=
  exists entry sorted,
    In entry entries
    /\ ArraySort.sort (Releases.compareApps w) (snd entry) = Ok sorted
    /\ out = releaseOutput entry sorted.

(** The index written for the categories [names]. *)
Definition isIndexOf (w : World) (categorizedApps : list (string * list props))
           (names : list string) (idx : Release.CategoriesData) : Prop :=
  exists entries,
    Releases.mapM (Releases.categoryData w categorizedApps) names = Ok entries
    /\ ArraySort.sort (Releases.compareCategories w) entries = Ok (Release.categories idx)
    /\ Release.totalCategories idx = List.length names
    /\ Release.totalApps idx = Releases.sumLengths categorizedApps.

End Spec.

(* ================================================================== *)
(** * Example environments *)
(* ================================================================== *)

Module Examples.

Definition entry (name category : json) : json :=
  JObj [("name", name); ("category", category); ("description", JStr "An app");
        ("version", JStr "1.0.0"); ("commit", JStr "0a1b2c3"); ("owner", JStr "owner");
        ("repo", JStr "repo"); ("path", JStr "apps/app")].

(** [repositories/owner/repo/<dir>/metadata.json] for each given pair. *)
Definition repoTree (apps : list (string * json)) : fsnode :=
  DirNode
    [("owner",
      DirNode
        [("repo",
          DirNode (map (fun a => (fst a, DirNode [("metadata.json", FileNode (Parsed (snd a)))]))
                     apps))])].

Definition noHistory (command : string) : ExecResult := Stdout "".

Definition world (apps : list (string * json)) (git : string -> ExecResult)
           (existing : option Dir) : World :=
  {| localeCompare := Spec.codeUnitCompare;
     execSync := git;
     dateNow := fun _ => 1800000000;
     checkout := "/work/App-Store-Data";
     repositories := Some (repoTree apps);
     categoriesJson := Parsed (JArr [JStr "Games"; JStr "Utilities"; JStr "Themes"]);
     releases := existing;
     writable := fun _ => true;
     removable := fun _ => true;
     canCreate := true;
     canList := true |}.

Definition staleDir : option Dir :=
  Some [("category-all.json", Existing "{}");
        ("category-retired.json", Existing "{}");
        ("README.md", Existing "# releases")].

(** Two games and a utility. *)
Definition catalog : World :=
  world [("beta", entry (JStr "Beta") (JStr "Games"));
         ("alpha", entry (JStr "Alpha") (JStr "Games"));
         ("tool", entry (JStr "Tool") (JStr "Utilities"))]
        noHistory staleDir.

(** One entry without [version]. *)
Definition incomplete : World :=
  world [("draft", JObj [("name", JStr "Draft"); ("category", JStr "Games");
                         ("description", JStr "d"); ("commit", JStr "0a1b2c3");
                         ("owner", JStr "owner"); ("repo", JStr "repo");
                         ("path", JStr "apps/draft")])]
        noHistory staleDir.

(** The metadata file was last committed at 1700000000, the release file
    of its category at 1600000000; nothing is modified. *)
Definition twoHistories (command : string) : ExecResult :=
  if String.eqb command (gitLog "repositories/owner/repo/alpha/metadata.json")
  then Stdout "1700000000"
  else if String.eqb command (gitLog "releases/category-games.json")
       then Stdout "1600000000"
       else Stdout "".

Definition histories : World :=
  world [("alpha", entry (JStr "Alpha") (JStr "Games"))] twoHistories staleDir.

(** A category name with a run of three non-alphanumeric characters. *)
Definition spaced : World :=
  world [("kit", entry (JStr "Kit") (JStr "Apps & Tools"))] noHistory staleDir.

(** A metadata file that is modified in the working tree and has a commit. *)
Definition modifiedFile : string := "repositories/owner/repo/alpha/metadata.json".

Definition modifiedHistory (command : string) : ExecResult :=
  if String.eqb command (gitStatus modifiedFile)
  then Stdout (" M " ++ modifiedFile)
  else if String.eqb command (gitLog modifiedFile)
       then Stdout "1700000000"
       else Stdout "".

Definition modified : World :=
  world [("alpha", entry (JStr "Alpha") (JStr "Games"))] modifiedHistory staleDir.

(** A category that is a number. *)
Definition numericCategory : World :=
  world [("odd", entry (JStr "Odd") (JNum 5))] noHistory staleDir.

(** Two entries of one category whose names are numbers. *)
Definition numericNames : World :=
  world [("one", entry (JNum 1) (JStr "Games"));
         ("two", entry (JNum 2) (JStr "Games"))]
        noHistory staleDir.

(** No [repositories] directory. *)
Definition emptyCheckout : World :=
  {| localeCompare := Spec.codeUnitCompare;
     execSync := noHistory;
     dateNow := fun _ => 1800000000;
     checkout := "/work/App-Store-Data";
     repositories := None;
     categoriesJson := Unreadable;
     releases := staleDir;
     writable := fun _ => true;
     removable := fun _ => true;
     canCreate := true;
     canList := true |}.

(** As [catalog], but [category-games.json] cannot be written. *)
Definition readOnlyGames : World :=
  {| localeCompare := Spec.codeUnitCompare;
     execSync := noHistory;
     dateNow := fun _ => 1800000000;
     checkout := "/work/App-Store-Data";
     repositories := repositories catalog;
     categoriesJson := categoriesJson catalog;
     releases := staleDir;
     writable := fun file => negb (String.eqb file "category-games.json");
     removable := fun _ => true;
     canCreate := true;
     canList := true |}.


(** No [repositories] directory, and a [categories.json] that holds an
    object instead of an array. *)
Definition emptyCheckoutWrapped : World :=
  {| localeCompare := Spec.codeUnitCompare;
     execSync := noHistory;
     dateNow := fun _ => 1800000000;
     checkout := "/work/App-Store-Data";
     repositories := None;
     categoriesJson := Parsed (JObj [("categories", JArr [JStr "Games"])]);
     releases := staleDir;
     writable := fun _ => true;
     removable := fun _ => true;
     canCreate := true;
     canList := true |}.

End Examples.

(* ================================================================== *)
(** * Further notions: trees, grouping, totals *)
(* ================================================================== *)

Module Further.

(** [readdirSync] succeeds on the node and on every directory the
    collector of the release script reaches below it: the directories that
    are not behind a symbolic link.  At the node itself links are followed,
    and a link to nothing is a directory that does not exist. *)
Fixpoint listable (node : fsnode) : bool :=
  match node with
  | DirNode items =>
      (fix each (l : list (string * fsnode)) : bool :=
         match l with
         | [] => true
         | (_, child) :: r =>
             match child with
             | FileNode _ | LinkNode _ => each r
             | DirNode _ | LockedDir => listable child && each r
             end
         end) items
  | LinkNode (Some target) => listable target
  | LinkNode None => true
  | FileNode _ | LockedDir => false
  end.

(** No symbolic link, and so no entry [statSync] fails on, at the node or
    below it. *)
Fixpoint linkFree (node : fsnode) : bool :=
  match node with
  | DirNode items =>
      (fix each (l : list (string * fsnode)) : bool :=
         match l with
         | [] => true
         | (_, child) :: r => linkFree child && each r
         end) items
  | LinkNode _ => false
  | FileNode _ | LockedDir => true
  end.

(** No symbolic link under [repositories/]. *)
Definition withoutLinks (w : World) : bool :=
  match repositories w with
  | Some root => linkFree root
  | None => true
  end.

Definition isParsed (content : FileRead) : bool :=
  match content with
  | Parsed _ => true
  | Unreadable | Malformed => false
  end.

Definition isArray (j : json) : bool :=
  match j with
  | JArr _ => true
  | _ => false
  end.

(** What [path.join(__dirname, '..', 'repositories')] puts in front of the
    relative path [repositories]. *)
Definition checkoutPrefix (w : World) : string :=
  match checkout w with
  | EmptyString => EmptyString
  | c => c ++ "/"
  end.

(** The property key under which the consolidated script files an app. *)
Definition catalogKey (app : Catalog.App) : string :=
  Json.toString (Consolidated.categoryNameOf app).

Definition inCatalogCategory (k : string) (app : Catalog.App) : bool :=
  String.eqb k (catalogKey app).

(** The categories hold the apps of [apps], by key and in order. *)
Definition catalogGrouped (apps : list Catalog.App)
           (categories : list (string * Catalog.Category)) : Prop :=
  NoDup (map fst categories)
  /\ forall k,
      match Obj.get k categories with
      | Some c => Catalog.catName c = k
                  /\ Catalog.catApps c = filter (inCatalogCategory k) apps
      | None => filter (inCatalogCategory k) apps = []
      end.

Definition sumCounts (categories : list Catalog.Category) : nat :=
  list_sum (map Catalog.catCount categories).

(** No two neighbouring code units are both outside [[a-z0-9]]; [prev] says
    that the code unit before the string is outside. *)
Fixpoint separatedFrom (prev : bool) (s : string) : bool :=
  match s with
  | EmptyString => true
  | String c r =>
      if Js.not_az09 c then negb prev && separatedFrom true r
      else separatedFrom false r
  end.

Definition singleSeparators (name : string) : bool :=
  separatedFrom false (Js.toLowerCase name).

Definition noSpace (c : ascii) : bool := negb (Js.is_space c).

(** The environment [w] with another [categories.json]. *)
Definition withCategories (w : World) (content : FileRead) : World :=
  {| localeCompare := localeCompare w;
     execSync := execSync w;
     dateNow := dateNow w;
     checkout := checkout w;
     repositories := repositories w;
     categoriesJson := content;
     releases := releases w;
     writable := writable w;
     removable := removable w;
     canCreate := canCreate w;
     canList := canList w |}.

(** The environment [w] with [releases/] holding [d], for a later run.  It
    answers [writeFileSync] by name as [w] does, which is what a later run
    meets when [w] refuses no write; a file [w] refuses to overwrite may
    have been removed since, and may then be created. *)
Definition withReleases (w : World) (d : Dir) : World :=
  {| localeCompare := localeCompare w;
     execSync := execSync w;
     dateNow := dateNow w;
     checkout := checkout w;
     repositories := repositories w;
     categoriesJson := categoriesJson w;
     releases := Some d;
     writable := writable w;
     removable := removable w;
     canCreate := canCreate w;
     canList := canList w |}.

(** Two states of the generation loop that differ in the directory only. *)
Definition sameButDir (st st' : Releases.GenState) : Prop :=
  Releases.releaseFiles st = Releases.releaseFiles st'
  /\ Releases.categoriesWithReleases st = Releases.categoriesWithReleases st'
  /\ Releases.written st = Releases.written st'.

(** Two steps of the release script that end the same way, in states that
    differ in the directory only. *)
Definition sameStep (a b : result Releases.GenState) : Prop :=
  match a, b with
  | Ok st, Ok st' => sameButDir st st'
  | Throw e, Throw e' => e = e'
  | _, _ => False
  end.

(** The names in [releases/] that the clean-up looks at. *)
Definition releaseNames (d : Dir) : list string :=
  filter Releases.isReleaseFileName (map fst d).

(** What the last write to [file] among [outputs] stored, if any. *)
Definition lastWritten (file : string) (outputs : list (string * FileData))
  : option FileData :=
  Obj.get file (rev outputs).

(** What [releases/] holds under [file] after a run that started from
    [before], wrote [outputs] and passed [removals] to [unlinkSync]. *)
Definition expectedFile (w : World) (before : Dir) (run : Run) (file : string)
  : option FileData :=
  match lastWritten file (outputs run) with
  | Some data => Some data
  | None =>
      if Js.includes (removals run) file && removable w file then None
      else Obj.get file before
  end.

(** While the release script writes: the directory holds the last data
    written under each written name, and what [before] held under every
    other name. *)
Definition tracks (before : Dir) (st : Releases.GenState) : Prop :=
  forall file,
    Obj.get file (Releases.dir st)
    = match lastWritten file (Releases.written st) with
      | Some data => Some data
      | None => Obj.get file before
      end.

(** ** More example environments *)

(** A tree with a directory that cannot be listed next to an app. *)
Definition lockedTree : fsnode :=
  DirNode
    [("owner",
      DirNode
        [("private", LockedDir);
         ("repo",
          DirNode [("alpha",
                    DirNode [("metadata.json",
                              FileNode (Parsed (Examples.entry (JStr "Alpha")
                                                  (JStr "Games"))))])])])].

Definition locked : World :=
  {| localeCompare := Spec.codeUnitCompare;
     execSync := Examples.noHistory;
     dateNow := fun _ => 1800000000;
     checkout := "/work/App-Store-Data";
     repositories := Some lockedTree;
     categoriesJson := Unreadable;
     releases := Examples.staleDir;
     writable := fun _ => true;
     removable := fun _ => true;
     canCreate := true;
     canList := true |}.

(** One metadata file, which does not parse. *)
Definition broken : World :=
  {| localeCompare := Spec.codeUnitCompare;
     execSync := Examples.noHistory;
     dateNow := fun _ => 1800000000;
     checkout := "/work/App-Store-Data";
     repositories :=
       Some (DirNode [("owner",
                       DirNode [("repo",
                                 DirNode [("draft",
                                           DirNode [("metadata.json",
                                                     FileNode Malformed)])])])]);
     categoriesJson := Parsed (JArr [JStr "Games"]);
     releases := Examples.staleDir;
     writable := fun _ => true;
     removable := fun _ => true;
     canCreate := true;
     canList := true |}.

(** As [Examples.catalog], with a [categories.json] that lists no category
    of the entries. *)
Definition otherCategories : World :=
  withCategories Examples.catalog (Parsed (JArr [JStr "Fonts"])).

(** As [Examples.catalog], with a [categories.json] that holds an object. *)
Definition wrappedCategories : World :=
  withCategories Examples.catalog
    (Parsed (JObj [("categories", JArr [JStr "Games"; JStr "Utilities"])])).

(** As [Examples.catalog], without the directory [releases/]. *)
Definition noReleasesDir : World :=
  Examples.world [("beta", Examples.entry (JStr "Beta") (JStr "Games"))]
    Examples.noHistory None.

(** A theme that declares devices and screen sizes. *)
Definition theme : props :=
  [("name", JStr "Dark"); ("category", JStr "Themes"); ("description", JStr "A theme");
   ("version", JStr "2.0.0"); ("commit", JStr "0a1b2c3"); ("owner", JStr "owner");
   ("repo", JStr "repo"); ("path", JStr "themes/dark");
   ("supported-devices", JArr [JStr "tablet"]);
   ("supported-screen-size", JArr [JStr "320x240"])].

(** What [git log --format=%ct] prints for a commit of time [t]: the
    decimal numeral and a line feed. *)
Definition printedLine (t : Z) : string :=
  Json.decimal t ++ String (ascii_of_N 10) EmptyString.

(** A checkout where every file is clean and was last committed at [t]. *)
Definition printedHistory (t : Z) (command : string) : ExecResult :=
  if Js.startsWith command "git log" then Stdout (printedLine t) else Stdout "".

Definition dated (t : Z) : World :=
  Examples.world [("alpha", Examples.entry (JStr "Alpha") (JStr "Games"))]
    (printedHistory t) Examples.staleDir.

(** One app in a directory, and a symbolic link [mirror] to a directory
    that holds another. *)
Definition linkedTree : fsnode :=
  DirNode
    [("owner",
      DirNode
        [("repo",
          DirNode
            [("alpha",
              DirNode [("metadata.json",
                        FileNode (Parsed (Examples.entry (JStr "Alpha") (JStr "Games"))))]);
             ("mirror",
              LinkNode
                (Some (DirNode
                         [("metadata.json",
                           FileNode (Parsed (Examples.entry (JStr "Beta")
                                               (JStr "Games"))))])))])])].

Definition linked : World :=
  {| localeCompare := Spec.codeUnitCompare;
     execSync := Examples.noHistory;
     dateNow := fun _ => 1800000000;
     checkout := "/work/App-Store-Data";
     repositories := Some linkedTree;
     categoriesJson := Parsed (JArr [JStr "Games"]);
     releases := Examples.staleDir;
     writable := fun _ => true;
     removable := fun _ => true;
     canCreate := true;
     canList := true |}.

(** As [Examples.catalog], but [releases/] is missing and cannot be
    created. *)
Definition uncreatable : World :=
  {| localeCompare := Spec.codeUnitCompare;
     execSync := Examples.noHistory;
     dateNow := fun _ => 1800000000;
     checkout := "/work/App-Store-Data";
     repositories := repositories Examples.catalog;
     categoriesJson := categoriesJson Examples.catalog;
     releases := None;
     writable := fun _ => true;
     removable := fun _ => true;
     canCreate := false;
     canList := true |}.

(** As [Examples.catalog], but [releases/] cannot be listed. *)
Definition unlistable : World :=
  {| localeCompare := Spec.codeUnitCompare;
     execSync := Examples.noHistory;
     dateNow := fun _ => 1800000000;
     checkout := "/work/App-Store-Data";
     repositories := repositories Examples.catalog;
     categoriesJson := categoriesJson Examples.catalog;
     releases := Examples.staleDir;
     writable := fun _ => true;
     removable := fun _ => true;
     canCreate := true;
     canList := false |}.

(** One entry whose owner is an object with a property [toString] of its
    own; every required field is there. *)
Definition ownerObject : World :=
  Examples.world
    [("odd", JObj [("name", JStr "Odd"); ("category", JStr "Games");
                   ("description", JStr "An app"); ("version", JStr "1.0.0");
                   ("commit", JStr "0a1b2c3");
                   ("owner", JObj [("toString", JStr "owner")]);
                   ("repo", JStr "repo"); ("path", JStr "apps/odd")])]
    Examples.noHistory Examples.staleDir.

(** As [Examples.catalog], with a [categories.json] whose array holds an
    object with a property [toString] of its own. *)
Definition unjoinableCategories : World :=
  withCategories Examples.catalog
    (Parsed (JArr [JStr "Games"; JObj [("toString", JNull)]])).

End Further.

(* ================================================================== *)
(** * Properties *)
(* ================================================================== *)

(** ** Characters *)

Ltac each_char c :=
  destruct c as [[] [] [] [] [] [] [] []]; vm_compute; try reflexivity; try discriminate.

Lemma lower_char_slug (c : ascii) :
  Spec.isSlugChar c = true -> Js.lower_char c = c.
Proof. each_char c. Qed.

Lemma in_az09_slug (c : ascii) : Js.in_az09 c = true -> Spec.isSlugChar c = true.
Proof. unfold Spec.isSlugChar. intros ->. reflexivity. Qed.

Lemma not_az09_false (c : ascii) : Js.not_az09 c = false -> Js.in_az09 c = true.
Proof. unfold Js.not_az09. destruct (Js.in_az09 c); simpl; congruence. Qed.

Lemma slug_not_az09 (c : ascii) :
  Spec.isSlugChar c = true -> Js.not_az09 c = true -> c = Js.hyphen.
Proof. each_char c. Qed.

(** ** Lowercasing leaves slugs alone *)

Lemma toLowerCase_slug (s : string) :
  Spec.allChars Spec.isSlugChar s = true -> Js.toLowerCase s = s.
Proof.
  induction s as [|c r IH]; simpl; [reflexivity|].
  intros H. apply andb_prop in H. destruct H as [Hc Hr].
  rewrite (lower_char_slug c Hc), (IH Hr). reflexivity.
Qed.

(** ** The two replacements *)

Lemma replaceEach_slug (s : string) :
  Spec.allChars Spec.isSlugChar (Js.replaceEach s) = true.
Proof.
  induction s as [|c r IH]; simpl; [reflexivity|].
  rewrite IH, andb_true_r.
  destruct (Js.not_az09 c) eqn:E; [reflexivity|].
  apply in_az09_slug, not_az09_false, E.
Qed.

Lemma replaceEach_fixed (s : string) :
  Spec.allChars Spec.isSlugChar s = true -> Js.replaceEach s = s.
Proof.
  induction s as [|c r IH]; simpl; [reflexivity|].
  intros H. apply andb_prop in H. destruct H as [Hc Hr].
  rewrite (IH Hr).
  destruct (Js.not_az09 c) eqn:E; [|reflexivity].
  rewrite (slug_not_az09 c Hc E). reflexivity.
Qed.

Lemma replaceRunsFrom_slug (s : string) (b : bool) :
  Spec.allChars Spec.isSlugChar (Js.replaceRunsFrom b s) = true.
Proof.
  revert b. induction s as [|c r IH]; intros b; simpl; [reflexivity|].
  destruct (Js.not_az09 c) eqn:E.
  - destruct b; simpl; rewrite ?IH; reflexivity.
  - simpl. rewrite IH, andb_true_r. apply in_az09_slug, not_az09_false, E.
Qed.

(** Scanning the output of a scan again finds every match one hyphen long
    and gives the same string; after a match, the output goes on with a code
    unit of the class, or ends. *)
Lemma replaceRunsFrom_again (s : string) :
  Js.replaceRunsFrom false (Js.replaceRunsFrom false s) = Js.replaceRunsFrom false s
  /\ Js.replaceRunsFrom true (Js.replaceRunsFrom true s) = Js.replaceRunsFrom true s.
Proof.
  induction s as [|c r [IHf IHt]]; simpl; [split; reflexivity|].
  destruct (Js.not_az09 c) eqn:E.
  - split.
    + simpl. rewrite IHt. reflexivity.
    + exact IHt.
  - split; simpl; rewrite E, IHf; reflexivity.
Qed.

(** ** The scanner computes the replacement of the maximal runs *)

Lemma runs_nil (s : string) : Spec.runs s = [] -> s = EmptyString.
Proof.
  destruct s as [|c r]; simpl; [reflexivity|].
  destruct (Spec.runs r) as [|[b' run] rest]; [discriminate|].
  destruct (Bool.eqb (Js.not_az09 c) b'); discriminate.
Qed.

Lemma runs_concat (s : string) : Spec.concatAll (map snd (Spec.runs s)) = s.
Proof.
  induction s as [|c r IH]; simpl; [reflexivity|].
  destruct (Spec.runs r) as [|[b' run] rest] eqn:E.
  - apply runs_nil in E. subst r. reflexivity.
  - destruct (Bool.eqb (Js.not_az09 c) b'); simpl in *; rewrite IH; reflexivity.
Qed.

Lemma runs_are_runs (s : string) : Forall Spec.isRun (Spec.runs s).
Proof.
  induction s as [|c r IH]; simpl; [constructor|].
  destruct (Spec.runs r) as [|[b' run] rest] eqn:E.
  - constructor; [|constructor]. split; simpl; [discriminate|].
    rewrite Bool.eqb_reflx. reflexivity.
  - inversion IH as [|? ? [Hne Hall] Hrest]; subst.
    destruct (Bool.eqb (Js.not_az09 c) b') eqn:Eb.
    + constructor; [|exact Hrest]. split; simpl in *; [discriminate|].
      rewrite Bool.eqb_reflx. simpl.
      apply Bool.eqb_prop in Eb. rewrite Eb. exact Hall.
    + constructor; [|exact IH]. split; simpl; [discriminate|].
      rewrite Bool.eqb_reflx. reflexivity.
Qed.

Lemma runs_alternating (s : string) : Spec.alternating (Spec.runs s).
Proof.
  induction s as [|c r IH]; simpl; [exact I|].
  destruct (Spec.runs r) as [|[b' run] rest] eqn:E; [exact I|].
  destruct (Bool.eqb (Js.not_az09 c) b') eqn:Eb.
  - apply Bool.eqb_prop in Eb. rewrite Eb. exact IH.
  - split; [|exact IH]. intros Heq. rewrite Heq, Bool.eqb_reflx in Eb. discriminate.
Qed.

Lemma replaceRunsFrom_runs (s : string) :
  Js.replaceRunsFrom false s = Spec.concatAll (map Spec.replaceRun (Spec.runs s))
  /\ Js.replaceRunsFrom true s
     = Spec.concatAll (map Spec.replaceRun (Spec.afterMatch (Spec.runs s))).
Proof.
  induction s as [|c r [IHf IHt]]; simpl; [split; reflexivity|].
  destruct (Spec.runs r) as [|[b' run] rest] eqn:E.
  - apply runs_nil in E. subst r. destruct (Js.not_az09 c); split; reflexivity.
  - destruct (Js.not_az09 c) eqn:Ec; destruct b'; simpl in *;
      rewrite ?IHf, ?IHt; split; reflexivity.
Qed.

Lemma replaceRuns_collapses (s : string) :
  Js.replaceRuns s = Spec.concatAll (map Spec.replaceRun (Spec.runs s)).
Proof. apply replaceRunsFrom_runs. Qed.

Lemma replaceEach_charwise (s : string) :
  Js.replaceEach s = Spec.mapChars (fun c => if Js.in_az09 c then c else Js.hyphen) s.
Proof.
  induction s as [|c r IH]; simpl; [reflexivity|].
  rewrite IH. unfold Js.not_az09. destruct (Js.in_az09 c); reflexivity.
Qed.

(** C4.  The slug of each script is idempotent, and is made of lowercase
    ASCII letters, digits and hyphens only. *)
Theorem C4_slug_idempotent_and_clean (x : string) :
  (Consolidated.categorySlug (Consolidated.categorySlug x) = Consolidated.categorySlug x
   /\ Spec.allChars Spec.isSlugChar (Consolidated.categorySlug x) = true)
  /\ (Releases.categorySlug (Releases.categorySlug x) = Releases.categorySlug x
      /\ Spec.allChars Spec.isSlugChar (Releases.categorySlug x) = true).
Proof.
  unfold Consolidated.categorySlug, Releases.categorySlug, Js.replaceRuns.
  repeat split.
  - rewrite (toLowerCase_slug _ (replaceRunsFrom_slug _ false)).
    apply replaceRunsFrom_again.
  - apply replaceRunsFrom_slug.
  - rewrite (toLowerCase_slug _ (replaceEach_slug _)).
    apply replaceEach_fixed, replaceEach_slug.
  - apply replaceEach_slug.
Qed.

(** ** Plain objects as finite maps *)

Section ObjFacts.
Variable A : Type.
Implicit Types (o : list (string * A)) (k : string) (v : A).

Lemma get_set k' k v o :
  Obj.get k' (Obj.set k v o) = if String.eqb k' k then Some v else Obj.get k' o.
Proof.
  induction o as [|[k0 v0] r IH]; simpl.
  - destruct (String.eqb k' k); reflexivity.
  - destruct (String.eqb_spec k k0) as [->|Hne]; simpl.
    + destruct (String.eqb k' k0); reflexivity.
    + rewrite IH. destruct (String.eqb_spec k' k0) as [->|Hne'].
      * destruct (String.eqb_spec k0 k); [congruence|reflexivity].
      * reflexivity.
Qed.

Lemma get_set_same k v o : Obj.get k (Obj.set k v o) = Some v.
Proof. rewrite get_set, String.eqb_refl. reflexivity. Qed.

Lemma get_set_other k' k v o : k' <> k -> Obj.get k' (Obj.set k v o) = Obj.get k' o.
Proof.
  intros H. rewrite get_set. destruct (String.eqb_spec k' k); [contradiction|reflexivity].
Qed.

Lemma get_In k v o : Obj.get k o = Some v -> In (k, v) o.
Proof.
  induction o as [|[k0 v0] r IH]; simpl; [discriminate|].
  destruct (String.eqb_spec k k0) as [->|Hne].
  - intros [= ->]. left. reflexivity.
  - intros H. right. apply IH, H.
Qed.

Lemma get_None k o : Obj.get k o = None -> ~ In k (map fst o).
Proof.
  induction o as [|[k0 v0] r IH]; simpl; [tauto|].
  destruct (String.eqb_spec k k0) as [->|Hne]; [discriminate|].
  intros H [Heq|Hin]; [congruence|]. exact (IH H Hin).
Qed.

Lemma In_get k v o : NoDup (map fst o) -> In (k, v) o -> Obj.get k o = Some v.
Proof.
  induction o as [|[k0 v0] r IH]; simpl; [tauto|].
  intros Hnd [Heq|Hin].
  - injection Heq as -> ->. rewrite String.eqb_refl. reflexivity.
  - inversion Hnd as [|? ? Hnotin Hnd']; subst.
    destruct (String.eqb_spec k k0) as [->|Hne].
    + exfalso. apply Hnotin. apply (in_map fst) in Hin. exact Hin.
    + apply IH; assumption.
Qed.

Lemma In_key_get k o : In k (map fst o) -> exists v, Obj.get k o = Some v.
Proof.
  induction o as [|[k0 v0] r IH]; simpl; [tauto|].
  destruct (String.eqb_spec k k0) as [->|Hne]; [eauto|].
  intros [Heq|Hin]; [congruence|]. apply IH, Hin.
Qed.

Lemma keys_set_present k v v0 o :
  Obj.get k o = Some v0 -> map fst (Obj.set k v o) = map fst o.
Proof.
  induction o as [|[k1 v1] r IH]; simpl; [discriminate|].
  destruct (String.eqb_spec k k1) as [->|Hne]; simpl; [reflexivity|].
  intros H. rewrite (IH H). reflexivity.
Qed.

Lemma keys_set_absent k v o :
  Obj.get k o = None -> map fst (Obj.set k v o) = (map fst o ++ [k])%list.
Proof.
  induction o as [|[k1 v1] r IH]; simpl; [reflexivity|].
  destruct (String.eqb_spec k k1) as [->|Hne]; simpl; [discriminate|].
  intros H. rewrite (IH H). reflexivity.
Qed.

Lemma NoDup_set k v o : NoDup (map fst o) -> NoDup (map fst (Obj.set k v o)).
Proof.
  intros Hnd. destruct (Obj.get k o) as [v0|] eqn:E.
  - rewrite (@keys_set_present k v v0 o E). exact Hnd.
  - rewrite (@keys_set_absent k v o E).
    apply NoDup_app; [exact Hnd|constructor; [simpl; tauto|constructor]|].
    intros x Hx [<-|[]]. exact (@get_None k o E Hx).
Qed.

(** *** Enumeration order *)

Lemma insertIndexed_perm n (kv : string * A) l :
  Permutation (map snd (Obj.insertIndexed n kv l)) (kv :: map snd l).
Proof.
  induction l as [|[m kv'] r IH]; simpl; [reflexivity|].
  destruct (n <? m)%N; simpl; [reflexivity|].
  rewrite IH. apply perm_swap.
Qed.

Lemma entries_perm o : Permutation (Obj.entries o) o.
Proof.
  unfold Obj.entries, Obj.named.
  induction o as [|kv r IH]; simpl; [reflexivity|].
  destruct (Obj.arrayIndex (fst kv)); simpl.
  - rewrite insertIndexed_perm. simpl. apply perm_skip, IH.
  - rewrite <- Permutation_middle. apply perm_skip, IH.
Qed.

Lemma In_entries kv o : In kv (Obj.entries o) <-> In kv o.
Proof.
  split; apply Permutation_in; [|symmetry]; apply entries_perm.
Qed.

Lemma In_keys k o : In k (Obj.keys o) <-> In k (map fst o).
Proof.
  unfold Obj.keys.
  split; apply Permutation_in; [|symmetry]; apply Permutation_map, entries_perm.
Qed.

Lemma In_values v o : In v (Obj.values o) <-> exists k, In (k, v) o.
Proof.
  unfold Obj.values. rewrite in_map_iff. split.
  - intros [[k v'] [Heq Hin]]. simpl in Heq. subst v'.
    exists k. apply In_entries, Hin.
  - intros [k Hin]. exists (k, v). split; [reflexivity|]. apply In_entries, Hin.
Qed.

End ObjFacts.

(** ** Sorting *)

Section SortFacts.
Variable A : Type.
Variable comparefn : A -> A -> result Z.

Lemma insert_perm x l l' :
  ArraySort.insert comparefn x l = Ok l' -> Permutation (x :: l) l'.
Proof.
  revert l'. induction l as [|y r IH]; simpl; intros l'.
  - intros [= <-]. reflexivity.
  - destruct (comparefn x y) as [c|e]; simpl; [|discriminate].
    destruct (c <? 0); [intros [= <-]; reflexivity|].
    destruct (ArraySort.insert comparefn x r) as [r'|e]; simpl; [|discriminate].
    intros [= <-]. rewrite perm_swap. apply perm_skip, IH. reflexivity.
Qed.

Lemma sortFrom_perm rest : forall sorted l',
  ArraySort.sortFrom comparefn sorted rest = Ok l' -> Permutation (sorted ++ rest) l'.
Proof.
  induction rest as [|x r IH]; simpl; intros sorted l'.
  - intros [= <-]. rewrite app_nil_r. reflexivity.
  - destruct (ArraySort.insert comparefn x sorted) as [s|e] eqn:E; simpl; [|discriminate].
    intros H. apply IH in H. rewrite <- H.
    rewrite <- Permutation_middle.
    exact (Permutation_app_tail r (insert_perm _ _ E)).
Qed.

Lemma sort_perm l l' : ArraySort.sort comparefn l = Ok l' -> Permutation l l'.
Proof. apply (sortFrom_perm l []). Qed.

(** The comparator succeeds whenever its two arguments are acceptable. *)
Variable accepted : A -> Prop.
Hypothesis accepted_ok :
  forall x y, accepted x -> accepted y -> exists c, comparefn x y = Ok c.

Lemma insert_total x l :
  accepted x -> Forall accepted l -> exists l', ArraySort.insert comparefn x l = Ok l'.
Proof.
  intros Hx. induction l as [|y r IH]; simpl; intros Hl; [eauto|].
  inversion Hl as [|? ? Hy Hr]; subst.
  destruct (accepted_ok Hx Hy) as [c ->]. simpl.
  destruct (c <? 0); [eauto|]. destruct (IH Hr) as [r' ->]. simpl. eauto.
Qed.

Lemma sortFrom_total rest : forall sorted,
  Forall accepted sorted -> Forall accepted rest ->
  exists l', ArraySort.sortFrom comparefn sorted rest = Ok l'.
Proof.
  induction rest as [|x r IH]; simpl; intros sorted Hs Hall; [eauto|].
  inversion Hall as [|? ? Hx Hr]; subst.
  destruct (insert_total Hx Hs) as [s Hins]. rewrite Hins. simpl.
  apply IH; [|exact Hr].
  eapply Permutation_Forall; [exact (insert_perm _ _ Hins)|].
  constructor; assumption.
Qed.

Lemma sort_total l : Forall accepted l -> exists l', ArraySort.sort comparefn l = Ok l'.
Proof. apply sortFrom_total. constructor. Qed.

(** The order the comparator decides. *)
Variable le : A -> A -> Prop.
Hypothesis le_trans : forall a b c, le a b -> le b c -> le a c.
Hypothesis before : forall x y c, comparefn x y = Ok c -> c < 0 -> le x y.
Hypothesis after : forall x y c, comparefn x y = Ok c -> 0 <= c -> le y x.

Lemma insert_sorted x l l' :
  StronglySorted le l -> ArraySort.insert comparefn x l = Ok l' -> StronglySorted le l'.
Proof.
  revert l'. induction l as [|y r IH]; simpl; intros l' Hs.
  - intros [= <-]. constructor; constructor.
  - destruct (comparefn x y) as [c|e] eqn:Ec; simpl; [|discriminate].
    inversion Hs as [|? ? Hr Hy]; subst.
    destruct (Z.ltb_spec c 0) as [Hlt|Hge].
    + intros [= <-]. constructor; [exact Hs|].
      pose proof (before Ec Hlt) as Hxy.
      constructor; [exact Hxy|].
      eapply Forall_impl; [|exact Hy]. intros z Hz. eapply le_trans; eassumption.
    + destruct (ArraySort.insert comparefn x r) as [r'|e] eqn:Er; simpl; [|discriminate].
      intros [= <-]. constructor; [apply IH; [exact Hr|reflexivity]|].
      apply insert_perm in Er.
      eapply Permutation_Forall; [exact Er|].
      constructor; [exact (after Ec Hge)|exact Hy].
Qed.

Lemma sortFrom_sorted rest : forall sorted l',
  StronglySorted le sorted ->
  ArraySort.sortFrom comparefn sorted rest = Ok l' -> StronglySorted le l'.
Proof.
  induction rest as [|x r IH]; simpl; intros sorted l' Hs.
  - intros [= <-]. exact Hs.
  - destruct (ArraySort.insert comparefn x sorted) as [s|e] eqn:E; simpl; [|discriminate].
    apply IH. eapply insert_sorted; eassumption.
Qed.

Lemma sort_sorted l l' : ArraySort.sort comparefn l = Ok l' -> StronglySorted le l'.
Proof. apply sortFrom_sorted. constructor. Qed.

End SortFacts.

(** ** The name comparator *)

Lemma ToString_Ok (j : json) (s : string) :
  Json.ToString j = Ok s -> s = Json.toString j.
Proof.
  unfold Json.ToString. destruct (Json.convertible j); [|discriminate].
  intros [= <-]. reflexivity.
Qed.

Lemma ToStringOpt_Ok (v : option json) (s : string) :
  Json.ToStringOpt v = Ok s -> s = Json.toStringOpt v.
Proof.
  destruct v as [j|]; simpl; [apply ToString_Ok|].
  intros [= <-]. reflexivity.
Qed.

Lemma compareNames_Ok lc (a b : option json) (c : Z) :
  compareNames lc a b = Ok c ->
  exists s, a = Some (JStr s) /\ c = lc s (Json.toStringOpt b).
Proof.
  unfold compareNames. destruct a as [[| | |s| |]|]; try discriminate.
  destruct (Json.ToStringOpt b) as [that|e] eqn:Eb; simpl; [|discriminate].
  intros [= <-]. rewrite (ToStringOpt_Ok _ Eb). eauto.
Qed.

Section NameOrder.
Variable w : World.
Hypothesis collation : Spec.Collation (localeCompare w).

Lemma notAfter_trans a b c :
  Spec.notAfter w a b -> Spec.notAfter w b c -> Spec.notAfter w a c.
Proof. apply (Spec.collation_trans collation). Qed.

Lemma names_before (a b : option json) (c : Z) :
  compareNames (localeCompare w) a b = Ok c -> c < 0 ->
  Spec.notAfter w (Json.toStringOpt a) (Json.toStringOpt b).
Proof.
  intros H Hc. apply compareNames_Ok in H. destruct H as [s [-> ->]].
  unfold Spec.notAfter. simpl. lia.
Qed.

Lemma names_after (a b : option json) (c : Z) :
  compareNames (localeCompare w) a b = Ok c -> 0 <= c ->
  Spec.notAfter w (Json.toStringOpt b) (Json.toStringOpt a).
Proof.
  intros H Hc. apply compareNames_Ok in H. destruct H as [s [-> ->]].
  apply (Spec.collation_total collation), Hc.
Qed.

(** A sort by name that succeeds leaves the list in order. *)
Lemma sort_by_name (A : Type) (nameOf : A -> option json) (l l' : list A) :
  ArraySort.sort (fun a b => compareNames (localeCompare w) (nameOf a) (nameOf b)) l = Ok l' ->
  StronglySorted (fun a b => Spec.notAfter w (Json.toStringOpt (nameOf a))
                                          (Json.toStringOpt (nameOf b))) l'.
Proof.
  apply sort_sorted.
  - intros a b c. apply notAfter_trans.
  - intros x y c. apply names_before.
  - intros x y c. apply names_after.
Qed.

End NameOrder.

(** A sort by name succeeds when every name is a string. *)
Lemma sort_by_name_total (w : World) (A : Type) (nameOf : A -> option json) (l : list A) :
  Forall (fun a => exists s, nameOf a = Some (JStr s)) l ->
  exists l',
    ArraySort.sort (fun a b => compareNames (localeCompare w) (nameOf a) (nameOf b)) l = Ok l'.
Proof.
  apply sort_total. intros x y [s Hs] [t Ht]. rewrite Hs, Ht. simpl. eauto.
Qed.

(** ** [Math.max] *)

Lemma mathMax_spec (values : list Z) :
  values <> [] ->
  exists m, mathMax values = Num m /\ In m values /\ Forall (fun v => v <= m) values.
Proof.
  induction values as [|v r IH]; [congruence|]. intros _.
  destruct r as [|v' r'].
  - exists v. simpl. repeat split; auto. constructor; [lia|constructor].
  - destruct IH as [m [Hm [Hin Hall]]]; [discriminate|].
    change (mathMax (v :: v' :: r')) with (maxNum (Num v) (mathMax (v' :: r'))).
    rewrite Hm. simpl. exists (Z.max v m). split; [reflexivity|]. split.
    + destruct (Z.max_spec v m) as [[_ ->]|[_ ->]]; [right; exact Hin|left; reflexivity].
    + constructor; [lia|].
      eapply Forall_impl; [|exact Hall]. simpl. intros; lia.
Qed.

(* ------------------------------------------------------------------ *)
(** ** The consolidated script *)
(* ------------------------------------------------------------------ *)

Section ConsolidatedFacts.
Import Catalog.
Variable w : World.

(** A file that parses gives its app, whatever the log line does. *)
Lemma readMetadataFile_app (f : Consolidated.MetadataFile) (j : json) :
  Consolidated.content f = Parsed j ->
  fst (Consolidated.readMetadataFile w f)
  = Some {| metadata := Json.spread j;
            slug := Js.join "/" (tl (Js.split "/" (Consolidated.directoryPath f)));
            lastUpdated :=
              Consolidated.getLastCommitTimestampForMetadataFile w (Consolidated.relativePath f);
            metadataPath := Js.backslashesToSlashes (Consolidated.relativePath f) |}.
Proof.
  intros Hc. unfold Consolidated.readMetadataFile. rewrite Hc.
  destruct j; try reflexivity;
    repeat match goal with
           | |- context [match Json.ToStringOpt ?v with _ => _ end] =>
               destruct (Json.ToStringOpt v)
           end; reflexivity.
Qed.

Lemma readAllMetadataFiles_In (app : App) :
  In app (Consolidated.readAllMetadataFiles w) ->
  exists f j,
    In f (Consolidated.collect w)
    /\ Consolidated.content f = Parsed j
    /\ metadata app = Json.spread j
    /\ lastUpdated app
       = Consolidated.getLastCommitTimestampForMetadataFile w (Consolidated.relativePath f)
    /\ metadataPath app = Js.backslashesToSlashes (Consolidated.relativePath f).
Proof.
  unfold Consolidated.readAllMetadataFiles. rewrite in_flat_map.
  intros [f [Hf Hin]]. exists f.
  destruct (Consolidated.content f) as [| |j] eqn:Ec.
  - unfold Consolidated.readMetadataFile in Hin. rewrite Ec in Hin. destruct Hin.
  - unfold Consolidated.readMetadataFile in Hin. rewrite Ec in Hin. destruct Hin.
  - rewrite (readMetadataFile_app _ Ec) in Hin. exists j.
    destruct Hin as [<-|[]]. simpl. auto.
Qed.


Variable pool : list App.

Lemma addApp_wellFormed cats app cats' :
  Spec.wellFormedMap pool cats -> In app pool ->
  Consolidated.addApp cats app = Ok cats' -> Spec.wellFormedMap pool cats'.
Proof.
  intros [Hnd Hwf] Hin. unfold Consolidated.addApp, Json.ToString.
  set (categoryName := Consolidated.categoryNameOf app).
  destruct (Json.convertible categoryName); cbn [bind]; [|discriminate].
  set (key := Json.toString categoryName).
  destruct (Obj.get key cats) as [c0|] eqn:E; simpl.
  - rewrite E. intros [= <-]. split; [apply NoDup_set, Hnd|].
    intros k c. rewrite get_set.
    destruct (String.eqb_spec k key) as [->|Hne]; [|apply Hwf].
    intros [= <-]. destruct (Hwf _ _ E) as (H1 & H2 & H3 & H4 & H5 & H6).
    repeat split; simpl; auto.
    + rewrite length_app, H3. simpl. lia.
    + intros Hnil. apply app_eq_nil in Hnil. destruct Hnil; discriminate.
    + apply incl_app; [exact H6|]. intros x [<-|[]]. exact Hin.
  - destruct (Obj.is_inherited key); simpl; [rewrite E; discriminate|].
    destruct categoryName as [| | |s| |] eqn:En; simpl; try discriminate.
    subst key. simpl in *. rewrite get_set_same. intros [= <-].
    split; [apply NoDup_set, NoDup_set, Hnd|].
    intros k c. rewrite get_set.
    destruct (String.eqb_spec k s) as [->|Hne].
    + intros [= <-]. repeat split; simpl; auto; [discriminate|].
      intros x [<-|[]]. exact Hin.
    + rewrite get_set_other by exact Hne. apply Hwf.
Qed.

Lemma addApps_wellFormed apps : forall cats cats',
  Spec.wellFormedMap pool cats -> incl apps pool ->
  Consolidated.addApps cats apps = Ok cats' -> Spec.wellFormedMap pool cats'.
Proof.
  induction apps as [|app r IH]; simpl; intros cats cats' Hwf Hincl.
  - intros [= <-]. exact Hwf.
  - destruct (Consolidated.addApp cats app) as [cats1|e] eqn:E; simpl; [|discriminate].
    apply IH.
    + eapply addApp_wellFormed; [exact Hwf| |exact E]. apply Hincl. left. reflexivity.
    + intros x Hx. apply Hincl. right. exact Hx.
Qed.

Lemma rearranged_refl c : Spec.rearranged c c.
Proof. repeat split; reflexivity. Qed.

Lemma rearranged_trans c1 c2 c3 :
  Spec.rearranged c1 c2 -> Spec.rearranged c2 c3 -> Spec.rearranged c1 c3.
Proof.
  intros (A1 & A2 & A3 & A4 & A5) (B1 & B2 & B3 & B4 & B5).
  repeat split; try congruence. rewrite A5. exact B5.
Qed.

Lemma rearranged_wellFormed k c c' :
  Spec.wellFormed pool k c -> Spec.rearranged c c' -> Spec.wellFormed pool k c'.
Proof.
  intros (H1 & H2 & H3 & H4 & H5 & H6) (A1 & A2 & A3 & A4 & A5).
  repeat split; try congruence.
  - rewrite A3, H3. apply Permutation_length, A5.
  - intros Hnil. rewrite Hnil in A5. symmetry in A5.
    apply Permutation_nil in A5. contradiction.
  - intros x Hx. apply H6. eapply Permutation_in; [symmetry; exact A5|exact Hx].
Qed.

(** The sort of the apps keeps every category, rearranging its apps. *)
Lemma sortApps_rearranges keys : forall cats cats',
  Consolidated.sortApps w keys cats = Ok cats' ->
  map fst cats' = map fst cats
  /\ forall k c', Obj.get k cats' = Some c' ->
                  exists c, Obj.get k cats = Some c /\ Spec.rearranged c c'.
Proof.
  induction keys as [|k0 r IH]; simpl; intros cats cats'.
  - intros [= <-]. split; [reflexivity|]. intros k c' H. exists c'.
    split; [exact H|apply rearranged_refl].
  - destruct (Obj.get k0 cats) as [c0|] eqn:E; [|apply IH].
    destruct (ArraySort.sort (Consolidated.compareApps w) (catApps c0)) as [sorted|e] eqn:Es;
      simpl; [|discriminate].
    intros H. apply IH in H. destruct H as [Hkeys Hrel].
    split; [rewrite Hkeys; eapply keys_set_present; exact E|].
    intros k c' Hc'. destruct (Hrel _ _ Hc') as [c1 [Hc1 Hr]].
    rewrite get_set in Hc1.
    destruct (String.eqb_spec k k0) as [->|Hne].
    + injection Hc1 as <-. exists c0. split; [exact E|].
      eapply rearranged_trans; [|exact Hr].
      repeat split; simpl; auto. apply sort_perm in Es. exact Es.
    + exists c1. split; [exact Hc1|exact Hr].
Qed.

Lemma organize_wellFormed cats :
  Consolidated.organizeAppsByCategory w pool = Ok cats -> Spec.wellFormedMap pool cats.
Proof.
  unfold Consolidated.organizeAppsByCategory.
  destruct (Consolidated.addApps [] pool) as [cats0|e] eqn:E; simpl; [|discriminate].
  intros Hs.
  assert (Hwf : Spec.wellFormedMap pool cats0).
  { eapply addApps_wellFormed; [|apply incl_refl|exact E].
    split; [constructor|]. intros k c; discriminate. }
  destruct (sortApps_rearranges _ _ Hs) as [Hkeys Hrel].
  destruct Hwf as [Hnd Hwf]. split; [rewrite Hkeys; exact Hnd|].
  intros k c' Hc'. destruct (Hrel _ _ Hc') as [c [Hc Hr]].
  eapply rearranged_wellFormed; [apply Hwf, Hc|exact Hr].
Qed.

Hypothesis collation : Spec.Collation (localeCompare w).

Lemma sortApps_sorted keys : forall cats cats',
  Consolidated.sortApps w keys cats = Ok cats' ->
  forall k c', Obj.get k cats' = Some c' ->
    exists c, Obj.get k cats = Some c
              /\ (Spec.catalogAppsSorted w (catApps c) -> Spec.catalogAppsSorted w (catApps c'))
              /\ (In k keys -> Spec.catalogAppsSorted w (catApps c')).
Proof.
  induction keys as [|k0 r IH]; simpl; intros cats cats'.
  - intros [= <-] k c' H. exists c'. repeat split; tauto.
  - destruct (Obj.get k0 cats) as [c0|] eqn:E.
    + destruct (ArraySort.sort (Consolidated.compareApps w) (catApps c0)) as [sorted|e] eqn:Es;
        simpl; [|discriminate].
      intros H k c' Hc'. destruct (IH _ _ H _ _ Hc') as [c1 [Hc1 [Hkeep Hin]]].
      rewrite get_set in Hc1.
      assert (Hsorted : Spec.catalogAppsSorted w sorted).
      { exact (@sort_by_name w collation App (fun a => Catalog.prop "name" a) _ _ Es). }
      destruct (String.eqb_spec k k0) as [->|Hne].
      * injection Hc1 as <-. simpl in Hkeep. exists c0. repeat split; auto.
      * exists c1. repeat split; auto. intros [Heq|Hr]; [congruence|auto].
    + intros H k c' Hc'. destruct (IH _ _ H _ _ Hc') as [c1 [Hc1 [Hkeep Hin]]].
      exists c1. repeat split; auto. intros [Heq|Hr]; [|auto].
      subst k0. congruence.
Qed.

Lemma organize_sorted cats k c :
  Consolidated.organizeAppsByCategory w pool = Ok cats ->
  Obj.get k cats = Some c -> Spec.catalogAppsSorted w (catApps c).
Proof.
  unfold Consolidated.organizeAppsByCategory.
  destruct (Consolidated.addApps [] pool) as [cats0|e] eqn:E; simpl; [|discriminate].
  intros Hs Hc. destruct (sortApps_sorted _ _ Hs _ Hc) as [c0 [Hc0 [_ Hin]]].
  apply Hin. apply In_keys. apply get_In in Hc0. apply (in_map fst) in Hc0. exact Hc0.
Qed.

End ConsolidatedFacts.

Section ConsolidatedRun.
Import Catalog.
Variable w : World.

(** What [build] hands to the emitter. *)
Lemma build_inv (data : CategoryAllData) :
  Consolidated.build w = Ok (Some data) ->
  exists cats,
    Consolidated.organizeAppsByCategory w (Consolidated.readAllMetadataFiles w) = Ok cats
    /\ ArraySort.sort (Consolidated.compareCategories w)
         (map Consolidated.withLastUpdated (Obj.values cats)) = Ok (categories data)
    /\ totalApps data = List.length (Consolidated.readAllMetadataFiles w)
    /\ totalCategories data = List.length (categories data).
Proof.
  unfold Consolidated.build.
  destruct (Consolidated.readAllMetadataFiles w) as [|a apps] eqn:Ea; [discriminate|].
  destruct (Consolidated.organizeAppsByCategory w (a :: apps)) as [cats|e]; simpl;
    [|discriminate].
  destruct (ArraySort.sort _ _) as [sorted|e] eqn:Es; simpl; [|discriminate].
  intros [= <-]. exists cats. simpl. auto.
Qed.

Lemma build_category (data : CategoryAllData) (c : Category) :
  Consolidated.build w = Ok (Some data) -> In c (categories data) ->
  catSlug c = Consolidated.categorySlug (catName c)
  /\ catCount c = List.length (catApps c)
  /\ catApps c <> []
  /\ catLastUpdated c = Some (Consolidated.getCategoryLastUpdated (catApps c))
  /\ incl (catApps c) (Consolidated.readAllMetadataFiles w)
  /\ (Spec.Collation (localeCompare w) -> Spec.catalogAppsSorted w (catApps c)).
Proof.
  intros Hb Hc. destruct (build_inv Hb) as (cats & Ho & Hs & _).
  apply sort_perm in Hs.
  apply (Permutation_in _ (Permutation_sym Hs)) in Hc.
  apply in_map_iff in Hc. destruct Hc as [c0 [<- Hc0]].
  apply In_values in Hc0. destruct Hc0 as [k Hk].
  pose proof (@organize_wellFormed w _ _ Ho) as [Hnd Hwf].
  apply (@In_get _ _ _ _ Hnd) in Hk.
  destruct (Hwf _ _ Hk) as (H1 & H2 & H3 & H4 & H5 & H6).
  simpl. repeat split; auto; [congruence|].
  intros Hcol. eapply organize_sorted; eassumption.
Qed.

Lemma build_sorted (data : CategoryAllData) :
  Spec.Collation (localeCompare w) ->
  Consolidated.build w = Ok (Some data) ->
  StronglySorted (fun a b => Spec.notAfter w (catName a) (catName b)) (categories data).
Proof.
  intros Hcol Hb. destruct (build_inv Hb) as (cats & _ & Hs & _).
  exact (@sort_by_name w Hcol Category (fun c => Some (JStr (catName c))) _ _ Hs).
Qed.

Lemma main_outputs (file : string) (d : FileData) :
  In (file, d) (outputs (Consolidated.main w)) ->
  exists data,
    file = "category-all.json" /\ d = CategoryAllFile data
    /\ Consolidated.build w = Ok (Some data).
Proof.
  unfold Consolidated.main.
  destruct (Consolidated.build w) as [[data|]|e]; simpl; try tauto.
  destruct (writeFileSync _ _ _ _); simpl; try tauto.
  intros [[= <- <-]|[]]. eauto.
Qed.

(** *** When the aggregation cannot throw *)

Lemma addApp_total cats app :
  Spec.wellTyped app -> exists cats', Consolidated.addApp cats app = Ok cats'.
Proof.
  intros [_ [s [Hs Hinh]]]. unfold Consolidated.addApp. rewrite Hs. simpl.
  destruct (Obj.get s cats) as [c0|] eqn:E; simpl.
  - rewrite E. eauto.
  - rewrite Hinh. simpl. rewrite get_set_same. eauto.
Qed.

Lemma addApps_total apps : forall cats,
  Forall Spec.wellTyped apps -> exists cats', Consolidated.addApps cats apps = Ok cats'.
Proof.
  induction apps as [|app r IH]; simpl; intros cats Hall; [eauto|].
  inversion Hall as [|? ? Ha Hr]; subst.
  destruct (addApp_total cats Ha) as [cats1 ->]. simpl. apply IH, Hr.
Qed.

Lemma sortApps_total keys : forall cats,
  (forall k c, Obj.get k cats = Some c ->
               Forall (fun a => Spec.hasStringName (metadata a)) (catApps c)) ->
  exists cats', Consolidated.sortApps w keys cats = Ok cats'.
Proof.
  induction keys as [|k0 r IH]; simpl; intros cats Hall; [eauto|].
  destruct (Obj.get k0 cats) as [c0|] eqn:E; [|apply IH, Hall].
  destruct (@sort_by_name_total w App (fun a => Catalog.prop "name" a) _ (Hall _ _ E))
    as [sorted Hs].
  unfold Consolidated.compareApps. rewrite Hs. simpl.
  apply IH. intros k c. rewrite get_set.
  destruct (String.eqb_spec k k0) as [->|Hne]; [|apply Hall].
  intros [= <-]. simpl.
  eapply Permutation_Forall; [apply (sort_perm _ _ Hs)|]. apply (Hall _ _ E).
Qed.

Lemma build_total :
  Forall Spec.wellTyped (Consolidated.readAllMetadataFiles w) ->
  exists r, Consolidated.build w = Ok r.
Proof.
  intros Hall. unfold Consolidated.build.
  destruct (Consolidated.readAllMetadataFiles w) as [|a apps] eqn:Ea; [eauto|].
  unfold Consolidated.organizeAppsByCategory.
  destruct (addApps_total [] Hall) as [cats0 Hadd]. rewrite Hadd. simpl.
  assert (Hwf : Spec.wellFormedMap (a :: apps) cats0).
  { eapply addApps_wellFormed; [|apply incl_refl|exact Hadd].
    split; [constructor|]. intros k c; discriminate. }
  destruct (sortApps_total (Obj.keys cats0) cats0) as [cats Hs].
  { intros k c Hc. destruct Hwf as [_ Hwf].
    destruct (Hwf _ _ Hc) as (_ & _ & _ & _ & _ & Hincl).
    rewrite Forall_forall. intros x Hx. apply Hincl in Hx.
    rewrite Forall_forall in Hall. apply Hall, Hx. }
  rewrite Hs. simpl.
  destruct (@sort_by_name_total w Category (fun c => Some (JStr (catName c)))
              (map Consolidated.withLastUpdated (Obj.values cats))) as [sorted Hsorted].
  { rewrite Forall_forall. intros c _. eauto. }
  unfold Consolidated.compareCategories. rewrite Hsorted. simpl. eauto.
Qed.

End ConsolidatedRun.

(* ------------------------------------------------------------------ *)
(** ** The release script: loading and grouping *)
(* ------------------------------------------------------------------ *)

Section ReleasesLoading.



Lemma loadMetadata_Loaded filePath content metadata :
  Releases.loadMetadata filePath content = Releases.Loaded metadata ->
  exists fields,
    content = Parsed (JObj fields)
    /\ (forall field, In field Releases.requiredFields ->
                      Releases.fieldPresent fields field = true)
    /\ metadata
       = Obj.set "filePath" (JStr (Js.backslashesToSlashes (dirname filePath))) fields.
Proof.
  unfold Releases.loadMetadata.
  destruct content as [| |[| | | | |fields]]; try discriminate.
  destruct (find _ _) as [field|] eqn:Ef; [discriminate|].
  intros [= <-]. exists fields. repeat split.
  intros field Hin. pose proof (find_none _ _ Ef _ Hin) as H.
  simpl in H. apply negb_false_iff in H. exact H.
Qed.

Lemma loadMetadata_complete filePath content :
  Spec.complete content <-> exists metadata,
    Releases.loadMetadata filePath content = Releases.Loaded metadata.
Proof.
  split.
  - intros [fields [-> Hall]]. unfold Releases.loadMetadata.
    destruct (find _ _) as [field|] eqn:Ef; [|eauto].
    apply find_some in Ef. destruct Ef as [Hin Hf].
    rewrite (Hall _ Hin) in Hf. discriminate.
  - intros [metadata H]. apply loadMetadata_Loaded in H.
    destruct H as [fields [-> [Hall _]]]. exists fields. auto.
Qed.

(** Whatever is not loaded is skipped with a warning. *)
Lemma loadMetadata_incomplete filePath content :
  ~ Spec.complete content ->
  exists warning, Releases.loadMetadata filePath content = Releases.Skipped warning.
Proof.
  intros Hn. destruct (Releases.loadMetadata filePath content) as [m|warning] eqn:E; [|eauto].
  exfalso. apply Hn. apply (loadMetadata_complete filePath). eauto.
Qed.




(** The grouping step once its log line has converted the name and the
    category. *)
Lemma addMetadata_eq cats metadata :
  Spec.printable (Obj.get "name" metadata) ->
  Spec.printable (Obj.get "category" metadata) ->
  Releases.addMetadata cats metadata
  = match Obj.get (Spec.categoryKey metadata) cats with
    | Some apps => Ok (Obj.set (Spec.categoryKey metadata) (apps ++ [metadata])%list cats)
    | None =>
        if Obj.is_inherited (Spec.categoryKey metadata)
        then Throw (TypeError "categorizedApps[category].push is not a function")
        else Ok (Obj.set (Spec.categoryKey metadata) [metadata] cats)
    end.
Proof.
  intros [n Hn] [c Hc]. unfold Releases.addMetadata, Spec.categoryKey.
  rewrite Hn, Hc. cbn [bind]. rewrite (ToStringOpt_Ok _ Hc). reflexivity.
Qed.

Lemma addMetadata_Ok cats metadata cats' :
  Releases.addMetadata cats metadata = Ok cats' ->
  Spec.printable (Obj.get "name" metadata)
  /\ Spec.printable (Obj.get "category" metadata).
Proof.
  unfold Releases.addMetadata, Spec.printable.
  destruct (Json.ToStringOpt (Obj.get "name" metadata)) as [n|e]; [|discriminate].
  destruct (Json.ToStringOpt (Obj.get "category" metadata)) as [c|e]; [|discriminate].
  eauto.
Qed.

Lemma addMetadata_grouped entries cats metadata cats' :
  Spec.grouped entries cats ->
  Releases.addMetadata cats metadata = Ok cats' ->
  Spec.grouped (entries ++ [metadata]) cats'.
Proof.
  intros [Hnd Hg] Hadd. destruct (@addMetadata_Ok _ _ _ Hadd) as [Hpn Hpc].
  rewrite (@addMetadata_eq cats _ Hpn Hpc) in Hadd. revert Hadd.
  set (key := Spec.categoryKey metadata).
  assert (Hfilter : forall k, filter (Spec.inCategory k) (entries ++ [metadata])
                              = (filter (Spec.inCategory k) entries
                                   ++ if String.eqb k key then [metadata] else [])%list).
  { intros k. rewrite filter_app. simpl. unfold Spec.inCategory at 2. fold key.
    destruct (String.eqb k key); reflexivity. }
  pose proof (Hg key) as Hkey.
  destruct (Obj.get key cats) as [apps|] eqn:E.
  - intros [= <-]. split; [apply NoDup_set, Hnd|].
    intros k. rewrite get_set, Hfilter. specialize (Hg k).
    destruct (String.eqb_spec k key) as [->|Hne].
    + destruct Hkey as [-> _]. split; [reflexivity|].
      intros Hnil. apply app_eq_nil in Hnil. destruct Hnil; discriminate.
    + rewrite app_nil_r. exact Hg.
  - destruct (Obj.is_inherited key); [discriminate|].
    intros [= <-]. split; [apply NoDup_set, Hnd|].
    intros k. rewrite get_set, Hfilter. specialize (Hg k).
    destruct (String.eqb_spec k key) as [->|Hne].
    + rewrite Hkey. split; [reflexivity|discriminate].
    + rewrite app_nil_r. exact Hg.
Qed.

Lemma groupByCategory_grouped files : forall entries cats cats',
  Spec.grouped entries cats ->
  Releases.groupByCategory cats files = Ok cats' ->
  Spec.grouped (entries ++ Spec.validEntries files) cats'.
Proof.
  induction files as [|[p c] r IH]; simpl; intros entries cats cats' Hg.
  - intros [= <-]. rewrite app_nil_r. exact Hg.
  - destruct (Releases.loadMetadata p c) as [m|warning].
    + destruct (Releases.addMetadata cats m) as [cats1|e] eqn:E; simpl; [|discriminate].
      intros H. apply (IH (entries ++ [m])%list) in H.
      * rewrite <- app_assoc in H. exact H.
      * eapply addMetadata_grouped; eassumption.
    + apply IH, Hg.
Qed.

Lemma grouped_nil : Spec.grouped [] [].
Proof. split; [constructor|]. intros k. reflexivity. Qed.

Lemma group_grouped files cats :
  Releases.groupByCategory [] files = Ok cats ->
  Spec.grouped (Spec.validEntries files) cats.
Proof. intros H. apply (groupByCategory_grouped _ grouped_nil) in H. exact H. Qed.

Lemma addMetadata_total cats metadata :
  Spec.wellTypedEntry metadata -> exists cats', Releases.addMetadata cats metadata = Ok cats'.
Proof.
  intros ([n Hn] & Hc & Hinh & _).
  rewrite (@addMetadata_eq cats metadata); [|exists n; rewrite Hn; reflexivity|exact Hc].
  destruct (Obj.get _ cats); [eauto|]. rewrite Hinh. eauto.
Qed.

Lemma groupByCategory_total files : forall cats,
  Forall Spec.wellTypedEntry (Spec.validEntries files) ->
  exists cats', Releases.groupByCategory cats files = Ok cats'.
Proof.
  induction files as [|[p c] r IH]; simpl; intros cats Hall; [eauto|].
  destruct (Releases.loadMetadata p c) as [m|warning]; [|apply IH, Hall].
  inversion Hall as [|? ? Hm Hr]; subst.
  destruct (addMetadata_total cats Hm) as [cats1 ->]. simpl. apply IH, Hr.
Qed.

End ReleasesLoading.

(* ------------------------------------------------------------------ *)
(** ** The release script: writing and cleaning up *)
(* ------------------------------------------------------------------ *)

Section ReleasesWriting.
Import Release.
Variable w : World.

Lemma keys_set_incl (A : Type) (k : string) (v : A) (o : list (string * A)) :
  incl (map fst o) (map fst (Obj.set k v o)).
Proof.
  destruct (Obj.get k o) as [v0|] eqn:E.
  - rewrite (@keys_set_present A k v v0 o E). apply incl_refl.
  - rewrite (@keys_set_absent A k v o E). apply incl_appl, incl_refl.
Qed.

(** When the callback of [apps.map] returns, it returns the cleaned app. *)
Lemma filterApp_Ok (app cleaned : props) :
  Releases.filterApp app = Ok cleaned -> cleaned = Releases.cleanApp app.
Proof.
  unfold Releases.filterApp.
  destruct (Json.ToStringOpt (Obj.get "owner" app)); [|discriminate].
  destruct (Json.ToStringOpt (Obj.get "repo" app)); [|discriminate].
  destruct (Json.ToStringOpt (Obj.get "name" app)); [|discriminate].
  intros [= <-]. reflexivity.
Qed.

Lemma mapM_filterApp (sorted : list props) : forall filtered,
  Releases.mapM Releases.filterApp sorted = Ok filtered ->
  filtered = map Releases.cleanApp sorted.
Proof.
  induction sorted as [|app r IH]; simpl; intros filtered.
  - intros [= <-]. reflexivity.
  - destruct (Releases.filterApp app) as [cleaned|e] eqn:Ea; cbn [bind]; [|discriminate].
    destruct (Releases.mapM Releases.filterApp r) as [rest|e]; cbn [bind]; [|discriminate].
    intros [= <-]. rewrite (filterApp_Ok _ Ea), (IH rest eq_refl). reflexivity.
Qed.

Lemma generateRelease_cases st entry st' :
  Releases.generateRelease w st entry = Ok st' ->
  exists sorted,
    ArraySort.sort (Releases.compareApps w) (snd entry) = Ok sorted
    /\ ((writable w (Releases.releaseFileName (fst entry)) = false /\ st' = st)
        \/ (writable w (Releases.releaseFileName (fst entry)) = true
            /\ Releases.dir st'
               = Obj.set (fst (Spec.releaseOutput entry sorted))
                   (snd (Spec.releaseOutput entry sorted)) (Releases.dir st)
            /\ Releases.releaseFiles st'
               = (Releases.releaseFiles st ++ [Releases.releaseFileName (fst entry)])%list
            /\ Releases.categoriesWithReleases st'
               = (Releases.categoriesWithReleases st ++ [fst entry])%list
            /\ Releases.written st'
               = (Releases.written st ++ [Spec.releaseOutput entry sorted])%list)).
Proof.
  destruct entry as [category apps]. unfold Releases.generateRelease. simpl.
  destruct (ArraySort.sort (Releases.compareApps w) apps) as [sorted|e]; simpl;
    [|discriminate].
  destruct (Releases.mapM Releases.filterApp sorted) as [filtered|e] eqn:Ef; cbn [bind];
    [|discriminate].
  apply mapM_filterApp in Ef. subst filtered.
  intros H. exists sorted. split; [reflexivity|].
  unfold writeFileSync in H.
  destruct (writable w (Releases.releaseFileName category)).
  - injection H as <-. right. simpl. auto.
  - injection H as <-. left. auto.
Qed.

Lemma generateReleases_spec entries : forall st e st',
  Releases.generateReleases w st entries = (e, st') ->
  exists new,
    Releases.written st' = (Releases.written st ++ new)%list
    /\ Releases.releaseFiles st' = (Releases.releaseFiles st ++ map fst new)%list
    /\ Forall (Spec.isReleaseOf w entries) new
    /\ incl (Releases.categoriesWithReleases st')
            (Releases.categoriesWithReleases st ++ map fst entries)
    /\ incl (map fst (Releases.dir st)) (map fst (Releases.dir st'))
    /\ (e = None ->
        forall entry, In entry entries ->
                      writable w (Releases.releaseFileName (fst entry)) = true ->
                      In (Releases.releaseFileName (fst entry)) (map fst new)).
Proof.
  induction entries as [|entry r IH]; simpl; intros st e st'.
  - intros [= <- <-]. exists []. rewrite !app_nil_r.
    repeat split; auto using incl_refl; try (intros _ ? []).
  - destruct (Releases.generateRelease w st entry) as [st1|x] eqn:E.
    + intros H. destruct (IH _ _ _ H) as (new & Hw & Hf & Hall & Hc & Hd & Hcont).
      assert (Hweaken : Forall (Spec.isReleaseOf w (entry :: r)) new).
      { eapply Forall_impl; [|exact Hall].
        intros out (en & sorted & Hin & Hs & ->). exists en, sorted.
        repeat split; auto. right. exact Hin. }
      destruct (generateRelease_cases _ _ E) as (sorted & Hs & [[Hwr ->]|(Hwr & Hd1 & Hf1 & Hc1 & Hw1)]).
      * exists new. repeat split; auto.
        -- intros x Hx. apply Hc in Hx. apply in_app_or in Hx.
           apply in_or_app. destruct Hx; [left|right; right]; assumption.
        -- intros He en [<-|Hin] Hen; [congruence|]. apply Hcont; assumption.
      * exists (Spec.releaseOutput entry sorted :: new).
        rewrite Hw, Hw1, Hf, Hf1, <- !app_assoc. simpl. repeat split; auto.
        -- constructor; [|exact Hweaken]. exists entry, sorted.
           repeat split; auto. left. reflexivity.
        -- intros x Hx. apply Hc in Hx. rewrite Hc1, <- app_assoc in Hx. exact Hx.
        -- intros x Hx. apply Hd. rewrite Hd1. apply keys_set_incl, Hx.
        -- intros He en [<-|Hin] Hen; [left; reflexivity|]. right. apply Hcont; assumption.
    + intros [= <- <-]. exists []. rewrite !app_nil_r.
      repeat split; auto using incl_refl; try discriminate.
      apply incl_appl, incl_refl.
Qed.

(** Whether the loop throws does not depend on the state, nor on anything
    but the collation. *)
Lemma generateReleases_ending (w' : World) entries : forall st st',
  localeCompare w = localeCompare w' ->
  fst (Releases.generateReleases w st entries)
  = fst (Releases.generateReleases w' st' entries).
Proof.
  intros st st' Hlc. revert st st'.
  induction entries as [|[category apps] r IH]; simpl; intros st st'; [reflexivity|].
  unfold Releases.generateRelease, Releases.compareApps. rewrite <- Hlc.
  destruct (ArraySort.sort _ apps) as [sorted|e]; simpl; [|reflexivity].
  destruct (Releases.mapM Releases.filterApp sorted) as [filtered|e]; cbn [bind];
    [|reflexivity].
  unfold writeFileSync.
  destruct (writable w _); destruct (writable w' _); apply IH.
Qed.

Lemma mapM_In (A B : Type) (f : A -> result B) (l : list A) : forall ys y,
  Releases.mapM f l = Ok ys -> In y ys -> exists x, In x l /\ f x = Ok y.
Proof.
  induction l as [|x r IH]; simpl; intros ys y.
  - intros [= <-] [].
  - destruct (f x) as [y0|e] eqn:Ef; simpl; [|discriminate].
    destruct (Releases.mapM f r) as [ys0|e]; simpl; [|discriminate].
    intros [= <-] [<-|Hin]; [eauto|].
    destruct (IH _ _ eq_refl Hin) as [x' [Hx' Hf]]. eauto.
Qed.

Lemma mapM_total (A B : Type) (f : A -> result B) (l : list A) :
  Forall (fun x => exists y, f x = Ok y) l -> exists ys, Releases.mapM f l = Ok ys.
Proof.
  induction l as [|x r IH]; simpl; intros Hall; [eauto|].
  inversion Hall as [|? ? [y Hy] Hr]; subst. rewrite Hy. simpl.
  destruct (IH Hr) as [ys ->]. simpl. eauto.
Qed.

Lemma writeCategoriesIndex_spec cats st st' :
  Releases.writeCategoriesIndex w cats st = Ok st' ->
  Releases.releaseFiles st' = Releases.releaseFiles st
  /\ incl (map fst (Releases.dir st)) (map fst (Releases.dir st'))
  /\ (Releases.written st' = Releases.written st
      \/ exists idx,
          Releases.written st'
          = (Releases.written st ++ [("categories.json", CategoriesFile idx)])%list
          /\ Spec.isIndexOf w cats (Releases.categoriesWithReleases st) idx).
Proof.
  unfold Releases.writeCategoriesIndex.
  destruct (Releases.categoriesWithReleases st) as [|c0 cs] eqn:Ec.
  - intros [= <-]. auto using incl_refl.
  - destruct (Releases.mapM _ _) as [entries|e] eqn:Em; simpl; [|discriminate].
    destruct (ArraySort.sort _ entries) as [sorted|e] eqn:Es; simpl; [|discriminate].
    unfold writeFileSync. destruct (writable w "categories.json").
    + intros [= <-]. simpl. repeat split; [apply keys_set_incl|].
      right. eexists. split; [reflexivity|].
      exists entries. simpl. auto.
    + intros [= <-]. auto using incl_refl.
Qed.

(** The index block cannot throw: the categories it lists are keys of the
    grouping, and their names are strings. *)
Lemma writeCategoriesIndex_total cats st :
  incl (Releases.categoriesWithReleases st) (map fst cats) ->
  exists st', Releases.writeCategoriesIndex w cats st = Ok st'.
Proof.
  intros Hincl. unfold Releases.writeCategoriesIndex.
  destruct (Releases.categoriesWithReleases st) as [|c0 cs] eqn:Ec; [eauto|].
  destruct (@mapM_total _ _ (Releases.categoryData w cats) (c0 :: cs)) as [entries Hm].
  { rewrite Forall_forall. intros x Hx. apply Hincl in Hx.
    apply In_key_get in Hx. destruct Hx as [apps Ha].
    unfold Releases.categoryData. rewrite Ha. eauto. }
  rewrite Hm. simpl.
  destruct (@sort_by_name_total w CategoryData (fun c => Some (JStr (name c))) entries)
    as [sorted Hs].
  { rewrite Forall_forall. intros c _. eauto. }
  unfold Releases.compareCategories. rewrite Hs. simpl.
  unfold writeFileSync. destruct (writable w _); eauto.
Qed.

(** *** Clean-up *)

Lemma keys_remove (file : string) (d : Dir) :
  incl (map fst (Obj.remove file d)) (map fst d)
  /\ ~ In file (map fst (Obj.remove file d)).
Proof.
  unfold Obj.remove. split.
  - intros x Hx. apply in_map_iff in Hx. destruct Hx as [kv [<- Hin]].
    apply filter_In in Hin. apply in_map, Hin.
  - intros Hx. apply in_map_iff in Hx. destruct Hx as [kv [Heq Hin]].
    apply filter_In in Hin. destruct Hin as [_ Hneg]. rewrite <- Heq in Hneg.
    rewrite String.eqb_refl in Hneg. discriminate.
Qed.

Lemma removeFiles_incl files : forall d,
  incl (map fst (Releases.removeFiles w d files)) (map fst d).
Proof.
  induction files as [|f r IH]; simpl; intros d; [apply incl_refl|].
  unfold unlinkSync. destruct (removable w f); [|apply IH].
  eapply incl_tran; [apply IH|apply keys_remove].
Qed.

Lemma removeFiles_removes files : forall d file,
  In file files -> removable w file = true ->
  ~ In file (map fst (Releases.removeFiles w d files)).
Proof.
  induction files as [|f r IH]; simpl; intros d file; [tauto|].
  intros [->|Hin] Hrm.
  - unfold unlinkSync. rewrite Hrm. intros Hx.
    apply removeFiles_incl in Hx. exact (proj2 (keys_remove file d) Hx).
  - destruct (unlinkSync w d f); apply IH; assumption.
Qed.

Lemma obsoleteFiles_In (d : Dir) (releaseFiles : list string) (file : string) :
  In file (Releases.obsoleteFiles d releaseFiles)
  <-> In file (map fst d) /\ Releases.isReleaseFileName file = true
      /\ ~ In file releaseFiles.
Proof.
  unfold Releases.obsoleteFiles. rewrite !filter_In, negb_true_iff.
  unfold Js.includes.
  assert (Hex : existsb (String.eqb file) releaseFiles = false <-> ~ In file releaseFiles).
  { split.
    - intros He Hin. assert (existsb (String.eqb file) releaseFiles = true).
      { apply existsb_exists. exists file. split; [exact Hin|apply String.eqb_refl]. }
      congruence.
    - intros Hn. destruct (existsb _ _) eqn:He; [|reflexivity].
      apply existsb_exists in He. destruct He as [x [Hx Heq]].
      apply String.eqb_eq in Heq. subst x. contradiction. }
  rewrite Hex. tauto.
Qed.

End ReleasesWriting.

Section ReleasesRun.
Import Release.
Variable w : World.

(** The ways [main] can go: it stops before the loop (on an exception of
    the first log line, of the collector, of the grouping or of [mkdirSync],
    or because no file was found), or it reaches the loop and ends in the
    loop, in the index block, at the listing of the clean-up, or normally. *)
Lemma releases_main_inv :
  (exists c, Releases.main w = Releases.stopped w c
             /\ (c = Returned -> Releases.collect w = Ok []))
  \/ exists files cats st,
      Releases.collect w = Ok files /\ files <> []
      /\ Releases.groupByCategory [] files = Ok cats
      /\ ((exists e, Releases.main w = Releases.crashed e st
                     /\ Releases.generateReleases w (Releases.initialState w)
                          (Obj.entries cats) = (Some e, st))
          \/ (exists e, Releases.main w = Releases.crashed e st
                        /\ Releases.generateReleases w (Releases.initialState w)
                             (Obj.entries cats) = (None, st)
                        /\ Releases.writeCategoriesIndex w cats st = Throw e)
          \/ (exists st' e,
                 Releases.generateReleases w (Releases.initialState w)
                   (Obj.entries cats) = (None, st)
                 /\ Releases.writeCategoriesIndex w cats st = Ok st'
                 /\ canList w = false
                 /\ Releases.main w = Releases.crashed e st')
          \/ (exists st',
                 Releases.generateReleases w (Releases.initialState w)
                   (Obj.entries cats) = (None, st)
                 /\ Releases.writeCategoriesIndex w cats st = Ok st'
                 /\ canList w = true
                 /\ Releases.main w
                    = {| ending := Returned;
                         releasesAfter :=
                           Some (Releases.removeFiles w (Releases.dir st')
                                   (Releases.obsoleteFiles (Releases.dir st')
                                      (Releases.releaseFiles st')));
                         outputs := Releases.written st';
                         removals := Releases.obsoleteFiles (Releases.dir st')
                                       (Releases.releaseFiles st') |})).
Proof.
  unfold Releases.main.
  destruct (Releases.joinValidCategories _) as [s|e];
    [|left; eexists; split; [reflexivity|discriminate]].
  destruct (Releases.collect w) as [[|f files]|e] eqn:Ec;
    [left; eexists; split; [reflexivity|reflexivity]
    | |left; eexists; split; [reflexivity|discriminate]].
  destruct (Releases.groupByCategory [] (f :: files)) as [cats|e] eqn:Eg;
    [|left; eexists; split; [reflexivity|discriminate]].
  destruct (Releases.mkdirSync w) as [[]|e];
    [|left; eexists; split; [reflexivity|discriminate]].
  right. exists (f :: files), cats.
  destruct (Releases.generateReleases w (Releases.initialState w) (Obj.entries cats))
    as [[e|] st] eqn:Egen.
  - exists st. split; [reflexivity|]. split; [discriminate|]. split; [exact Eg|].
    left. exists e. auto.
  - exists st. split; [reflexivity|]. split; [discriminate|]. split; [exact Eg|].
    destruct (Releases.writeCategoriesIndex w cats st) as [st'|e] eqn:Ei.
    + unfold Releases.cleanUp. destruct (canList w) eqn:El.
      * right. right. right. exists st'. auto.
      * right. right. left. exists st'. eexists. auto.
    + right. left. exists e. auto.
Qed.

(** Everything a run writes is a release file of a category of the
    grouping, or the index of categories of the grouping. *)
Lemma releases_outputs (out : string * FileData) :
  In out (outputs (Releases.main w)) ->
  exists files cats,
    Releases.collect w = Ok files
    /\ Releases.groupByCategory [] files = Ok cats
    /\ (Spec.isReleaseOf w (Obj.entries cats) out
        \/ exists idx names,
            out = ("categories.json", CategoriesFile idx)
            /\ Spec.isIndexOf w cats names idx
            /\ incl names (map fst cats)).
Proof.
  destruct releases_main_inv as [[c [-> _]]|(files & cats & st & Hc & _ & Hg & Hcases)];
    [simpl; tauto|].
  intros Hin. exists files, cats. split; [exact Hc|]. split; [exact Hg|].
  assert (Hgen : forall e, Releases.generateReleases w (Releases.initialState w)
                             (Obj.entries cats) = (e, st) ->
                 Forall (Spec.isReleaseOf w (Obj.entries cats)) (Releases.written st)
                 /\ incl (Releases.categoriesWithReleases st) (map fst cats)).
  { intros e He.
    destruct (@generateReleases_spec w _ _ _ _ He) as (new & Hw & _ & Hall & Hcat & _).
    simpl in Hw, Hcat. rewrite Hw. split; [exact Hall|].
    intros x Hx. apply Hcat in Hx. change (In x (Obj.keys cats)) in Hx.
    apply (proj1 (@In_keys _ x cats)) in Hx. exact Hx. }
  assert (Hidx : forall st',
             Releases.generateReleases w (Releases.initialState w) (Obj.entries cats)
             = (None, st) ->
             Releases.writeCategoriesIndex w cats st = Ok st' ->
             In out (Releases.written st') ->
             Spec.isReleaseOf w (Obj.entries cats) out
             \/ exists idx names,
                 out = ("categories.json", CategoriesFile idx)
                 /\ Spec.isIndexOf w cats names idx
                 /\ incl names (map fst cats)).
  { intros st' He Hi Hin'.
    destruct (Hgen _ He) as [Hall Hnames]. rewrite Forall_forall in Hall.
    destruct (@writeCategoriesIndex_spec w _ _ _ Hi) as (_ & _ & [Hw|(idx & Hw & Hidx)]).
    + left. rewrite Hw in Hin'. apply Hall, Hin'.
    + rewrite Hw in Hin'. apply in_app_or in Hin'. destruct Hin' as [Hin'|[<-|[]]].
      * left. apply Hall, Hin'.
      * right. exists idx, (Releases.categoriesWithReleases st). auto. }
  destruct Hcases as [(e & Hm & He)|[(e & Hm & He & _)
                     |[(st' & e & He & Hi & _ & Hm)|(st' & He & Hi & _ & Hm)]]].
  - rewrite Hm in Hin. simpl in Hin. left.
    destruct (Hgen _ He) as [Hall _]. rewrite Forall_forall in Hall. apply Hall, Hin.
  - rewrite Hm in Hin. simpl in Hin. left.
    destruct (Hgen _ He) as [Hall _]. rewrite Forall_forall in Hall. apply Hall, Hin.
  - rewrite Hm in Hin. simpl in Hin. exact (Hidx _ He Hi Hin).
  - rewrite Hm in Hin. simpl in Hin. exact (Hidx _ He Hi Hin).
Qed.

(** A release file holds the complete entries of its category, cleaned
    and rearranged by the sort. *)
Lemma releases_release_file (file : string) (data : ReleaseData) :
  In (file, ReleaseFile data) (outputs (Releases.main w)) ->
  exists files sorted,
    Releases.collect w = Ok files
    /\ file = Releases.releaseFileName (category data)
    /\ ArraySort.sort (Releases.compareApps w)
         (filter (Spec.inCategory (category data)) (Spec.validEntries files)) = Ok sorted
    /\ apps data = map Releases.cleanApp sorted
    /\ count data = List.length sorted.
Proof.
  intros Hin. destruct (@releases_outputs _ Hin) as (files & cats & Hc & Hg & Hkind).
  exists files.
  destruct Hkind as [([category apps0] & sorted & Hen & Hs & Heq)|(idx & names & Heq & _)];
    [|discriminate].
  unfold Spec.releaseOutput in Heq. simpl in Heq, Hs. injection Heq as -> ->. simpl.
  exists sorted. repeat split; auto.
  pose proof (@group_grouped _ _ Hg) as [Hnd Hgr].
  apply (proj1 (@In_entries _ _ cats)) in Hen. apply (@In_get _ _ _ _ Hnd) in Hen.
  specialize (Hgr category). rewrite Hen in Hgr. destruct Hgr as [<- _]. exact Hs.
Qed.

(** An entry of the index is built from the name of a category. *)
Lemma releases_index_entry (file : string) (idx : CategoriesData) (e : CategoryData) :
  In (file, CategoriesFile idx) (outputs (Releases.main w)) ->
  In e (categories idx) ->
  exists files,
    Releases.collect w = Ok files
    /\ file = "categories.json"
    /\ slug e = Releases.categorySlug (name e)
    /\ lastUpdated e = Releases.getLastCommitTimestampForCategory w (name e)
    /\ catCount e
       = List.length (filter (Spec.inCategory (name e)) (Spec.validEntries files)).
Proof.
  intros Hin He. destruct (@releases_outputs _ Hin) as (files & cats & Hc & Hg & Hkind).
  exists files. split; [exact Hc|].
  destruct Hkind as [(entry & sorted & _ & _ & Heq)|(idx' & names & Heq & Hidx & Hnames)];
    [discriminate|].
  injection Heq as -> <-. split; [reflexivity|].
  destruct Hidx as (entries & Hm & Hs & _).
  apply sort_perm in Hs. apply (Permutation_in _ (Permutation_sym Hs)) in He.
  destruct (@mapM_In _ _ _ _ _ _ Hm He) as [category [_ Hcd]].
  unfold Releases.categoryData in Hcd.
  destruct (Obj.get category cats) as [apps0|] eqn:Ea; [|discriminate].
  injection Hcd as <-. simpl. repeat split.
  pose proof (@group_grouped _ _ Hg) as [_ Hgr].
  specialize (Hgr category). rewrite Ea in Hgr. destruct Hgr as [-> _]. reflexivity.
Qed.

End ReleasesRun.

(* ------------------------------------------------------------------ *)
(** ** Comparison by code units is a collation *)
(* ------------------------------------------------------------------ *)

Lemma ascii_compare_trans (a b c : ascii) (r : comparison) :
  r <> Eq -> Ascii.compare a b = r -> Ascii.compare b c = r \/ Ascii.compare b c = Eq ->
  Ascii.compare a c = r.
Proof.
  unfold Ascii.compare. intros Hr Hab Hbc. destruct r; [congruence| |].
  - rewrite N.compare_lt_iff in *. rewrite N.compare_eq_iff in Hbc. lia.
  - rewrite N.compare_gt_iff in *. rewrite N.compare_eq_iff in Hbc. lia.
Qed.

Lemma string_compare_trans (a : string) : forall b c,
  String.compare a b <> Gt -> String.compare b c <> Gt -> String.compare a c <> Gt.
Proof.
  induction a as [|x a IH]; intros [|y b] [|z c]; simpl; try congruence.
  destruct (Ascii.compare x y) eqn:Exy; destruct (Ascii.compare y z) eqn:Eyz;
    try congruence; intros H1 H2.
  - apply Ascii.compare_eq_iff in Exy, Eyz. subst.
    pose proof (Ascii.compare_antisym z z) as Hz.
    destruct (Ascii.compare z z); simpl in Hz; try congruence. apply IH with b; assumption.
  - apply Ascii.compare_eq_iff in Exy. subst. rewrite Eyz. congruence.
  - apply Ascii.compare_eq_iff in Eyz. subst. rewrite Exy. congruence.
  - rewrite (@ascii_compare_trans x y z Lt); auto; congruence.
Qed.

Lemma codeUnitCompare_collation : Spec.Collation Spec.codeUnitCompare.
Proof.
  split; unfold Spec.codeUnitCompare.
  - intros a b. rewrite (String.compare_antisym b a).
    destruct (String.compare a b); simpl; lia.
  - intros a b c Hab Hbc.
    pose proof (@string_compare_trans a b c) as H.
    destruct (String.compare a b); destruct (String.compare b c);
      destruct (String.compare a c); try lia; exfalso; apply H; congruence.
Qed.

(* ------------------------------------------------------------------ *)
(** ** Cleaning an entry *)
(* ------------------------------------------------------------------ *)

Lemma get_removeAll (k : string) (ks : list string) (o : props) :
  Js.includes ks k = false -> Obj.get k (Obj.removeAll ks o) = Obj.get k o.
Proof.
  intros Hk. unfold Obj.removeAll.
  induction o as [|[k0 v0] r IH]; simpl; [reflexivity|].
  destruct (String.eqb_spec k k0) as [->|Hne].
  - rewrite Hk. simpl. rewrite String.eqb_refl. reflexivity.
  - destruct (Js.includes ks k0); simpl; [exact IH|].
    destruct (String.eqb_spec k k0); [contradiction|exact IH].
Qed.

Lemma get_setIf_other (cond : bool) (k k' : string) (v : option json) (o : props) :
  k' <> k -> Obj.get k' (Releases.setIf cond k v o) = Obj.get k' o.
Proof.
  intros Hne. unfold Releases.setIf.
  destruct v as [x|]; [|reflexivity]. destruct cond; [|reflexivity].
  apply get_set_other, Hne.
Qed.

(** Cleaning an entry keeps its name. *)
Lemma cleanApp_name (app : props) :
  Obj.get "name" (Releases.cleanApp app) = Obj.get "name" app.
Proof.
  unfold Releases.cleanApp.
  rewrite !get_setIf_other by discriminate.
  rewrite get_set_other by discriminate.
  apply get_removeAll. reflexivity.
Qed.

Lemma get_removeAll_in (k : string) (ks : list string) (o : props) :
  Js.includes ks k = true -> Obj.get k (Obj.removeAll ks o) = None.
Proof.
  intros Hk. unfold Obj.removeAll.
  induction o as [|[k0 v0] r IH]; simpl; [reflexivity|].
  destruct (Js.includes ks k0) eqn:E; simpl; [exact IH|].
  destruct (String.eqb_spec k k0) as [->|Hne]; [congruence|exact IH].
Qed.



(* ================================================================== *)
(** * The claims *)
(* ================================================================== *)




(** C2, the claim as stated fails for [generate-releases.js].  In
    [Examples.histories] the one member of Games was last committed at
    1700000000 (the time stamp the consolidated script gives the category),
    but [categories.json] dates the category 1600000000, the last commit of
    [releases/category-games.json]. *)
Lemma C2_release_index_ignores_members :
  exists data c idx e,
    In ("category-all.json", CategoryAllFile data)
       (outputs (Consolidated.main Examples.histories))
    /\ In c (Catalog.categories data)
    /\ Catalog.catName c = "Games"
    /\ map Catalog.lastUpdated (Catalog.catApps c) = [1700000000]
    /\ In ("categories.json", CategoriesFile idx)
          (outputs (Releases.main Examples.histories))
    /\ In e (Release.categories idx)
    /\ Release.name e = "Games"
    /\ Release.lastUpdated e = 1600000000
    /\ Num (Release.lastUpdated e)
       <> mathMax (map Catalog.lastUpdated (Catalog.catApps c)).
Proof.
  eexists. eexists. eexists. eexists.
  split; [vm_compute; left; reflexivity|].
  split; [simpl; left; reflexivity|].
  split; [reflexivity|]. split; [reflexivity|].
  split; [vm_compute; right; left; reflexivity|].
  split; [simpl; left; reflexivity|].
  split; [reflexivity|]. split; [reflexivity|].
  vm_compute. discriminate.
Qed.

(** C2, amended.  In [category-all.json] the time stamp of a category is
    the maximum of the time stamps of its apps, each resolved from the
    history of its own metadata file: the file the app was parsed from,
    whose path the app carries as [metadataPath].  In [categories.json] the
    time stamp of a category is the one resolved for its own release file,
    [releases/category-<slug>.json]. *)
Theorem C2_category_last_updated (w : World) :
  (forall file data c,
      In (file, CategoryAllFile data) (outputs (Consolidated.main w)) ->
      In c (Catalog.categories data) ->
      exists m,
        Catalog.catLastUpdated c = Some (Num m)
        /\ In m (map Catalog.lastUpdated (Catalog.catApps c))
        /\ Forall (fun a => Catalog.lastUpdated a <= m) (Catalog.catApps c)
        /\ Forall (fun a => exists f j,
                       In f (Consolidated.collect w)
                       /\ Consolidated.content f = Parsed j
                       /\ Catalog.metadata a = Json.spread j
                       /\ Catalog.metadataPath a
                          = Js.backslashesToSlashes (Consolidated.relativePath f)
                       /\ Catalog.lastUpdated a
                          = Consolidated.getLastCommitTimestampForMetadataFile w
                              (Consolidated.relativePath f))
                  (Catalog.catApps c))
  /\ (forall file idx e,
        In (file, CategoriesFile idx) (outputs (Releases.main w)) ->
        In e (Release.categories idx) ->
        Release.lastUpdated e
        = Releases.getLastCommitTimestampForCategory w (Release.name e)).
Proof.
  split.
  - intros file data c Hin Hc.
    destruct (@main_outputs w file _ Hin) as (data' & _ & Heq & Hb).
    injection Heq as <-.
    destruct (@build_category w data c Hb Hc) as (_ & _ & Hne & Hlu & Hincl & _).
    destruct (@mathMax_spec (map Catalog.lastUpdated (Catalog.catApps c))) as (m & Hm & Hin' & Hall).
    { intros Hnil. apply map_eq_nil in Hnil. contradiction. }
    exists m. unfold Consolidated.getCategoryLastUpdated in Hlu. rewrite Hm in Hlu.
    split; [exact Hlu|]. split; [exact Hin'|]. split.
    + rewrite Forall_map in Hall. exact Hall.
    + rewrite Forall_forall. intros a Ha. apply Hincl in Ha.
      destruct (@readAllMetadataFiles_In w a Ha) as (f & j & Hf & Hj & Hmeta & Hl & Hp).
      exists f, j. auto.
  - intros file idx e Hin He.
    destruct (@releases_index_entry w file idx e Hin He) as (files & _ & _ & _ & Hl & _).
    exact Hl.
Qed.

Lemma C2_category_last_updated_witness :
  exists data c,
    In ("category-all.json", CategoryAllFile data)
       (outputs (Consolidated.main Examples.histories))
    /\ In c (Catalog.categories data)
    /\ exists m,
        Catalog.catLastUpdated c = Some (Num m)
        /\ In m (map Catalog.lastUpdated (Catalog.catApps c)).
Proof.
  eexists. eexists.
  split; [vm_compute; left; reflexivity|].
  split; [simpl; left; reflexivity|].
  destruct (proj1 (C2_category_last_updated Examples.histories) "category-all.json" _ _
              (or_introl eq_refl) (or_introl eq_refl)) as (m & H1 & H2 & _).
  exists m. auto.
Defined.

(** C3, the claim as stated fails for [generate-releases.js].  In
    [Examples.spaced] the category "Apps & Tools" gets the slug
    [apps---tools], in the index and in the name of its release file: the
    three characters between the words are replaced one by one. *)
Lemma C3_release_slug_keeps_runs :
  exists idx e data,
    In ("categories.json", CategoriesFile idx) (outputs (Releases.main Examples.spaced))
    /\ In e (Release.categories idx)
    /\ Release.name e = "Apps & Tools"
    /\ Release.slug e = "apps---tools"
    /\ In ("category-apps---tools.json", ReleaseFile data)
          (outputs (Releases.main Examples.spaced))
    /\ Spec.collapsedSlug "Apps & Tools" = "apps-tools"
    /\ Release.slug e <> Spec.collapsedSlug (Release.name e).
Proof.
  eexists. eexists. eexists.
  split; [vm_compute; right; left; reflexivity|].
  split; [simpl; left; reflexivity|].
  split; [reflexivity|]. split; [reflexivity|].
  split; [vm_compute; left; reflexivity|].
  split; [reflexivity|].
  vm_compute. discriminate.
Qed.

(** C3, amended.  In [category-all.json] the slug of a category is its name
    lowercased with every maximal run of non-alphanumeric characters
    replaced by a single hyphen.  In the output of [generate-releases.js]
    (the index and the names of the release files) it is the name lowercased
    with every non-alphanumeric character replaced by a hyphen of its own.
    (The runs of a string partition it into non-empty pieces of one kind,
    neighbours being of different kinds.) *)
Theorem C3_slug_written (w : World) :
  (forall file data c,
      In (file, CategoryAllFile data) (outputs (Consolidated.main w)) ->
      In c (Catalog.categories data) ->
      Catalog.catSlug c = Spec.collapsedSlug (Catalog.catName c))
  /\ (forall file idx e,
        In (file, CategoriesFile idx) (outputs (Releases.main w)) ->
        In e (Release.categories idx) ->
        Release.slug e = Spec.charwiseSlug (Release.name e))
  /\ (forall file data,
        In (file, ReleaseFile data) (outputs (Releases.main w)) ->
        file = "category-" ++ Spec.charwiseSlug (Release.category data) ++ ".json")
  /\ (forall s,
        Spec.concatAll (map snd (Spec.runs s)) = s
        /\ Forall Spec.isRun (Spec.runs s)
        /\ Spec.alternating (Spec.runs s)).
Proof.
  split; [|split; [|split]].
  - intros file data c Hin Hc.
    destruct (@main_outputs w file _ Hin) as (data' & _ & Heq & Hb).
    injection Heq as <-.
    destruct (@build_category w data c Hb Hc) as (Hslug & _).
    rewrite Hslug. unfold Consolidated.categorySlug, Spec.collapsedSlug.
    apply replaceRuns_collapses.
  - intros file idx e Hin He.
    destruct (@releases_index_entry w file idx e Hin He) as (files & _ & _ & Hs & _).
    rewrite Hs. unfold Releases.categorySlug, Spec.charwiseSlug.
    rewrite replaceEach_charwise. reflexivity.
  - intros file data Hin.
    destruct (@releases_release_file w file data Hin) as (files & sorted & _ & Hf & _).
    rewrite Hf. unfold Releases.releaseFileName, Releases.categorySlug, Spec.charwiseSlug.
    rewrite replaceEach_charwise. reflexivity.
  - intros s. split; [apply runs_concat|]. split; [apply runs_are_runs|apply runs_alternating].
Qed.

Lemma C3_slug_written_witness :
  exists data c,
    In ("category-all.json", CategoryAllFile data)
       (outputs (Consolidated.main Examples.spaced))
    /\ In c (Catalog.categories data)
    /\ Catalog.catSlug c = Spec.collapsedSlug (Catalog.catName c).
Proof.
  eexists. eexists.
  split; [vm_compute; left; reflexivity|].
  split; [simpl; left; reflexivity|].
  exact (proj1 (C3_slug_written Examples.spaced) "category-all.json" _ _
           (or_introl eq_refl) (or_introl eq_refl)).
Defined.

(* ------------------------------------------------------------------ *)
(** ** The time stamp resolvers *)
(* ------------------------------------------------------------------ *)

Lemma truthy_string_iff (s : string) : Js.truthy_string s = true <-> s <> "".
Proof. destruct s; simpl; split; congruence. Qed.

Lemma hasUncommittedChanges_iff (w : World) (filePath : string) :
  Releases.hasUncommittedChanges w filePath = true <-> Spec.uncommitted w filePath.
Proof.
  unfold Releases.hasUncommittedChanges, Spec.uncommitted. split.
  - destruct (execSync w (gitStatus filePath)) as [|out]; [discriminate|].
    intros H. exists out. split; [reflexivity|]. apply truthy_string_iff, H.
  - intros [out [-> H]]. apply truthy_string_iff, H.
Qed.

Lemma timestampOfLog_history (w : World) (filePath : string) (now : Z) :
  Spec.followsHistory w filePath now (timestampOfLog (execSync w (gitLog filePath)) now).
Proof.
  unfold Spec.followsHistory, Spec.lastCommit, timestampOfLog. split.
  - intros t [out [-> [Hne [Hp Hv]]]].
    apply truthy_string_iff in Hne. rewrite Hne, Hp, Hv. reflexivity.
  - intros Hnone. destruct (execSync w (gitLog filePath)) as [|out]; [reflexivity|].
    destruct (Js.truthy_string (Js.trim out)) eqn:Et; [|reflexivity].
    destruct (Js.parseInt (Js.trim out)) as [t|] eqn:Ep; [|reflexivity].
    destruct (Js.validTimeValue (t * 1000)) eqn:Ev; [|reflexivity].
    exfalso. apply (Hnone t). exists out. repeat split; auto.
    apply truthy_string_iff, Et.
Qed.

(** C5, the claim as stated fails for [generate-category-all.json.js], whose
    resolver never asks [git status].  In [Examples.modified] the metadata
    file is modified in the working tree; the resolver returns the time
    stamp of its last commit, not the clock reading. *)
Lemma C5_consolidated_ignores_uncommitted :
  Spec.uncommitted Examples.modified Examples.modifiedFile
  /\ Consolidated.getLastCommitTimestampForMetadataFile Examples.modified
       Examples.modifiedFile = 1700000000
  /\ dateNow Examples.modified Examples.modifiedFile = 1800000000
  /\ ~ Spec.followsChain Examples.modified Examples.modifiedFile
         (dateNow Examples.modified Examples.modifiedFile)
         (Consolidated.getLastCommitTimestampForMetadataFile Examples.modified
            Examples.modifiedFile).
Proof.
  assert (Hu : Spec.uncommitted Examples.modified Examples.modifiedFile).
  { eexists. split; [vm_compute; reflexivity|]. vm_compute. discriminate. }
  split; [exact Hu|]. split; [vm_compute; reflexivity|]. split; [reflexivity|].
  intros [H _]. specialize (H Hu). vm_compute in H. discriminate.
Qed.

(** C5, amended.  The resolver of [generate-releases.js] follows the chain:
    the clock when the release file of the category shows in [git status];
    otherwise the time stamp of its last commit when [git log] prints one;
    otherwise (no history, or a command that fails or prints something that
    is no time stamp) the clock.  The resolver of
    [generate-category-all.json.js] has no first step: it returns the time
    stamp of the last commit of the metadata file when there is one, and
    the clock otherwise.  Both are total: they return for every answer of
    git. *)
Theorem C5_fallback_chain (w : World) :
  (forall category,
      Spec.followsChain w (Releases.categoryFilePath category) (dateNow w category)
        (Releases.getLastCommitTimestampForCategory w category))
  /\ (forall filePath,
        Spec.followsHistory w filePath (dateNow w filePath)
          (Consolidated.getLastCommitTimestampForMetadataFile w filePath)).
Proof.
  split.
  - intros category. unfold Releases.getLastCommitTimestampForCategory.
    pose proof (hasUncommittedChanges_iff w (Releases.categoryFilePath category)) as Hu.
    pose proof (timestampOfLog_history w (Releases.categoryFilePath category)
                  (dateNow w category)) as [Hh1 Hh2].
    destruct (Releases.hasUncommittedChanges w (Releases.categoryFilePath category)).
    + repeat split; auto; intros Hn; exfalso; apply Hn, Hu; reflexivity.
    + repeat split; auto. intros H. apply Hu in H. discriminate.
  - intros filePath. apply timestampOfLog_history.
Qed.

Lemma C5_fallback_chain_witness :
  Spec.followsHistory Examples.modified Examples.modifiedFile
    (dateNow Examples.modified Examples.modifiedFile)
    (Consolidated.getLastCommitTimestampForMetadataFile Examples.modified
       Examples.modifiedFile).
Proof. exact (proj2 (C5_fallback_chain Examples.modified) Examples.modifiedFile). Defined.

(* ------------------------------------------------------------------ *)
(** ** Order of the output *)
(* ------------------------------------------------------------------ *)

Lemma StronglySorted_map (A B : Type) (f : A -> B) (R : B -> B -> Prop) (l : list A) :
  StronglySorted (fun a b => R (f a) (f b)) l -> StronglySorted R (map f l).
Proof.
  induction 1 as [|a l Hs IH Hall]; simpl; constructor; [exact IH|].
  rewrite Forall_map. exact Hall.
Qed.

Lemma appsSorted_clean (w : World) (sorted : list props) :
  Spec.appsSorted w sorted -> Spec.appsSorted w (map Releases.cleanApp sorted).
Proof.
  intros H. apply StronglySorted_map. unfold Spec.sortName.
  eapply StronglySorted_ind with (P := fun l => StronglySorted _ l); [constructor| |exact H].
  intros a l Hs IH Hall. constructor; [exact IH|].
  eapply Forall_impl; [|exact Hall]. intros b Hb. rewrite !cleanApp_name. exact Hb.
Qed.

(** C7.  When [localeCompare] is a collation (a total preorder), every
    file a run writes is in order: the categories of [category-all.json] by
    name and the apps of each by name; the apps of every release file by
    name; the categories of [categories.json] by name. *)
Theorem C7_sorted_by_name (w : World) (collation : Spec.Collation (localeCompare w)) :
  (forall file data,
      In (file, CategoryAllFile data) (outputs (Consolidated.main w)) ->
      StronglySorted (fun a b => Spec.notAfter w (Catalog.catName a) (Catalog.catName b))
        (Catalog.categories data)
      /\ forall c, In c (Catalog.categories data) ->
                   Spec.catalogAppsSorted w (Catalog.catApps c))
  /\ (forall file data,
        In (file, ReleaseFile data) (outputs (Releases.main w)) ->
        Spec.appsSorted w (Release.apps data))
  /\ (forall file idx,
        In (file, CategoriesFile idx) (outputs (Releases.main w)) ->
        StronglySorted (fun a b => Spec.notAfter w (Release.name a) (Release.name b))
          (Release.categories idx)).
Proof.
  split; [|split].
  - intros file data Hin.
    destruct (@main_outputs w file _ Hin) as (data' & _ & Heq & Hb).
    injection Heq as <-. split.
    + apply build_sorted; assumption.
    + intros c Hc. destruct (@build_category w data c Hb Hc) as (_ & _ & _ & _ & _ & Hs).
      apply Hs, collation.
  - intros file data Hin.
    destruct (@releases_release_file w file data Hin) as (files & sorted & _ & _ & Hs & Ha & _).
    rewrite Ha. apply appsSorted_clean.
    exact (@sort_by_name w collation props (fun a => Obj.get "name" a) _ _ Hs).
  - intros file idx Hin.
    destruct (@releases_outputs w _ Hin) as (files & cats & _ & _ & Hkind).
    destruct Hkind as [(entry & sorted & _ & _ & Heq)|(idx' & names & Heq & Hidx & _)];
      [discriminate|].
    injection Heq as _ <-. destruct Hidx as (entries & _ & Hs & _).
    exact (@sort_by_name w collation Release.CategoryData
             (fun c => Some (JStr (Release.name c))) _ _ Hs).
Qed.

Lemma C7_sorted_by_name_witness :
  Spec.Collation (localeCompare Examples.catalog)
  /\ exists data,
      In ("category-games.json", ReleaseFile data) (outputs (Releases.main Examples.catalog))
      /\ map Spec.sortName (Release.apps data) = ["Alpha"; "Beta"]
      /\ Spec.appsSorted Examples.catalog (Release.apps data).
Proof.
  split; [exact codeUnitCompare_collation|].
  eexists. split; [vm_compute; left; reflexivity|]. split; [reflexivity|].
  exact (proj1 (proj2 (C7_sorted_by_name Examples.catalog codeUnitCompare_collation))
           "category-games.json" _ (or_introl eq_refl)).
Defined.

(* ------------------------------------------------------------------ *)
(** ** How a run ends *)
(* ------------------------------------------------------------------ *)

Lemma filterApp_total (app : props) :
  Spec.wellTypedEntry app -> Releases.filterApp app = Ok (Releases.cleanApp app).
Proof.
  intros ([n Hn] & _ & _ & [o Ho] & [r Hr]). unfold Releases.filterApp.
  rewrite Ho, Hr, Hn. reflexivity.
Qed.

Lemma mapM_filterApp_total (apps : list props) :
  Forall Spec.wellTypedEntry apps ->
  Releases.mapM Releases.filterApp apps = Ok (map Releases.cleanApp apps).
Proof.
  induction 1 as [|app r Ha Hr IH]; simpl; [reflexivity|].
  rewrite (filterApp_total Ha), IH. reflexivity.
Qed.

Lemma generateReleases_total (w : World) entries : forall st,
  Forall (fun entry : string * list props => Forall Spec.wellTypedEntry (snd entry)) entries ->
  fst (Releases.generateReleases w st entries) = None.
Proof.
  induction entries as [|[category apps] r IH]; simpl; intros st Hall; [reflexivity|].
  inversion Hall as [|? ? Ha Hr]; subst. simpl in Ha.
  destruct (@sort_by_name_total w props (fun a => Obj.get "name" a) apps) as [sorted Hs].
  { eapply Forall_impl; [|exact Ha]. intros a Hwt. exact (proj1 Hwt). }
  unfold Releases.generateRelease, Releases.compareApps. rewrite Hs. cbn [bind].
  rewrite mapM_filterApp_total.
  - cbn [bind]. unfold writeFileSync. destruct (writable w _); apply IH, Hr.
  - eapply Permutation_Forall; [exact (sort_perm _ _ Hs)|exact Ha].
Qed.

(** The ending of [main] in [generate-releases.js]: the index block never
    throws, so only the first log line, the collector, the grouping, the
    creation of [releases/], the sorts and the slugs of the loop, and the
    listing of [releases/] decide. *)
Lemma releases_ending (w : World) :
  ending (Releases.main w)
  = match Releases.joinValidCategories (Releases.loadValidCategories w) with
    | Throw e => Thrown e
    | Ok _ =>
        match Releases.collect w with
        | Throw e => Thrown e
        | Ok [] => Returned
        | Ok metadataFiles =>
            match Releases.groupByCategory [] metadataFiles with
            | Throw e => Thrown e
            | Ok cats =>
                match Releases.mkdirSync w with
                | Throw e => Thrown e
                | Ok _ =>
                    match fst (Releases.generateReleases w (Releases.initialState w)
                                 (Obj.entries cats)) with
                    | Some e => Thrown e
                    | None =>
                        if canList w then Returned else Thrown (IOError "EACCES")
                    end
                end
            end
        end
    end.
Proof.
  unfold Releases.main.
  destruct (Releases.joinValidCategories _) as [s|e]; [|reflexivity].
  destruct (Releases.collect w) as [[|f files]|e]; try reflexivity.
  destruct (Releases.groupByCategory [] (f :: files)) as [cats|e]; [|reflexivity].
  destruct (Releases.mkdirSync w) as [[]|e]; [|reflexivity].
  destruct (Releases.generateReleases w (Releases.initialState w) (Obj.entries cats))
    as [[e|] st] eqn:Egen; [reflexivity|]. simpl.
  destruct (@generateReleases_spec w _ _ _ _ Egen) as (_ & _ & _ & _ & Hcat & _).
  destruct (@writeCategoriesIndex_total w cats st) as [st' ->].
  - intros x Hx. apply Hcat in Hx. simpl in Hx.
    apply (proj1 (@In_keys _ x cats)) in Hx. exact Hx.
  - unfold Releases.cleanUp. destruct (canList w); reflexivity.
Qed.

Lemma grouped_names (files : list (string * FileRead)) cats category apps :
  Releases.groupByCategory [] files = Ok cats -> In (category, apps) cats ->
  apps = filter (Spec.inCategory category) (Spec.validEntries files) /\ apps <> [].
Proof.
  intros Hg Hin. pose proof (@group_grouped _ _ Hg) as [Hnd Hgr].
  apply (@In_get _ _ _ _ Hnd) in Hin. specialize (Hgr category).
  rewrite Hin in Hgr. exact Hgr.
Qed.

(** C8, the claim as stated fails: file contents that parse can end either
    script with an exception before anything is written.  A category that
    is a number has no [toLowerCase] ([Examples.numericCategory], the
    consolidated script); two names of one category that are numbers have no
    [localeCompare] ([Examples.numericNames], the release script, whose
    validation both entries pass). *)
Lemma C8_well_formed_json_can_abort :
  (ending (Consolidated.main Examples.numericCategory)
   = Thrown (TypeError "categoryName.toLowerCase is not a function")
   /\ outputs (Consolidated.main Examples.numericCategory) = []
   /\ exitStatus (Consolidated.main Examples.numericCategory) = 1)
  /\ (ending (Releases.main Examples.numericNames)
      = Thrown (TypeError "a.name.localeCompare is not a function")
      /\ outputs (Releases.main Examples.numericNames) = []
      /\ exitStatus (Releases.main Examples.numericNames) = 1
      /\ exists files,
          Releases.collect Examples.numericNames = Ok files
          /\ List.length (Spec.validEntries files) = 2%nat).
Proof.
  split; [repeat split; vm_compute; reflexivity|].
  split; [vm_compute; reflexivity|]. split; [vm_compute; reflexivity|].
  split; [vm_compute; reflexivity|].
  eexists. split; vm_compute; reflexivity.
Qed.

(** C8, amended.  A metadata file that cannot be read or parsed, and in
    [generate-releases.js] one whose content is not an object with the
    required fields, is skipped with a warning and puts no condition on the
    run.  [generate-releases.js] returns normally whenever its first log
    line can join the valid categories, the collector can list every
    directory it searches, [releases/] exists or can be created and can be
    listed, and the entries that are loaded have a string for a name, a
    category, an owner and a repo that can be converted to strings, and a
    category key that is no property of [Object.prototype].  No exception
    escapes [generate-category-all.json.js] whenever the apps it reads have
    a string for a name and a category that is missing, falsy or a string
    that is no property of [Object.prototype]. *)
Theorem C8_skipped_files_do_not_abort (w : World) :
  (forall filePath content,
      ~ Spec.complete content ->
      exists warning, Releases.loadMetadata filePath content = Releases.Skipped warning)
  /\ (forall f,
        Consolidated.content f = Unreadable \/ Consolidated.content f = Malformed ->
        exists warning, Consolidated.readMetadataFile w f = (None, Some warning))
  /\ (forall s files,
        Releases.joinValidCategories (Releases.loadValidCategories w) = Ok s ->
        Releases.collect w = Ok files ->
        Releases.mkdirSync w = Ok tt ->
        canList w = true ->
        Forall Spec.wellTypedEntry (Spec.validEntries files) ->
        ending (Releases.main w) = Returned)
  /\ (Forall Spec.wellTyped (Consolidated.readAllMetadataFiles w) ->
      forall e, ending (Consolidated.main w) <> Thrown e).
Proof.
  split; [|split; [|split]].
  - intros p c. apply loadMetadata_incomplete.
  - intros f [H|H]; unfold Consolidated.readMetadataFile; rewrite H; eauto.
  - intros s files Hj Hc Hmk Hls Hall. rewrite releases_ending, Hj, Hc.
    destruct files as [|f files]; [reflexivity|].
    destruct (@groupByCategory_total (f :: files) [] Hall) as [cats Hg].
    rewrite Hg, Hmk, Hls.
    rewrite generateReleases_total; [reflexivity|].
    rewrite Forall_forall. intros [category apps] Hin. simpl.
    apply (proj1 (@In_entries _ _ cats)) in Hin.
    destruct (@grouped_names _ _ _ _ Hg Hin) as [-> _].
    rewrite Forall_forall. intros m Hm. apply filter_In in Hm. destruct Hm as [Hm _].
    rewrite Forall_forall in Hall. apply Hall, Hm.
  - intros Hall e. destruct (@build_total w Hall) as [r Hr].
    unfold Consolidated.main. rewrite Hr. destruct r as [data|]; simpl; [|discriminate].
    destruct (writeFileSync _ _ _ _); simpl; discriminate.
Qed.

Lemma C8_skipped_files_do_not_abort_witness :
  (exists warning,
      Releases.loadMetadata "repositories/owner/repo/draft/metadata.json" Malformed
      = Releases.Skipped warning)
  /\ ending (Releases.main Examples.catalog) = Returned.
Proof.
  split.
  - apply (proj1 (C8_skipped_files_do_not_abort Examples.catalog)).
    intros [fields [Heq _]]. discriminate.
  - eapply (proj1 (proj2 (proj2 (C8_skipped_files_do_not_abort Examples.catalog)))).
    + vm_compute. reflexivity.
    + vm_compute. reflexivity.
    + reflexivity.
    + reflexivity.
    + repeat constructor; try (eexists; reflexivity).
Defined.

(** C6, the claim as stated fails: the exit status is also 1 when an
    exception escapes [main].  In [Examples.numericCategory] the directory
    [releases/] exists and [category-all.json] could be written, yet the
    consolidated script exits with status 1. *)
Lemma C6_exit_one_without_write_failure :
  exitStatus (Consolidated.main Examples.numericCategory) = 1
  /\ (forall data, exists d,
         writeFileSync Examples.numericCategory (releases Examples.numericCategory)
           "category-all.json" data = Ok d).
Proof.
  split; [vm_compute; reflexivity|].
  intros data. eexists. reflexivity.
Qed.

(** C6, amended.  The exit status is 0 when [main] returns and 1
    otherwise.  The consolidated script exits with 1 exactly when an
    exception escapes the aggregation or [category-all.json] cannot be
    written.  The release script exits with 1 exactly when an exception
    escapes [main]; whether a release file, the index or a removal fails
    changes nothing in its exit status (which the metadata files, the
    valid categories, the collation and whether [releases/] can be created
    and listed decide), and in a run that returns every category whose
    release file can be written has it written, whatever happened to the
    others. *)
Theorem C6_exit_status (w : World) :
  (exitStatus (Consolidated.main w) = 1 <->
     (exists e, Consolidated.build w = Throw e)
     \/ (exists data e,
            Consolidated.build w = Ok (Some data)
            /\ writeFileSync w (releases w) "category-all.json" (CategoryAllFile data)
               = Throw e))
  /\ (exitStatus (Consolidated.main w) = 0 \/ exitStatus (Consolidated.main w) = 1)
  /\ (exitStatus (Releases.main w) = 1 <-> exists e, ending (Releases.main w) = Thrown e)
  /\ (exitStatus (Releases.main w) = 0 \/ exitStatus (Releases.main w) = 1)
  /\ (forall w',
        localeCompare w' = localeCompare w -> repositories w' = repositories w ->
        checkout w' = checkout w -> categoriesJson w' = categoriesJson w ->
        Releases.mkdirSync w' = Releases.mkdirSync w -> canList w' = canList w ->
        exitStatus (Releases.main w') = exitStatus (Releases.main w))
  /\ (ending (Releases.main w) = Returned ->
      forall files cats category apps,
        Releases.collect w = Ok files ->
        Releases.groupByCategory [] files = Ok cats ->
        In (category, apps) cats ->
        writable w (Releases.releaseFileName category) = true ->
        In (Releases.releaseFileName category) (map fst (outputs (Releases.main w)))).
Proof.
  assert (Hcons : forall r, exitStatus (Consolidated.main w) = r ->
                            (r = 1 <-> (exists e, Consolidated.build w = Throw e)
                                       \/ (exists data e,
                                              Consolidated.build w = Ok (Some data)
                                              /\ writeFileSync w (releases w) "category-all.json"
                                                   (CategoryAllFile data) = Throw e))
                            /\ (r = 0 \/ r = 1)).
  { intros r <-. unfold Consolidated.main.
    destruct (Consolidated.build w) as [[data|]|e] eqn:Eb; simpl.
    - destruct (writeFileSync w (releases w) "category-all.json" (CategoryAllFile data))
        as [d|e] eqn:Ew; simpl.
      + split; [|auto]. split; [discriminate|].
        intros [[e H]|(data' & e & H1 & H2)]; [discriminate|].
        injection H1 as <-. congruence.
      + split; [|auto]. split; [|reflexivity]. intros _. right. eauto.
    - split; [|auto]. split; [discriminate|].
      intros [[e H]|(data' & e & H1 & H2)]; discriminate.
    - split; [|auto]. split; [|reflexivity]. intros _. left. eauto. }
  assert (Hrel : forall c, ending (Releases.main w) = c ->
                           (exists e, c = Thrown e) \/ c = Returned).
  { intros c <-. rewrite releases_ending.
    destruct (Releases.joinValidCategories _); [|eauto].
    destruct (Releases.collect w) as [[|f files]|e]; eauto.
    destruct (Releases.groupByCategory _ _); [|eauto].
    destruct (Releases.mkdirSync w); [|eauto].
    destruct (fst _); [eauto|]. destruct (canList w); eauto. }
  destruct (Hcons _ eq_refl) as [H1 H2].
  split; [exact H1|]. split; [exact H2|].
  split; [|split; [|split]].
  - unfold exitStatus. destruct (Hrel _ eq_refl) as [[e ->]| ->]; simpl.
    + split; eauto.
    + split; [discriminate|]. intros [e H]. discriminate.
  - unfold exitStatus. destruct (Hrel _ eq_refl) as [[e ->]| ->]; simpl; auto.
  - intros w' Hlc Hrepo Hco Hcj Hmk Hls. unfold exitStatus. rewrite !releases_ending.
    rewrite Hmk, Hls.
    unfold Releases.loadValidCategories, Releases.collect, Releases.repositoriesDir.
    rewrite Hrepo, Hco, Hcj.
    destruct (Releases.joinValidCategories _); [|reflexivity].
    destruct (match repositories w with Some root => _ | None => _ end)
      as [[|f files]|e]; try reflexivity.
    destruct (Releases.groupByCategory _ _) as [cats|e]; [|reflexivity].
    rewrite (@generateReleases_ending w' w (Obj.entries cats) (Releases.initialState w')
               (Releases.initialState w) Hlc).
    reflexivity.
  - intros Hret files cats category apps Hc Hg Hin Hwr.
    destruct (releases_main_inv w) as [[c [Hm Hcol]]|(files' & cats' & st & Hc' & _ & Hg' & Hcases)].
    + rewrite Hm in Hret. simpl in Hret. specialize (Hcol Hret).
      rewrite Hcol in Hc. injection Hc as <-. simpl in Hg. injection Hg as <-.
      destruct Hin.
    + rewrite Hc in Hc'. injection Hc' as <-. rewrite Hg in Hg'. injection Hg' as <-.
      destruct Hcases as [(e & Hm & _)|[(e & Hm & _)
                         |[(st' & e & _ & _ & _ & Hm)|(st' & Hgen & Hi & _ & Hm)]]];
        try (rewrite Hm in Hret; discriminate).
      rewrite Hm. simpl.
      destruct (@generateReleases_spec w _ _ _ _ Hgen) as (new & Hw & _ & _ & _ & _ & Hcont).
      simpl in Hw.
      assert (Hnew : In (Releases.releaseFileName category) (map fst new)).
      { apply (Hcont eq_refl (category, apps)); [|exact Hwr].
        apply In_entries. exact Hin. }
      destruct (@writeCategoriesIndex_spec w _ _ _ Hi) as (_ & _ & [Hw'|(idx & Hw' & _)]);
        rewrite Hw', Hw; [exact Hnew|].
      rewrite map_app. apply in_or_app. left. exact Hnew.
Qed.

Lemma C6_exit_status_witness :
  exitStatus (Releases.main Examples.readOnlyGames) = exitStatus (Releases.main Examples.catalog)
  /\ exitStatus (Releases.main Examples.readOnlyGames) = 0
  /\ map fst (outputs (Releases.main Examples.readOnlyGames))
     = ["category-utilities.json"; "categories.json"].
Proof.
  split; [|split; vm_compute; reflexivity].
  apply (proj1 (proj2 (proj2 (proj2 (proj2 (C6_exit_status Examples.catalog))))));
    reflexivity.
Defined.

(* ------------------------------------------------------------------ *)
(** ** Clean-up and the early return *)
(* ------------------------------------------------------------------ *)









(** C10, the claim as stated fails for [generate-releases.js], whose
    first log line joins the valid categories before the collector is
    called.  In [Examples.emptyCheckoutWrapped] there is no [repositories/]
    and [categories.json] holds an object: the run ends with an exception
    and the exit status is 1. *)
Lemma C10_release_script_can_exit_one :
  repositories Examples.emptyCheckoutWrapped = None
  /\ Releases.collect Examples.emptyCheckoutWrapped = Ok []
  /\ ending (Releases.main Examples.emptyCheckoutWrapped)
     = Thrown (TypeError "validCategories.join is not a function")
  /\ exitStatus (Releases.main Examples.emptyCheckoutWrapped) = 1
  /\ exitStatus (Consolidated.main Examples.emptyCheckoutWrapped) = 0.
Proof.
  repeat split; vm_compute; reflexivity.
Qed.

(** C10, amended.  When the collector finds no [metadata.json] (in
    particular when [repositories/] does not exist), each script returns
    early: the exit status is 0, nothing is written, nothing is removed and
    [releases/] is as it was.  For [generate-releases.js] this holds when
    its first log line, which joins the valid categories, does not throw:
    [categories.json] cannot be loaded, or holds an array whose elements
    can be converted to strings.  When that line throws, nothing is written
    or removed either, but the exit status is 1. *)
Theorem C10_nothing_found_nothing_done (w : World) :
  (Consolidated.collect w = [] ->
   Consolidated.main w
   = {| ending := Returned; releasesAfter := releases w; outputs := []; removals := [] |}
   /\ exitStatus (Consolidated.main w) = 0)
  /\ (forall s,
        Releases.joinValidCategories (Releases.loadValidCategories w) = Ok s ->
        Releases.collect w = Ok [] ->
        Releases.main w
        = {| ending := Returned; releasesAfter := releases w; outputs := []; removals := [] |}
        /\ exitStatus (Releases.main w) = 0)
  /\ (repositories w = None ->
      Consolidated.collect w = [] /\ Releases.collect w = Ok [])
  /\ (forall e,
        Releases.joinValidCategories (Releases.loadValidCategories w) = Throw e ->
        Releases.main w
        = {| ending := Thrown e; releasesAfter := releases w; outputs := []; removals := [] |}
        /\ exitStatus (Releases.main w) = 1).
Proof.
  split; [|split; [|split]].
  - intros Hc. unfold Consolidated.main, Consolidated.build, Consolidated.readAllMetadataFiles.
    rewrite Hc. simpl. split; reflexivity.
  - intros s Hj Hc. unfold Releases.main. rewrite Hj, Hc. split; reflexivity.
  - intros Hr. unfold Consolidated.collect, Releases.collect. rewrite Hr. split; reflexivity.
  - intros e Hj. unfold exitStatus, Releases.main. rewrite Hj. split; reflexivity.
Qed.

Lemma C10_nothing_found_nothing_done_witness :
  Consolidated.collect Examples.emptyCheckout = []
  /\ Consolidated.main Examples.emptyCheckout
     = {| ending := Returned;
          releasesAfter := releases Examples.emptyCheckout;
          outputs := [];
          removals := [] |}
  /\ exitStatus (Releases.main Examples.emptyCheckout) = 0.
Proof.
  split; [reflexivity|]. split.
  - apply (proj1 (C10_nothing_found_nothing_done Examples.emptyCheckout)). reflexivity.
  - eapply (proj1 (proj2 (C10_nothing_found_nothing_done Examples.emptyCheckout)));
      reflexivity.
Defined.

(* ================================================================== *)
(** * Further properties of the two scripts *)
(* ================================================================== *)

(* ------------------------------------------------------------------ *)
(** ** The collectors *)
(* ------------------------------------------------------------------ *)

Lemma fsnode_nested_ind (P : fsnode -> Prop)
      (Hfile : forall c, P (FileNode c))
      (Hlocked : P LockedDir)
      (Hdir : forall items, Forall (fun e => P (snd e)) items -> P (DirNode items))
      (Hbroken : P (LinkNode None))
      (Hlink : forall target, P target -> P (LinkNode (Some target))) :
  forall node, P node.
Proof.
  fix IH 1. intros [c|items| |[target|]].
  - apply Hfile.
  - apply Hdir. induction items as [|[name child] r IHr]; constructor.
    + apply IH.
    + exact IHr.
  - apply Hlocked.
  - apply Hlink, IH.
  - apply Hbroken.
Qed.

(** The equations of the three recursions over a directory. *)

Lemma findMetadataFiles_file name c r dir :
  Releases.findMetadataFiles (DirNode ((name, FileNode c) :: r)) dir
  = (rest <- Releases.findMetadataFiles (DirNode r) dir ;;
     Ok (if String.eqb name "metadata.json" then (pathJoin dir name, c) :: rest else rest)).
Proof. reflexivity. Qed.

Lemma findMetadataFiles_dir name items r dir :
  Releases.findMetadataFiles (DirNode ((name, DirNode items) :: r)) dir
  = (sub <- Releases.findMetadataFiles (DirNode items) (pathJoin dir name) ;;
     rest <- Releases.findMetadataFiles (DirNode r) dir ;;
     Ok (sub ++ rest)%list).
Proof. reflexivity. Qed.

Lemma findMetadataFiles_locked name r dir :
  Releases.findMetadataFiles (DirNode ((name, LockedDir) :: r)) dir
  = Throw (IOError "EACCES").
Proof. reflexivity. Qed.

Lemma findMetadataFiles_link name target r dir :
  Releases.findMetadataFiles (DirNode ((name, LinkNode target) :: r)) dir
  = (rest <- Releases.findMetadataFiles (DirNode r) dir ;;
     Ok (if String.eqb name "metadata.json"
         then (pathJoin dir name, readThrough (LinkNode target)) :: rest else rest)).
Proof. reflexivity. Qed.

Lemma findAllMetadataFiles_cons name child r base :
  Consolidated.findAllMetadataFiles (DirNode ((name, child) :: r)) base
  = match follow child with
    | None => []
    | Some (FileNode c) =>
        if String.eqb name "metadata.json"
        then {| Consolidated.relativePath := pathJoin base name;
                Consolidated.directoryPath := base;
                Consolidated.content := c |}
             :: Consolidated.findAllMetadataFiles (DirNode r) base
        else Consolidated.findAllMetadataFiles (DirNode r) base
    | Some _ =>
        (Consolidated.findAllMetadataFiles child (pathJoin base name)
           ++ Consolidated.findAllMetadataFiles (DirNode r) base)%list
    end.
Proof. reflexivity. Qed.

Lemma findAllMetadataFiles_file name c r base :
  Consolidated.findAllMetadataFiles (DirNode ((name, FileNode c) :: r)) base
  = if String.eqb name "metadata.json"
    then {| Consolidated.relativePath := pathJoin base name;
            Consolidated.directoryPath := base;
            Consolidated.content := c |}
         :: Consolidated.findAllMetadataFiles (DirNode r) base
    else Consolidated.findAllMetadataFiles (DirNode r) base.
Proof. reflexivity. Qed.

Lemma findAllMetadataFiles_dir name items r base :
  Consolidated.findAllMetadataFiles (DirNode ((name, DirNode items) :: r)) base
  = (Consolidated.findAllMetadataFiles (DirNode items) (pathJoin base name)
       ++ Consolidated.findAllMetadataFiles (DirNode r) base)%list.
Proof. reflexivity. Qed.

Lemma findAllMetadataFiles_locked name r base :
  Consolidated.findAllMetadataFiles (DirNode ((name, LockedDir) :: r)) base
  = Consolidated.findAllMetadataFiles (DirNode r) base.
Proof. reflexivity. Qed.

Lemma listable_file name c r :
  Further.listable (DirNode ((name, FileNode c) :: r)) = Further.listable (DirNode r).
Proof. reflexivity. Qed.

Lemma listable_dir name items r :
  Further.listable (DirNode ((name, DirNode items) :: r))
  = Further.listable (DirNode items) && Further.listable (DirNode r).
Proof. reflexivity. Qed.

Lemma listable_locked name r :
  Further.listable (DirNode ((name, LockedDir) :: r)) = false.
Proof. reflexivity. Qed.

Lemma listable_link name target r :
  Further.listable (DirNode ((name, LinkNode target) :: r)) = Further.listable (DirNode r).
Proof. reflexivity. Qed.

Lemma linkFree_cons name child r :
  Further.linkFree (DirNode ((name, child) :: r))
  = Further.linkFree child && Further.linkFree (DirNode r).
Proof. reflexivity. Qed.

Lemma findMetadataFiles_listable (node : fsnode) (dir : string) :
  (exists files, Releases.findMetadataFiles node dir = Ok files)
  <-> Further.listable node = true.
Proof.
  revert dir.
  induction node as [c| |items IH| |target IH] using fsnode_nested_ind; intros dir.
  - simpl. split; [intros [f H]; discriminate|discriminate].
  - simpl. split; [intros [f H]; discriminate|discriminate].
  - induction items as [|[name child] r IHr].
    + simpl. split; eauto.
    + inversion IH as [|? ? Hc Hr]; subst. simpl in Hc. specialize (IHr Hr).
      destruct child as [c|items'| |target].
      * rewrite findMetadataFiles_file, listable_file, <- IHr. split.
        -- intros [files H].
           destruct (Releases.findMetadataFiles (DirNode r) dir); [eauto|discriminate].
        -- intros [rest ->]. simpl. eauto.
      * rewrite findMetadataFiles_dir, listable_dir, andb_true_iff, <- IHr,
          <- (Hc (pathJoin dir name)). split.
        -- intros [files H].
           destruct (Releases.findMetadataFiles (DirNode items') _); [|discriminate].
           destruct (Releases.findMetadataFiles (DirNode r) dir); [eauto|discriminate].
        -- intros [[sub ->] [rest ->]]. simpl. eauto.
      * rewrite findMetadataFiles_locked, listable_locked.
        split; [intros [f H]; discriminate|discriminate].
      * rewrite findMetadataFiles_link, listable_link, <- IHr. split.
        -- intros [files H].
           destruct (Releases.findMetadataFiles (DirNode r) dir); [eauto|discriminate].
        -- intros [rest ->]. simpl. eauto.
  - simpl. split; eauto.
  - simpl. apply IH.
Qed.

(** X1.  The collector of [generate-releases.js] has no [try]: it returns
    exactly when the root is a directory and it and every directory it
    searches below can be listed (a root that is a link to nothing does not
    exist for the collector, which returns the empty list).  When
    [repositories/] is there but cannot be listed throughout, [main] ends
    with the exception of the collector, before it has written or removed
    anything. *)
Theorem X1_unlistable_tree_aborts_releases (w : World) :
  (forall node dir,
      (exists files, Releases.findMetadataFiles node dir = Ok files)
      <-> Further.listable node = true)
  /\ (forall root s,
        repositories w = Some root -> Further.listable root = false ->
        Releases.joinValidCategories (Releases.loadValidCategories w) = Ok s ->
        exists e,
          Releases.collect w = Throw e
          /\ Releases.main w
             = {| ending := Thrown e; releasesAfter := releases w;
                  outputs := []; removals := [] |}).
Proof.
  split; [apply findMetadataFiles_listable|].
  intros root s Hroot Hl Hj.
  unfold Releases.main, Releases.collect. rewrite Hj, Hroot.
  destruct (Releases.findMetadataFiles root (Releases.repositoriesDir w)) as [files|e] eqn:E.
  - assert (Further.listable root = true)
      by (apply (findMetadataFiles_listable root (Releases.repositoriesDir w)); eauto).
    congruence.
  - exists e. split; reflexivity.
Qed.

Lemma X1_unlistable_tree_aborts_releases_witness :
  Further.listable Further.lockedTree = false
  /\ exists e,
      Releases.collect Further.locked = Throw e
      /\ Releases.main Further.locked
         = {| ending := Thrown e; releasesAfter := releases Further.locked;
              outputs := []; removals := [] |}.
Proof.
  split; [reflexivity|].
  eapply (proj2 (X1_unlistable_tree_aborts_releases Further.locked)); reflexivity.
Defined.

(** On a tree without symbolic links that can be listed, the release
    collector finds what the consolidated collector finds, each path with
    [prefix] in front. *)
Lemma collectors_agree_on (node : fsnode) : forall prefix base files,
  base <> "" ->
  Further.linkFree node = true ->
  Releases.findMetadataFiles node (prefix ++ base) = Ok files ->
  files = map (fun f => (prefix ++ Consolidated.relativePath f, Consolidated.content f))
              (Consolidated.findAllMetadataFiles node base).
Proof.
  assert (Hjoin : forall prefix base name,
             base <> "" -> pathJoin (prefix ++ base) name = prefix ++ pathJoin base name).
  { intros prefix base name Hb. unfold pathJoin.
    destruct base as [|b base']; [congruence|].
    destruct (prefix ++ String b base') eqn:E.
    - destruct prefix; discriminate.
    - rewrite <- E. clear E. induction prefix; simpl; [reflexivity|]. f_equal. exact IHprefix. }
  assert (Hne : forall base name, base <> "" -> pathJoin base name <> "").
  { intros base name Hb. unfold pathJoin. destruct base; [congruence|discriminate]. }
  induction node as [c| |items IH| |target IH] using fsnode_nested_ind;
    intros prefix base files Hb Hfree; try discriminate.
  revert files Hfree. induction items as [|[name child] r IHr]; intros files Hfree.
  - simpl. intros [= <-]. reflexivity.
  - inversion IH as [|? ? Hc Hr]; subst. simpl in Hc. specialize (IHr Hr).
      rewrite linkFree_cons in Hfree. apply andb_prop in Hfree. destruct Hfree as [Hfc Hfr].
      specialize (fun files => IHr files Hfr).
      destruct child as [c|items'| |target]; [| | |discriminate].
      * rewrite findMetadataFiles_file, findAllMetadataFiles_file.
        destruct (Releases.findMetadataFiles (DirNode r) (prefix ++ base)) as [rest|e];
          simpl; [|discriminate].
        intros [= <-]. rewrite (IHr rest eq_refl).
        destruct (String.eqb name "metadata.json"); simpl; [|reflexivity].
        rewrite Hjoin by exact Hb. reflexivity.
      * rewrite findMetadataFiles_dir, findAllMetadataFiles_dir, Hjoin by exact Hb.
        destruct (Releases.findMetadataFiles (DirNode items') _) as [sub|e] eqn:Es;
          cbn [bind]; [|discriminate].
        destruct (Releases.findMetadataFiles (DirNode r) (prefix ++ base)) as [rest|e];
          cbn [bind]; [|discriminate].
        intros [= <-]. rewrite map_app.
        rewrite (IHr rest eq_refl).
        rewrite (Hc prefix (pathJoin base name) sub (Hne base name Hb) Hfc Es). reflexivity.
      * rewrite findMetadataFiles_locked. discriminate.
Qed.

Lemma string_append_assoc (a b c : string) : (a ++ b) ++ c = a ++ (b ++ c).
Proof. induction a; simpl; congruence. Qed.

Lemma repositoriesDir_prefix (w : World) :
  Releases.repositoriesDir w = Further.checkoutPrefix w ++ "repositories".
Proof.
  unfold Releases.repositoriesDir, pathJoin, Further.checkoutPrefix.
  destruct (checkout w) as [|a c]; [reflexivity|].
  rewrite string_append_assoc. reflexivity.
Qed.

(** X2.  When there is no symbolic link (and no entry [statSync] fails on)
    under [repositories/] and the release script can list the tree, the two
    scripts collect the same metadata files in the same order: the path the
    release script reads is the relative path of the consolidated script
    under the checkout.  (Symbolic links tell the collectors apart: the
    consolidated script searches a link to a directory, the release script
    does not.) *)
Theorem X2_collectors_agree (w : World) (files : list (string * FileRead)) :
  Further.withoutLinks w = true ->
  Releases.collect w = Ok files ->
  files = map (fun f => (Further.checkoutPrefix w ++ Consolidated.relativePath f,
                         Consolidated.content f))
              (Consolidated.collect w).
Proof.
  unfold Further.withoutLinks, Releases.collect, Consolidated.collect.
  destruct (repositories w) as [root|]; [|intros _ [= <-]; reflexivity].
  rewrite repositoriesDir_prefix.
  intros Hfree H. apply collectors_agree_on; [discriminate|exact Hfree|exact H].
Qed.

Lemma X2_collectors_agree_witness :
  exists files,
    Releases.collect Examples.catalog = Ok files
    /\ files = map (fun f => (Further.checkoutPrefix Examples.catalog
                                ++ Consolidated.relativePath f,
                              Consolidated.content f))
                   (Consolidated.collect Examples.catalog).
Proof.
  eexists. split; [vm_compute; reflexivity|].
  apply X2_collectors_agree; vm_compute; reflexivity.
Defined.

(* ------------------------------------------------------------------ *)
(** ** Paths *)
(* ------------------------------------------------------------------ *)

Lemma split_cons (sep : ascii) (s : string) : exists p ps, Js.split sep s = p :: ps.
Proof.
  induction s as [|c r [p [ps IH]]]; simpl; [eauto|].
  destruct (Ascii.eqb c sep); [eauto|]. rewrite IH. eauto.
Qed.

(** Joining the pieces of a split gives the string back. *)
Lemma join_split (sep : ascii) (s : string) :
  Js.join (String sep EmptyString) (Js.split sep s) = s.
Proof.
  induction s as [|c r IH]; simpl; [reflexivity|].
  destruct (split_cons sep r) as [p [ps Hs]]. rewrite Hs in *.
  destruct (Ascii.eqb_spec c sep) as [->|Hne].
  - change (Js.join (String sep "") ("" :: p :: ps))
      with ("" ++ String sep "" ++ Js.join (String sep "") (p :: ps)).
    rewrite IH. reflexivity.
  - destruct ps as [|q qs].
    + simpl in *. congruence.
    + change (Js.join (String sep "") (String c p :: q :: qs))
        with (String c (p ++ String sep "" ++ Js.join (String sep "") (q :: qs))).
      f_equal. exact IH.
Qed.

(** Splitting at a separator that joins two strings splits both. *)
Lemma split_append (sep : ascii) (a b : string) :
  Js.split sep (a ++ String sep b) = (Js.split sep a ++ Js.split sep b)%list.
Proof.
  induction a as [|c r IH]; simpl.
  - rewrite Ascii.eqb_refl. reflexivity.
  - destruct (Ascii.eqb c sep); [rewrite IH; reflexivity|].
    rewrite IH. destruct (split_cons sep r) as [p [ps ->]]. reflexivity.
Qed.

(** [path.dirname] undoes [path.join] with a file name. *)
Lemma dirname_of_metadata (d : string) :
  d <> "" -> dirname (d ++ "/metadata.json") = d.
Proof.
  intros Hd. unfold dirname.
  change (d ++ "/metadata.json") with (d ++ String "/" "metadata.json").
  rewrite split_append.
  change (Js.split "/" "metadata.json") with ["metadata.json"].
  destruct (split_cons "/" d) as [p [ps Hs]].
  pose proof (join_split "/" d) as Hj. rewrite Hs in *.
  change ((p :: ps) ++ ["metadata.json"])%list with (p :: (ps ++ ["metadata.json"]))%list.
  destruct (ps ++ ["metadata.json"])%list as [|q qs] eqn:E.
  - destruct ps; discriminate.
  - rewrite <- E.
    change (p :: (ps ++ ["metadata.json"]))%list with ((p :: ps) ++ ["metadata.json"])%list.
    rewrite removelast_last, Hj. destruct d; [congruence|reflexivity].
Qed.

Lemma pathJoin_nonempty (base name : string) :
  base <> "" -> pathJoin base name = base ++ "/" ++ name /\ pathJoin base name <> "".
Proof. intros Hb. unfold pathJoin. destruct base; [congruence|]. split; [reflexivity|discriminate]. Qed.

(** What the consolidated collector records for each file it finds. *)
Lemma findAllMetadataFiles_paths (node : fsnode) : forall base f,
  base <> "" ->
  In f (Consolidated.findAllMetadataFiles node base) ->
  Consolidated.relativePath f = Consolidated.directoryPath f ++ "/metadata.json"
  /\ (Consolidated.directoryPath f = base
      \/ exists below, Consolidated.directoryPath f = base ++ "/" ++ below).
Proof.
  induction node as [c| |items IH| |target IH] using fsnode_nested_ind; intros base f Hb;
    try (intros []).
  - induction items as [|[name child] r IHr]; [intros []|].
    inversion IH as [|? ? Hc Hr]; subst. simpl in Hc. specialize (IHr Hr).
    destruct (@pathJoin_nonempty base name Hb) as [Hj Hne].
    assert (Hbelow : In f (Consolidated.findAllMetadataFiles child (pathJoin base name)
                             ++ Consolidated.findAllMetadataFiles (DirNode r) base)%list ->
                     Consolidated.relativePath f
                     = Consolidated.directoryPath f ++ "/metadata.json"
                     /\ (Consolidated.directoryPath f = base
                         \/ exists below, Consolidated.directoryPath f = base ++ "/" ++ below)).
    { intros Hin. apply in_app_or in Hin.
      destruct Hin as [Hin|Hin]; [|exact (IHr Hin)].
      destruct (Hc (pathJoin base name) f Hne Hin) as [H1 [H2|[below H2]]].
      + split; [exact H1|]. right. exists name. rewrite H2. exact Hj.
      + split; [exact H1|]. right. exists (name ++ "/" ++ below).
        rewrite H2, Hj, !string_append_assoc. reflexivity. }
    rewrite findAllMetadataFiles_cons.
    destruct (follow child) as [[c|items'| |target]|]; try exact Hbelow; [|intros []].
    destruct (String.eqb_spec name "metadata.json") as [->|Hn]; [|exact IHr].
    intros [<-|Hin]; [|exact (IHr Hin)]. simpl. rewrite Hj. auto.
  - simpl. apply IH, Hb.
Qed.

(** What the release collector records for each file it finds. *)
Lemma findMetadataFiles_paths (node : fsnode) : forall dir files filePath content,
  dir <> "" ->
  Releases.findMetadataFiles node dir = Ok files -> In (filePath, content) files ->
  exists directory, filePath = directory ++ "/metadata.json" /\ directory <> "".
Proof.
  induction node as [c| |items IH| |target IH] using fsnode_nested_ind;
    intros dir files filePath content Hd; try discriminate.
  - revert files. induction items as [|[name child] r IHr]; intros files.
    + simpl. intros [= <-] [].
    + inversion IH as [|? ? Hc Hr]; subst. simpl in Hc. specialize (IHr Hr).
      destruct (@pathJoin_nonempty dir name Hd) as [Hj Hne].
      assert (Hleaf : forall c,
                 (rest <- Releases.findMetadataFiles (DirNode r) dir ;;
                  Ok (if String.eqb name "metadata.json"
                      then (pathJoin dir name, c) :: rest else rest)) = Ok files ->
                 In (filePath, content) files ->
                 exists directory,
                   filePath = directory ++ "/metadata.json" /\ directory <> "").
      { intros c.
        destruct (Releases.findMetadataFiles (DirNode r) dir) as [rest|e]; cbn [bind];
          [|discriminate].
        destruct (String.eqb_spec name "metadata.json") as [->|Hn].
        - intros [= <-] [[= <- _]|Hin]; [|exact (IHr rest eq_refl Hin)].
          exists dir. split; [exact Hj|exact Hd].
        - intros [= <-]. exact (IHr rest eq_refl). }
      destruct child as [c|items'| |target].
      * rewrite findMetadataFiles_file. apply Hleaf.
      * rewrite findMetadataFiles_dir.
        destruct (Releases.findMetadataFiles (DirNode items') _) as [sub|e] eqn:Es;
          cbn [bind]; [|discriminate].
        destruct (Releases.findMetadataFiles (DirNode r) dir) as [rest|e];
          cbn [bind]; [|discriminate].
        intros [= <-] Hin. apply in_app_or in Hin.
        destruct Hin as [Hin|Hin]; [|exact (IHr rest eq_refl Hin)].
        exact (Hc (pathJoin dir name) sub filePath content Hne Es Hin).
      * rewrite findMetadataFiles_locked. discriminate.
      * rewrite findMetadataFiles_link. apply Hleaf.
  - simpl. intros [= <-] [].
  - simpl. apply IH, Hd.
Qed.

(** X3.  In [category-all.json] the slug of an app is the path of its
    directory below [repositories/] (empty for a [metadata.json] directly in
    [repositories/]), and its [metadataPath] is the [metadata.json] of that
    directory, with backslashes turned into slashes. *)
Theorem X3_app_slug_is_directory (w : World) (app : Catalog.App) :
  In app (Consolidated.readAllMetadataFiles w) ->
  exists directory,
    Catalog.metadataPath app = Js.backslashesToSlashes (directory ++ "/metadata.json")
    /\ ((directory = "repositories" /\ Catalog.slug app = "")
        \/ directory = "repositories/" ++ Catalog.slug app).
Proof.
  unfold Consolidated.readAllMetadataFiles. rewrite in_flat_map.
  intros [f [Hf Hin]]. exists (Consolidated.directoryPath f).
  assert (Hpaths : Consolidated.relativePath f = Consolidated.directoryPath f ++ "/metadata.json"
                   /\ (Consolidated.directoryPath f = "repositories"
                       \/ exists below,
                           Consolidated.directoryPath f = "repositories" ++ "/" ++ below)).
  { unfold Consolidated.collect in Hf. destruct (repositories w) as [root|]; [|destruct Hf].
    eapply findAllMetadataFiles_paths; [discriminate|exact Hf]. }
  destruct Hpaths as [Hrel Hdir].
  assert (Happ : app = {| Catalog.metadata :=
                            match Consolidated.content f with
                            | Parsed j => Json.spread j
                            | _ => []
                            end;
                          Catalog.slug :=
                            Js.join "/" (tl (Js.split "/" (Consolidated.directoryPath f)));
                          Catalog.lastUpdated :=
                            Consolidated.getLastCommitTimestampForMetadataFile w
                              (Consolidated.relativePath f);
                          Catalog.metadataPath :=
                            Js.backslashesToSlashes (Consolidated.relativePath f) |}).
  { destruct (Consolidated.content f) as [| |j] eqn:Ec.
    - unfold Consolidated.readMetadataFile in Hin. rewrite Ec in Hin. destruct Hin.
    - unfold Consolidated.readMetadataFile in Hin. rewrite Ec in Hin. destruct Hin.
    - rewrite (@readMetadataFile_app w _ _ Ec) in Hin.
      destruct Hin as [<-|[]]. reflexivity. }
  subst app. simpl. rewrite Hrel. split; [reflexivity|].
  destruct Hdir as [->|[below ->]]; [left; split; reflexivity|right].
  change ("repositories" ++ "/" ++ below) with ("repositories" ++ String "/" below).
  rewrite split_append. simpl tl. rewrite join_split. reflexivity.
Qed.

Lemma X3_app_slug_is_directory_witness :
  exists app directory,
    In app (Consolidated.readAllMetadataFiles Examples.catalog)
    /\ Catalog.slug app = "owner/repo/beta"
    /\ Catalog.metadataPath app = Js.backslashesToSlashes (directory ++ "/metadata.json")
    /\ ((directory = "repositories" /\ Catalog.slug app = "")
        \/ directory = "repositories/" ++ Catalog.slug app).
Proof.
  assert (Hin : In {| Catalog.metadata :=
                        Json.spread (Examples.entry (JStr "Beta") (JStr "Games"));
                      Catalog.slug := "owner/repo/beta";
                      Catalog.lastUpdated := 1800000000;
                      Catalog.metadataPath := "repositories/owner/repo/beta/metadata.json" |}
                 (Consolidated.readAllMetadataFiles Examples.catalog))
    by (vm_compute; left; reflexivity).
  destruct (X3_app_slug_is_directory Examples.catalog _ Hin) as [directory [H1 H2]].
  eexists. exists directory. split; [exact Hin|]. split; [reflexivity|]. split; assumption.
Defined.

(** X4.  The [filePath] that [loadMetadata] attaches to an entry is the
    directory the collector found its [metadata.json] in, with backslashes
    turned into slashes: [path.dirname] undoes the [path.join] of the
    collector. *)
Theorem X4_filePath_is_directory (w : World) (files : list (string * FileRead))
        (filePath : string) (content : FileRead) (metadata : props) :
  Releases.collect w = Ok files ->
  In (filePath, content) files ->
  Releases.loadMetadata filePath content = Releases.Loaded metadata ->
  exists directory,
    filePath = directory ++ "/metadata.json"
    /\ Obj.get "filePath" metadata = Some (JStr (Js.backslashesToSlashes directory)).
Proof.
  intros Hc Hin Hl.
  assert (Hex : exists directory, filePath = directory ++ "/metadata.json" /\ directory <> "").
  { unfold Releases.collect in Hc.
    destruct (repositories w) as [root|].
    - eapply (@findMetadataFiles_paths root); [|exact Hc|exact Hin].
      rewrite repositoriesDir_prefix. destruct (Further.checkoutPrefix w); discriminate.
    - injection Hc as <-. destruct Hin. }
  destruct Hex as (directory & -> & Hne).
  exists directory. split; [reflexivity|].
  apply loadMetadata_Loaded in Hl. destruct Hl as (fields & _ & _ & ->).
  rewrite get_set_same, dirname_of_metadata; [reflexivity|exact Hne].
Qed.

Lemma X4_filePath_is_directory_witness :
  exists metadata directory,
    Releases.loadMetadata "/work/App-Store-Data/repositories/owner/repo/beta/metadata.json"
      (Parsed (Examples.entry (JStr "Beta") (JStr "Games"))) = Releases.Loaded metadata
    /\ "/work/App-Store-Data/repositories/owner/repo/beta/metadata.json"
       = directory ++ "/metadata.json"
    /\ Obj.get "filePath" metadata = Some (JStr (Js.backslashesToSlashes directory)).
Proof.
  destruct (Releases.loadMetadata
              "/work/App-Store-Data/repositories/owner/repo/beta/metadata.json"
              (Parsed (Examples.entry (JStr "Beta") (JStr "Games")))) as [m|warning] eqn:E;
    [|vm_compute in E; discriminate].
  destruct (Releases.collect Examples.catalog) as [files|e] eqn:Ec;
    [|vm_compute in Ec; discriminate].
  assert (Hin : In ("/work/App-Store-Data/repositories/owner/repo/beta/metadata.json",
                    Parsed (Examples.entry (JStr "Beta") (JStr "Games"))) files).
  { vm_compute in Ec. injection Ec as <-. left. reflexivity. }
  destruct (X4_filePath_is_directory Examples.catalog _ _ Ec Hin E) as [directory [H1 H2]].
  exists m, directory. auto.
Defined.

(* ------------------------------------------------------------------ *)
(** ** The categories of the consolidated script *)
(* ------------------------------------------------------------------ *)

Section CatalogGrouping.
Import Catalog.
Variable w : World.

Lemma filter_snoc (A : Type) (p : A -> bool) (l : list A) (x : A) :
  filter p (l ++ [x]) = (filter p l ++ if p x then [x] else [])%list.
Proof. rewrite filter_app. simpl. destruct (p x); reflexivity. Qed.

Lemma addApp_grouped apps cats app cats' :
  Further.catalogGrouped apps cats ->
  Consolidated.addApp cats app = Ok cats' ->
  Further.catalogGrouped (apps ++ [app]) cats'.
Proof.
  intros [Hnd Hg]. unfold Consolidated.addApp.
  assert (Hfilter : forall k,
             filter (Further.inCatalogCategory k) (apps ++ [app])
             = (filter (Further.inCatalogCategory k) apps
                  ++ if String.eqb k (Further.catalogKey app) then [app] else [])%list).
  { intros k. apply filter_snoc. }
  unfold Further.catalogKey in Hfilter.
  set (categoryName := Consolidated.categoryNameOf app) in *.
  unfold Json.ToString. destruct (Json.convertible categoryName); cbn [bind]; [|discriminate].
  set (key := Json.toString categoryName) in *.
  pose proof (Hg key) as Hkey.
  destruct (Obj.get key cats) as [c0|] eqn:E; cbn [bind].
  - rewrite E. intros [= <-]. split; [apply NoDup_set, Hnd|].
    intros k. rewrite get_set, Hfilter. specialize (Hg k).
    destruct (String.eqb_spec k key) as [->|Hne].
    + destruct Hkey as [Hn Ha]. simpl. rewrite Ha. auto.
    + destruct (Obj.get k cats) as [c|]; rewrite app_nil_r; exact Hg.
  - destruct (Obj.is_inherited key); cbn [bind]; [rewrite E; discriminate|].
    destruct categoryName as [| | |s| |] eqn:En; cbn [bind]; try discriminate.
    subst key. simpl in *. rewrite get_set_same. intros [= <-].
    split; [apply NoDup_set, NoDup_set, Hnd|].
    intros k. rewrite get_set, Hfilter. specialize (Hg k).
    destruct (String.eqb_spec k s) as [->|Hne].
    + simpl. rewrite Hkey. auto.
    + rewrite get_set_other by exact Hne.
      destruct (Obj.get k cats) as [c|]; rewrite app_nil_r; exact Hg.
Qed.

Lemma addApps_grouped rest : forall apps cats cats',
  Further.catalogGrouped apps cats ->
  Consolidated.addApps cats rest = Ok cats' ->
  Further.catalogGrouped (apps ++ rest) cats'.
Proof.
  induction rest as [|app r IH]; simpl; intros apps cats cats' Hg.
  - intros [= <-]. rewrite app_nil_r. exact Hg.
  - destruct (Consolidated.addApp cats app) as [cats1|e] eqn:E; cbn [bind]; [|discriminate].
    intros H. apply (IH (apps ++ [app])%list) in H.
    + rewrite <- app_assoc in H. exact H.
    + eapply addApp_grouped; eassumption.
Qed.

(** After the sort, a category still holds the apps filed under its name. *)
Lemma organize_grouped apps cats :
  Consolidated.organizeAppsByCategory w apps = Ok cats ->
  NoDup (map fst cats)
  /\ forall k,
      match Obj.get k cats with
      | Some c => catName c = k
                  /\ Permutation (filter (Further.inCatalogCategory k) apps) (catApps c)
      | None => filter (Further.inCatalogCategory k) apps = []
      end.
Proof.
  unfold Consolidated.organizeAppsByCategory.
  destruct (Consolidated.addApps [] apps) as [cats0|e] eqn:E; cbn [bind]; [|discriminate].
  intros Hs.
  assert (Hg : Further.catalogGrouped apps cats0).
  { apply (@addApps_grouped apps [] [] cats0); [|exact E].
    split; [constructor|]. intros k. reflexivity. }
  destruct Hg as [Hnd Hg].
  destruct (@sortApps_rearranges w _ _ _ Hs) as [Hkeys Hrel].
  split; [rewrite Hkeys; exact Hnd|].
  intros k. specialize (Hg k).
  destruct (Obj.get k cats) as [c'|] eqn:Ec'.
  - destruct (Hrel _ _ Ec') as [c [Hc (Hn & _ & _ & _ & Hp)]].
    rewrite Hc in Hg. destruct Hg as [Hname Happs].
    split; [congruence|]. rewrite <- Happs. exact Hp.
  - destruct (Obj.get k cats0) as [c|] eqn:Ec; [|exact Hg].
    exfalso. apply get_In in Ec. apply (in_map fst) in Ec. rewrite <- Hkeys in Ec.
    exact (@get_None _ k cats Ec' Ec).
Qed.

Lemma names_are_keys (cats : list (string * Category)) :
  (forall k c, In (k, c) cats -> catName c = k) ->
  map catName (map snd cats) = map fst cats.
Proof.
  induction cats as [|[k c] r IH]; simpl; intros H; [reflexivity|].
  rewrite (H k c) by (left; reflexivity). f_equal. apply IH.
  intros k' c' Hin. apply H. right. exact Hin.
Qed.

(** X5.  The categories of [category-all.json] partition the apps that
    were read: the names of the categories are distinct, a category holds
    exactly the apps filed under its name (the category of the app, or
    [Uncategorized] when that is missing or falsy), and every app is in the
    category of its key. *)
Theorem X5_categories_partition_apps (data : CategoryAllData) :
  Consolidated.build w = Ok (Some data) ->
  NoDup (map catName (categories data))
  /\ (forall c, In c (categories data) ->
                Permutation (catApps c)
                  (filter (Further.inCatalogCategory (catName c))
                     (Consolidated.readAllMetadataFiles w)))
  /\ (forall app, In app (Consolidated.readAllMetadataFiles w) ->
                  exists c, In c (categories data)
                            /\ catName c = Further.catalogKey app
                            /\ In app (catApps c)).
Proof.
  intros Hb. destruct (@build_inv w data Hb) as (cats & Ho & Hs & _).
  apply sort_perm in Hs. destruct (organize_grouped _ Ho) as [Hnd Hg].
  assert (Hkey : forall k c, In (k, c) cats -> catName c = k).
  { intros k c Hin. apply (@In_get _ _ _ _ Hnd) in Hin.
    specialize (Hg k). rewrite Hin in Hg. apply Hg. }
  split; [|split].
  - eapply Permutation_NoDup; [apply Permutation_map, Hs|].
    rewrite map_map.
    change (NoDup (map catName (Obj.values cats))). unfold Obj.values.
    eapply Permutation_NoDup;
      [apply Permutation_map, Permutation_map; symmetry; apply (@entries_perm _ cats)|].
    rewrite names_are_keys by exact Hkey. exact Hnd.
  - intros c Hc. apply (Permutation_in _ (Permutation_sym Hs)) in Hc.
    apply in_map_iff in Hc. destruct Hc as [c' [<- Hc']]. simpl.
    apply In_values in Hc'. destruct Hc' as [k Hk].
    apply (@In_get _ _ _ _ Hnd) in Hk. specialize (Hg k). rewrite Hk in Hg.
    destruct Hg as [-> Hp]. symmetry. exact Hp.
  - intros app Hin. specialize (Hg (Further.catalogKey app)).
    assert (Hf : In app (filter (Further.inCatalogCategory (Further.catalogKey app))
                           (Consolidated.readAllMetadataFiles w))).
    { apply filter_In. split; [exact Hin|]. apply String.eqb_refl. }
    destruct (Obj.get (Further.catalogKey app) cats) as [c'|] eqn:Ec;
      [|rewrite Hg in Hf; destruct Hf].
    destruct Hg as [Hn Hp]. exists (Consolidated.withLastUpdated c').
    split; [|split; [exact Hn|exact (Permutation_in _ Hp Hf)]].
    apply (Permutation_in _ Hs). apply in_map. apply In_values.
    exists (Further.catalogKey app). apply get_In, Ec.
Qed.

End CatalogGrouping.

Lemma X5_categories_partition_apps_witness :
  exists data,
    Consolidated.build Examples.catalog = Ok (Some data)
    /\ map Catalog.catName (Catalog.categories data) = ["Games"; "Utilities"]
    /\ NoDup (map Catalog.catName (Catalog.categories data)).
Proof.
  destruct (Consolidated.build Examples.catalog) as [[data|]|e] eqn:E;
    try (vm_compute in E; discriminate).
  exists data. split; [reflexivity|].
  split; [vm_compute in E; injection E as <-; reflexivity|].
  apply (X5_categories_partition_apps Examples.catalog E).
Defined.

(* ------------------------------------------------------------------ *)
(** ** Totals *)
(* ------------------------------------------------------------------ *)

Lemma list_sum_perm (l l' : list nat) : Permutation l l' -> list_sum l = list_sum l'.
Proof. induction 1; simpl; lia. Qed.

Section Sums.
Variable A : Type.
Variable size : A -> nat.

Lemma sum_set_present (k : string) (v v0 : A) (o : list (string * A)) :
  Obj.get k o = Some v0 ->
  (list_sum (map (fun kv => size (snd kv)) (Obj.set k v o)) + size v0
   = list_sum (map (fun kv => size (snd kv)) o) + size v)%nat.
Proof.
  induction o as [|[k1 v1] r IH]; simpl; [discriminate|].
  destruct (String.eqb_spec k k1) as [->|Hne]; simpl.
  - intros [= ->]. lia.
  - intros H. specialize (IH H). lia.
Qed.

Lemma sum_set_absent (k : string) (v : A) (o : list (string * A)) :
  Obj.get k o = None ->
  list_sum (map (fun kv => size (snd kv)) (Obj.set k v o))
  = (list_sum (map (fun kv => size (snd kv)) o) + size v)%nat.
Proof.
  induction o as [|[k1 v1] r IH]; simpl; [lia|].
  destruct (String.eqb_spec k k1) as [->|Hne]; simpl; [discriminate|].
  intros H. rewrite (IH H). lia.
Qed.

Lemma sum_values (o : list (string * A)) :
  list_sum (map size (Obj.values o)) = list_sum (map (fun kv => size (snd kv)) o).
Proof.
  unfold Obj.values. rewrite map_map.
  apply list_sum_perm, Permutation_map, entries_perm.
Qed.

End Sums.

Section CatalogTotals.
Import Catalog.
Variable w : World.

Lemma addApp_count cats app cats' :
  Consolidated.addApp cats app = Ok cats' ->
  list_sum (map (fun kv => catCount (snd kv)) cats')
  = S (list_sum (map (fun kv => catCount (snd kv)) cats)).
Proof.
  unfold Consolidated.addApp, Json.ToString.
  destruct (Json.convertible (Consolidated.categoryNameOf app)); cbn [bind]; [|discriminate].
  set (key := Json.toString (Consolidated.categoryNameOf app)).
  destruct (Obj.get key cats) as [c0|] eqn:E; cbn [bind].
  - rewrite E. intros [= <-].
    pose proof (@sum_set_present _ catCount key
                  {| catName := catName c0; catSlug := catSlug c0;
                     catCount := S (catCount c0); catApps := (catApps c0 ++ [app])%list;
                     catLastUpdated := catLastUpdated c0 |} c0 cats E) as H.
    simpl in H. lia.
  - destruct (Obj.is_inherited key); cbn [bind]; [rewrite E; discriminate|].
    destruct (Consolidated.categoryNameOf app) as [| | |s| |]; cbn [bind]; try discriminate.
    rewrite get_set_same. intros [= <-].
    match goal with
    | |- context [Obj.set key ?c1 (Obj.set key ?c0 cats)] =>
        pose proof (@sum_set_present _ catCount key c1 c0 (Obj.set key c0 cats)
                      (get_set_same _ _ _)) as H1;
        pose proof (@sum_set_absent _ catCount key c0 cats E) as H2
    end.
    simpl in H1, H2. lia.
Qed.

Lemma addApps_count apps : forall cats cats',
  Consolidated.addApps cats apps = Ok cats' ->
  list_sum (map (fun kv => catCount (snd kv)) cats')
  = (list_sum (map (fun kv => catCount (snd kv)) cats) + List.length apps)%nat.
Proof.
  induction apps as [|app r IH]; simpl; intros cats cats'.
  - intros [= <-]. lia.
  - destruct (Consolidated.addApp cats app) as [cats1|e] eqn:E; cbn [bind]; [|discriminate].
    intros H. rewrite (IH _ _ H), (addApp_count _ _ E). lia.
Qed.

Lemma sortApps_count keys : forall cats cats',
  Consolidated.sortApps w keys cats = Ok cats' ->
  list_sum (map (fun kv => catCount (snd kv)) cats')
  = list_sum (map (fun kv => catCount (snd kv)) cats).
Proof.
  induction keys as [|k0 r IH]; simpl; intros cats cats'.
  - intros [= <-]. reflexivity.
  - destruct (Obj.get k0 cats) as [c0|] eqn:E; [|apply IH].
    destruct (ArraySort.sort (Consolidated.compareApps w) (catApps c0)) as [sorted|e];
      cbn [bind]; [|discriminate].
    intros H. rewrite (IH _ _ H).
    match goal with
    | |- context [Obj.set k0 ?c1 cats] =>
        pose proof (@sum_set_present _ catCount k0 c1 c0 cats E) as H1
    end.
    simpl in H1. lia.
Qed.

Lemma readAllMetadataFiles_length :
  List.length (Consolidated.readAllMetadataFiles w)
  = List.length (filter (fun f => Further.isParsed (Consolidated.content f))
                   (Consolidated.collect w)).
Proof.
  unfold Consolidated.readAllMetadataFiles.
  induction (Consolidated.collect w) as [|f r IH]; simpl; [reflexivity|].
  rewrite length_app, IH.
  destruct (Consolidated.content f) as [| |j] eqn:Ec.
  - unfold Consolidated.readMetadataFile. rewrite Ec. reflexivity.
  - unfold Consolidated.readMetadataFile. rewrite Ec. reflexivity.
  - rewrite (@readMetadataFile_app w _ _ Ec). reflexivity.
Qed.

(** X6.  The totals of [category-all.json]: [totalCategories] is the number
    of categories, the [count] of a category is the number of its apps, and
    [totalApps] is the sum of the counts, which is the number of metadata
    files that parse (valid or not). *)
Theorem X6_catalog_totals (data : CategoryAllData) :
  Consolidated.build w = Ok (Some data) ->
  totalCategories data = List.length (categories data)
  /\ Forall (fun c => catCount c = List.length (catApps c)) (categories data)
  /\ totalApps data = Further.sumCounts (categories data)
  /\ totalApps data
     = List.length (filter (fun f => Further.isParsed (Consolidated.content f))
                      (Consolidated.collect w)).
Proof.
  intros Hb. destruct (@build_inv w data Hb) as (cats & Ho & Hs & Ha & Hc).
  split; [exact Hc|]. split; [|split].
  - rewrite Forall_forall. intros c Hin. apply (@build_category w data c Hb Hin).
  - rewrite Ha. unfold Further.sumCounts.
    rewrite <- (list_sum_perm (Permutation_map catCount (sort_perm _ _ Hs))).
    rewrite map_map. change (fun x => catCount (Consolidated.withLastUpdated x)) with catCount.
    rewrite sum_values.
    unfold Consolidated.organizeAppsByCategory in Ho.
    destruct (Consolidated.addApps [] (Consolidated.readAllMetadataFiles w)) as [cats0|e] eqn:E;
      cbn [bind] in Ho; [|discriminate].
    rewrite (sortApps_count _ _ Ho), (addApps_count _ _ E). reflexivity.
  - rewrite Ha. apply readAllMetadataFiles_length.
Qed.

End CatalogTotals.

Lemma X6_catalog_totals_witness :
  exists data,
    Consolidated.build Examples.incomplete = Ok (Some data)
    /\ Catalog.totalApps data = 1%nat
    /\ Catalog.totalApps data = Further.sumCounts (Catalog.categories data).
Proof.
  destruct (Consolidated.build Examples.incomplete) as [[data|]|e] eqn:E;
    try (vm_compute in E; discriminate).
  exists data. split; [reflexivity|].
  split; [vm_compute in E; injection E as <-; reflexivity|].
  apply (X6_catalog_totals Examples.incomplete E).
Defined.

(* ------------------------------------------------------------------ *)
(** ** The index and the release files of one run *)
(* ------------------------------------------------------------------ *)

Section IndexFacts.
Import Release.
Variable w : World.

Lemma fold_left_sum (l : list (list props)) : forall n,
  fold_left (fun sum apps => (sum + List.length apps)%nat) l n
  = (n + list_sum (map (@List.length props) l))%nat.
Proof.
  induction l as [|x r IH]; simpl; intros n; [lia|]. rewrite IH. lia.
Qed.

Lemma sumLengths_sum (cats : list (string * list props)) :
  Releases.sumLengths cats
  = list_sum (map (fun kv => List.length (snd kv)) cats).
Proof.
  unfold Releases.sumLengths. rewrite fold_left_sum. simpl.
  apply (@sum_values (list props) (@List.length props)).
Qed.

Lemma addMetadata_sum cats metadata cats' :
  Releases.addMetadata cats metadata = Ok cats' ->
  list_sum (map (fun kv => List.length (snd kv)) cats')
  = S (list_sum (map (fun kv : string * list props => List.length (snd kv)) cats)).
Proof.
  intros Hadd. destruct (@addMetadata_Ok _ _ _ Hadd) as [Hpn Hpc].
  rewrite (@addMetadata_eq cats _ Hpn Hpc) in Hadd. revert Hadd.
  set (key := Spec.categoryKey metadata).
  destruct (Obj.get key cats) as [apps|] eqn:E.
  - intros [= <-].
    pose proof (@sum_set_present _ (@List.length props) key (apps ++ [metadata])%list
                  apps cats E) as H.
    rewrite length_app in H. simpl in H. unfold props in *. lia.
  - destruct (Obj.is_inherited key); [discriminate|]. intros [= <-].
    unfold props in *.
    rewrite (@sum_set_absent _ (@List.length (list (string * json))) key [metadata] cats E).
    simpl. lia.
Qed.

Lemma groupByCategory_sum files : forall cats cats',
  Releases.groupByCategory cats files = Ok cats' ->
  list_sum (map (fun kv => List.length (snd kv)) cats')
  = (list_sum (map (fun kv : string * list props => List.length (snd kv)) cats)
     + List.length (Spec.validEntries files))%nat.
Proof.
  induction files as [|[p c] r IH]; simpl; intros cats cats'.
  - intros [= <-]. lia.
  - destruct (Releases.loadMetadata p c) as [m|warning]; [|apply IH].
    destruct (Releases.addMetadata cats m) as [cats1|e] eqn:E; cbn [bind]; [|discriminate].
    intros H. rewrite (IH _ _ H), (addMetadata_sum _ _ E). simpl. lia.
Qed.

(** The loop writes one release file for each category it records. *)
Lemma generateReleases_pairs entries : forall st e st',
  Releases.generateReleases w st entries = (e, st') ->
  exists pairs : list ((string * list props) * list props),
    Releases.categoriesWithReleases st'
    = (Releases.categoriesWithReleases st ++ map (fun p => fst (fst p)) pairs)%list
    /\ Releases.written st'
       = (Releases.written st
            ++ map (fun p => Spec.releaseOutput (fst p) (snd p)) pairs)%list
    /\ Forall (fun p => In (fst p) entries
                        /\ ArraySort.sort (Releases.compareApps w) (snd (fst p))
                           = Ok (snd p)) pairs
    /\ (NoDup (map fst entries) -> NoDup (map (fun p => fst (fst p)) pairs)).
Proof.
  induction entries as [|entry r IH]; simpl; intros st e st'.
  - intros [= <- <-]. exists []. simpl. rewrite !app_nil_r.
    split; [reflexivity|]. split; [reflexivity|]. split; [constructor|]. intros _. constructor.
  - destruct (Releases.generateRelease w st entry) as [st1|x] eqn:E.
    + intros H. destruct (IH _ _ _ H) as (pairs & Hc & Hw & Hall & Hnd).
      assert (Hweaken : Forall (fun p => In (fst p) (entry :: r)
                                         /\ ArraySort.sort (Releases.compareApps w)
                                              (snd (fst p)) = Ok (snd p)) pairs).
      { eapply Forall_impl; [|exact Hall]. intros p [H1 H2]. split; [right|]; assumption. }
      destruct (@generateRelease_cases w _ _ _ E)
        as (sorted & Hs & [[_ ->]|(_ & _ & _ & Hc1 & Hw1)]).
      * exists pairs. split; [exact Hc|]. split; [exact Hw|]. split; [exact Hweaken|].
        intros Hn. apply Hnd. inversion Hn; assumption.
      * exists ((entry, sorted) :: pairs). rewrite Hc, Hc1, Hw, Hw1, <- !app_assoc. simpl.
        split; [reflexivity|]. split; [reflexivity|]. split.
        -- constructor; [|exact Hweaken]. simpl. split; [left; reflexivity|exact Hs].
        -- intros Hn. inversion Hn as [|? ? Hnotin Hn']; subst.
           constructor; [|apply Hnd, Hn'].
           intros Hin. apply Hnotin. apply in_map_iff in Hin.
           destruct Hin as [p [Heq Hp]]. rewrite Forall_forall in Hall.
           destruct (Hall p Hp) as [Hpr _]. rewrite <- Heq.
           apply (in_map fst) in Hpr. exact Hpr.
    + intros [= <- <-]. exists []. simpl. rewrite !app_nil_r.
      split; [reflexivity|]. split; [reflexivity|]. split; [constructor|].
      intros _. constructor.
Qed.

Lemma mapM_names cats names : forall entries,
  Releases.mapM (Releases.categoryData w cats) names = Ok entries ->
  map name entries = names.
Proof.
  induction names as [|c r IH]; simpl; intros entries.
  - intros [= <-]. reflexivity.
  - unfold Releases.categoryData at 1.
    destruct (Obj.get c cats) as [apps|]; cbn [bind]; [|discriminate].
    destruct (Releases.mapM (Releases.categoryData w cats) r) as [ys|e]; cbn [bind];
      [|discriminate].
    intros [= <-]. simpl. f_equal. apply IH. reflexivity.
Qed.

(** X7.  The index [categories.json] of a run matches the release files of
    that run: its categories have distinct names, each has its release file
    written in the same run with the same category and count, and every
    release file written is listed.  [totalApps] counts every loaded entry,
    also those of a category whose release file could not be written. *)
Theorem X7_index_matches_release_files (idx : CategoriesData) :
  In ("categories.json", CategoriesFile idx) (outputs (Releases.main w)) ->
  exists files,
    Releases.collect w = Ok files
    /\ totalApps idx = List.length (Spec.validEntries files)
    /\ totalCategories idx = List.length (categories idx)
    /\ NoDup (map name (categories idx))
    /\ (forall e, In e (categories idx) ->
          exists data,
            In (Releases.releaseFileName (name e), ReleaseFile data)
               (outputs (Releases.main w))
            /\ category data = name e /\ count data = catCount e)
    /\ (forall file data,
          In (file, ReleaseFile data) (outputs (Releases.main w)) ->
          exists e, In e (categories idx) /\ name e = category data).
Proof.
  intros Hin.
  destruct (releases_main_inv w) as [[c [Hm _]]|(files & cats & st & Hc & _ & Hg & Hcases)].
  { rewrite Hm in Hin. destruct Hin. }
  exists files. split; [exact Hc|].
  assert (Hgen : forall e, Releases.generateReleases w (Releases.initialState w)
                             (Obj.entries cats) = (e, st) ->
                 exists pairs : list ((string * list props) * list props),
                   Releases.categoriesWithReleases st = map (fun p => fst (fst p)) pairs
                   /\ Releases.written st
                      = map (fun p => Spec.releaseOutput (fst p) (snd p)) pairs
                   /\ Forall (fun p => In (fst p) cats
                                       /\ ArraySort.sort (Releases.compareApps w)
                                            (snd (fst p)) = Ok (snd p)) pairs
                   /\ NoDup (map (fun p => fst (fst p)) pairs)).
  { intros e He. destruct (generateReleases_pairs _ _ He) as (pairs & H1 & H2 & H3 & H4).
    exists pairs. simpl in H1, H2. repeat split; auto.
    - eapply Forall_impl; [|exact H3]. intros p [Hp Hs]. split; [|exact Hs].
      apply (proj1 (@In_entries _ _ cats)), Hp.
    - apply H4. eapply Permutation_NoDup;
        [apply Permutation_map; symmetry; apply (@entries_perm _ cats)|].
      apply (@group_grouped _ _ Hg). }
  assert (Hnot : forall pairs : list ((string * list props) * list props),
             ~ In ("categories.json", CategoriesFile idx)
                  (map (fun p => Spec.releaseOutput (fst p) (snd p)) pairs)).
  { intros pairs H. apply in_map_iff in H. destruct H as [p [Heq _]]. discriminate. }
  assert (Hout : exists st',
             Releases.generateReleases w (Releases.initialState w) (Obj.entries cats)
             = (None, st)
             /\ Releases.writeCategoriesIndex w cats st = Ok st'
             /\ outputs (Releases.main w) = Releases.written st').
  { destruct Hcases as [(e & Hm & He)|[(e & Hm & He & _)
                       |[(st' & e & He & Hi & _ & Hm)|(st' & He & Hi & _ & Hm)]]].
    - destruct (Hgen _ He) as (pairs & _ & Hw & _). rewrite Hm in Hin. simpl in Hin.
      rewrite Hw in Hin. destruct (Hnot _ Hin).
    - destruct (Hgen _ He) as (pairs & _ & Hw & _). rewrite Hm in Hin. simpl in Hin.
      rewrite Hw in Hin. destruct (Hnot _ Hin).
    - exists st'. rewrite Hm. auto.
    - exists st'. rewrite Hm. auto. }
  destruct Hout as (st' & He & Hi & Hout).
  - destruct (Hgen _ He) as (pairs & Hcats & Hw & Hall & Hnd).
    rewrite Hout in Hin |- *.
    destruct (@writeCategoriesIndex_spec w _ _ _ Hi) as (_ & _ & [Hw'|(idx' & Hw' & Hidx)]).
    { rewrite Hw', Hw in Hin. destruct (Hnot _ Hin). }
    rewrite Hw' in Hin |- *. apply in_app_or in Hin.
    destruct Hin as [Hin|[Heq|[]]]; [rewrite Hw in Hin; destruct (Hnot _ Hin)|].
    injection Heq as <-.
    destruct Hidx as (entries & Hmap & Hsort & Htc & Hta).
    pose proof (sort_perm _ _ Hsort) as Hperm.
    pose proof (mapM_names _ _ Hmap) as Hnames.
    pose proof (@group_grouped _ _ Hg) as [Hndk Hgr].
    split.
    { rewrite Hta, sumLengths_sum, (groupByCategory_sum _ _ Hg). reflexivity. }
    split.
    { rewrite Htc, <- (Permutation_length Hperm), <- Hnames, length_map. reflexivity. }
    split.
    { eapply Permutation_NoDup; [apply Permutation_map, Hperm|].
      rewrite Hnames, Hcats. exact Hnd. }
    split.
    + intros e Hein. apply (Permutation_in _ (Permutation_sym Hperm)) in Hein.
      destruct (@mapM_In _ _ _ _ _ _ Hmap Hein) as [c [Hcin Hcd]].
      unfold Releases.categoryData in Hcd.
      destruct (Obj.get c cats) as [apps0|] eqn:Ea; [|discriminate].
      injection Hcd as <-. simpl.
      rewrite Hcats in Hcin. apply in_map_iff in Hcin.
      destruct Hcin as [[[c' apps1] sorted] [Heq Hp]]. simpl in Heq. subst c'.
      rewrite Forall_forall in Hall. destruct (Hall _ Hp) as [Hpin Hs]. simpl in Hpin, Hs.
      apply (@In_get _ _ _ _ Hndk) in Hpin. rewrite Ea in Hpin. injection Hpin as <-.
      eexists. split.
      * apply in_or_app. left. rewrite Hw.
        apply in_map_iff. exists ((c, apps0), sorted). split; [reflexivity|exact Hp].
      * simpl. split; [reflexivity|].
        symmetry. apply Permutation_length, (sort_perm _ _ Hs).
    + intros file data Hd. apply in_app_or in Hd.
      destruct Hd as [Hd|[Heq|[]]]; [|discriminate].
      rewrite Hw in Hd. apply in_map_iff in Hd. destruct Hd as [p [Heq Hp]].
      unfold Spec.releaseOutput in Heq. injection Heq as _ <-. simpl.
      assert (Hn : In (fst (fst p)) (map name entries)).
      { rewrite Hnames, Hcats. apply in_map_iff. eauto. }
      apply in_map_iff in Hn. destruct Hn as [e [He1 He2]].
      exists e. split; [exact (Permutation_in _ Hperm He2)|exact He1].
Qed.

End IndexFacts.

Lemma X7_index_matches_release_files_witness :
  exists idx,
    In ("categories.json", CategoriesFile idx) (outputs (Releases.main Examples.readOnlyGames))
    /\ map Release.name (Release.categories idx) = ["Utilities"]
    /\ Release.totalApps idx = 3%nat
    /\ exists files,
        Releases.collect Examples.readOnlyGames = Ok files
        /\ Release.totalApps idx = List.length (Spec.validEntries files).
Proof.
  eexists. split; [vm_compute; right; left; reflexivity|].
  split; [reflexivity|]. split; [reflexivity|].
  destruct (X7_index_matches_release_files Examples.readOnlyGames _
              (or_intror (or_introl eq_refl))) as (files & H1 & H2 & _).
  exists files. split; assumption.
Defined.

(* ------------------------------------------------------------------ *)
(** ** The entries of a release file *)
(* ------------------------------------------------------------------ *)

Lemma get_setIf_same (cond : bool) (k : string) (o : props) (app : props) :
  Obj.get k o = Obj.get k app ->
  Obj.get k (Releases.setIf cond k (Obj.get k app) o) = Obj.get k app.
Proof.
  intros H. unfold Releases.setIf.
  destruct (Obj.get k app) as [x|] eqn:E; [|exact H].
  destruct cond; [apply get_set_same|exact H].
Qed.

Lemma get_removeAll_cases (k : string) (ks : list string) (o : props) :
  Obj.get k (Obj.removeAll ks o) = if Js.includes ks k then None else Obj.get k o.
Proof.
  destruct (Js.includes ks k) eqn:E; [apply get_removeAll_in|apply get_removeAll]; exact E.
Qed.

(** X8.  What the clean-up of an entry for a release file does: the slug is
    [owner/repo/name]; [commit], [owner], [repo], [path], [filePath],
    [category] and [files] are gone; every other field is as it was.  In
    particular [supported-devices] and [supported-screen-size] are kept
    whatever the category is: the two conditional assignments only repeat
    what the rest pattern has already copied. *)
Theorem X8_cleanApp_fields (app : props) :
  Obj.get "slug" (Releases.cleanApp app)
  = Some (JStr (Json.toStringOpt (Obj.get "owner" app) ++ "/"
                ++ Json.toStringOpt (Obj.get "repo" app) ++ "/"
                ++ Json.toStringOpt (Obj.get "name" app)))
  /\ forall field,
      field <> "slug" ->
      Obj.get field (Releases.cleanApp app)
      = if Js.includes Releases.strippedFields field then None else Obj.get field app.
Proof.
  unfold Releases.cleanApp. split.
  - rewrite !get_setIf_other by discriminate. apply get_set_same.
  - intros field Hslug.
    destruct (String.eqb_spec field "supported-screen-size") as [->|Hsize].
    { apply get_setIf_same. rewrite get_setIf_other by discriminate.
      rewrite get_set_other by discriminate. apply get_removeAll. reflexivity. }
    rewrite get_setIf_other by exact Hsize.
    destruct (String.eqb_spec field "supported-devices") as [->|Hdev].
    { apply get_setIf_same.
      rewrite get_set_other by discriminate. apply get_removeAll. reflexivity. }
    rewrite get_setIf_other by exact Hdev.
    rewrite get_set_other by exact Hslug.
    apply get_removeAll_cases.
Qed.

Lemma X8_cleanApp_fields_witness :
  Json.isString (Obj.get "category" Further.theme) "Themes" = true
  /\ Obj.get "supported-devices" (Releases.cleanApp Further.theme)
     = Some (JArr [JStr "tablet"])
  /\ Obj.get "owner" (Releases.cleanApp Further.theme) = None.
Proof.
  split; [reflexivity|]. split.
  - rewrite (proj2 (X8_cleanApp_fields Further.theme) "supported-devices") by discriminate.
    reflexivity.
  - rewrite (proj2 (X8_cleanApp_fields Further.theme) "owner") by discriminate.
    reflexivity.
Defined.

(* ------------------------------------------------------------------ *)
(** ** Reading the time stamp git prints *)
(* ------------------------------------------------------------------ *)

Lemma digitsFrom_digit (c : ascii) (r : string) (acc : option N) :
  Js.is_digit c = true ->
  Js.digitsFrom 10 acc (String c r)
  = Js.digitsFrom 10
      (Some (match acc with
             | Some a => a * 10 + (Js.code c - 48)
             | None => Js.code c - 48
             end)%N) r.
Proof.
  intros H. destruct c as [[] [] [] [] [] [] [] []]; vm_compute in H; try discriminate;
    reflexivity.
Qed.

Lemma parseInt_digit (c : ascii) (r : string) :
  Js.is_digit c = true ->
  Js.parseInt (String c r) = option_map Z.of_N (Js.parseUnsigned (String c r)).
Proof.
  intros H. destruct c as [[] [] [] [] [] [] [] []]; vm_compute in H; try discriminate;
    reflexivity.
Qed.

Lemma stripHexPrefix_digits (c c' : ascii) (r : string) :
  Js.is_digit c' = true -> Js.stripHexPrefix (String c (String c' r)) = None.
Proof.
  intros H. unfold Js.stripHexPrefix.
  destruct c' as [[] [] [] [] [] [] [] []]; vm_compute in H; try discriminate;
    destruct c as [[] [] [] [] [] [] [] []]; reflexivity.
Qed.

Lemma digitsFrom_uint (d : Decimal.uint) : forall a,
  Js.digitsFrom 10 (Some a) (NilEmpty.string_of_uint d)
  = Some (a * 10 ^ Unsigned.usize d + Unsigned.of_lu (Decimal.rev d))%N.
Proof.
  induction d as [|d' IH|d' IH|d' IH|d' IH|d' IH|d' IH|d' IH|d' IH|d' IH|d' IH]; intros a;
    [simpl; f_equal; lia|..];
    simpl NilEmpty.string_of_uint;
    rewrite @digitsFrom_digit by reflexivity; rewrite IH;
    match goal with
    | |- context [Decimal.rev (?c d')] =>
        change (Decimal.rev (c d')) with (Decimal.revapp d' (c Decimal.Nil));
        rewrite (Unsigned.of_lu_revapp d' (c Decimal.Nil))
    end;
    simpl Unsigned.usize; rewrite N.pow_succ_r';
    f_equal; simpl Js.code; simpl Unsigned.of_lu; lia.
Qed.

Lemma digitsFrom_numeral (d : Decimal.uint) :
  d <> Decimal.Nil ->
  Js.digitsFrom 10 None (NilEmpty.string_of_uint d) = Some (Pos.of_uint d).
Proof.
  intros Hd. rewrite Unsigned.of_uint_alt.
  destruct d as [|d'|d'|d'|d'|d'|d'|d'|d'|d'|d']; [congruence|..];
    simpl NilEmpty.string_of_uint;
    rewrite @digitsFrom_digit by reflexivity; rewrite digitsFrom_uint;
    match goal with
    | |- context [Decimal.rev (?c d')] =>
        change (Decimal.rev (c d')) with (Decimal.revapp d' (c Decimal.Nil));
        rewrite (Unsigned.of_lu_revapp d' (c Decimal.Nil))
    end;
    f_equal; simpl Js.code; simpl Unsigned.of_lu; lia.
Qed.

Lemma parseUnsigned_numeral (d : Decimal.uint) :
  d <> Decimal.Nil ->
  Js.parseUnsigned (NilEmpty.string_of_uint d) = Some (Pos.of_uint d).
Proof.
  intros Hd. unfold Js.parseUnsigned.
  replace (Js.stripHexPrefix (NilEmpty.string_of_uint d)) with (@None string).
  - now apply digitsFrom_numeral.
  - destruct d as [|d'|d'|d'|d'|d'|d'|d'|d'|d'|d']; try reflexivity;
      destruct d' as [|d|d|d|d|d|d|d|d|d|d]; reflexivity.
Qed.

Lemma numeral_head (d : Decimal.uint) :
  d <> Decimal.Nil ->
  exists c r, NilEmpty.string_of_uint d = String c r /\ Js.is_digit c = true.
Proof.
  intros Hd. destruct d; [congruence|..]; eexists; eexists; split; reflexivity.
Qed.

Lemma parseInt_pos (p : positive) : Js.parseInt (Json.decimal (Z.pos p)) = Some (Z.pos p).
Proof.
  unfold Json.decimal. simpl Z.to_int. simpl NilZero.string_of_int.
  unfold NilZero.string_of_uint.
  pose proof (Unsigned.to_uint_nonnil p) as Hn.
  destruct (Pos.to_uint p) as [|d|d|d|d|d|d|d|d|d|d] eqn:E; [congruence|..];
    rewrite <- E in *;
    destruct (numeral_head Hn) as (c & r & Hs & Hc);
    rewrite Hs, (@parseInt_digit _ _ Hc), <- Hs, (parseUnsigned_numeral Hn),
      Unsigned.of_to; reflexivity.
Qed.

Lemma parseInt_neg (p : positive) : Js.parseInt (Json.decimal (Z.neg p)) = Some (Z.neg p).
Proof.
  unfold Json.decimal. simpl Z.to_int. simpl NilZero.string_of_int.
  unfold NilZero.string_of_uint.
  pose proof (Unsigned.to_uint_nonnil p) as Hn.
  destruct (Pos.to_uint p) as [|d|d|d|d|d|d|d|d|d|d] eqn:E; [congruence|..];
    rewrite <- E in *;
    change (option_map (fun n => - Z.of_N n)
              (Js.parseUnsigned (NilEmpty.string_of_uint (Pos.to_uint p)))
            = Some (Z.neg p));
    rewrite (parseUnsigned_numeral Hn), Unsigned.of_to; reflexivity.
Qed.

Lemma parseInt_decimal (t : Z) : Js.parseInt (Json.decimal t) = Some t.
Proof.
  destruct t as [|p|p]; [reflexivity|apply parseInt_pos|apply parseInt_neg].
Qed.

Lemma numeral_noSpace (d : Decimal.uint) :
  Spec.allChars Further.noSpace (NilEmpty.string_of_uint d) = true.
Proof.
  induction d; simpl; auto.
Qed.

Lemma decimal_noSpace (t : Z) : Spec.allChars Further.noSpace (Json.decimal t) = true.
Proof.
  unfold Json.decimal, NilZero.string_of_int, NilZero.string_of_uint.
  destruct (Z.to_int t) as [d|d]; destruct d; try reflexivity;
    apply (numeral_noSpace (_ d)) || (simpl; apply (numeral_noSpace d)).
Qed.

Lemma decimal_nonempty (t : Z) : Js.truthy_string (Json.decimal t) = true.
Proof.
  unfold Json.decimal, NilZero.string_of_int, NilZero.string_of_uint.
  destruct (Z.to_int t) as [d|d]; destruct d; reflexivity.
Qed.

Lemma trimStart_noSpace (s : string) :
  Spec.allChars Further.noSpace s = true -> Js.truthy_string s = true ->
  forall rest, Js.trimStart (s ++ rest) = s ++ rest.
Proof.
  destruct s as [|c r]; [discriminate|]. simpl. unfold Further.noSpace at 1.
  intros H _ rest. destruct (Js.is_space c); [discriminate|reflexivity].
Qed.

Lemma trimEnd_line (s : string) :
  Spec.allChars Further.noSpace s = true ->
  Js.trimEnd (s ++ String (ascii_of_N 10) EmptyString) = s.
Proof.
  induction s as [|c r IH]; [reflexivity|]. simpl Spec.allChars.
  unfold Further.noSpace at 1. intros H. apply andb_prop in H. destruct H as [Hc Hr].
  change (match Js.trimEnd (r ++ String (ascii_of_N 10) EmptyString) with
          | EmptyString => if Js.is_space c then EmptyString else String c EmptyString
          | (String _ _) as r' => String c r'
          end = String c r).
  rewrite (IH Hr). destruct (Js.is_space c); [discriminate|]. destruct r; reflexivity.
Qed.

Lemma timestampOfLog_printed (t now : Z) :
  timestampOfLog (Stdout (Further.printedLine t)) now
  = if Js.validTimeValue (t * 1000) then t else now.
Proof.
  unfold timestampOfLog, Js.trim, Further.printedLine.
  rewrite (trimStart_noSpace _ (decimal_noSpace t) (decimal_nonempty t)),
    (trimEnd_line _ (decimal_noSpace t)), decimal_nonempty, parseInt_decimal.
  reflexivity.
Qed.

(** X9.  When [git log] prints the decimal numeral of a time [t] and a line
    feed, both resolvers read exactly [t] back, provided [t] seconds is
    within the range of [Date]; otherwise they fall back to the clock.  The
    release script does so only for a file that [git status] reports clean. *)
Theorem X9_printed_timestamp_is_read (w : World) (filePath category : string) (t : Z) :
  (execSync w (gitLog filePath) = Stdout (Further.printedLine t) ->
   Consolidated.getLastCommitTimestampForMetadataFile w filePath
   = if Js.validTimeValue (t * 1000) then t else dateNow w filePath)
  /\ (execSync w (gitLog (Releases.categoryFilePath category))
      = Stdout (Further.printedLine t) ->
      Releases.getLastCommitTimestampForCategory w category
      = if Releases.hasUncommittedChanges w (Releases.categoryFilePath category)
        then dateNow w category
        else if Js.validTimeValue (t * 1000) then t else dateNow w category).
Proof.
  split; intros H.
  - unfold Consolidated.getLastCommitTimestampForMetadataFile.
    rewrite H. apply timestampOfLog_printed.
  - unfold Releases.getLastCommitTimestampForCategory.
    rewrite H, timestampOfLog_printed. reflexivity.
Qed.

Lemma X9_printed_timestamp_is_read_witness :
  Consolidated.getLastCommitTimestampForMetadataFile (Further.dated 1700000000)
    "repositories/owner/repo/alpha/metadata.json" = 1700000000
  /\ Releases.getLastCommitTimestampForCategory (Further.dated 1700000000) "Games"
     = 1700000000.
Proof.
  destruct (X9_printed_timestamp_is_read (Further.dated 1700000000)
              "repositories/owner/repo/alpha/metadata.json" "Games" 1700000000)
    as [H1 H2].
  split; [apply H1|apply H2]; reflexivity.
Defined.

(* ------------------------------------------------------------------ *)
(** ** The two slugs of one category *)
(* ------------------------------------------------------------------ *)

Lemma not_az09_hyphen : Js.not_az09 Js.hyphen = true.
Proof. reflexivity. Qed.

Lemma replaceRunsFrom_replaceEach (s : string) (b : bool) :
  Js.replaceRunsFrom b (Js.replaceEach s) = Js.replaceRunsFrom b s.
Proof.
  revert b. induction s as [|c r IH]; intros b; simpl; [reflexivity|].
  destruct (Js.not_az09 c) eqn:E.
  - rewrite not_az09_hyphen, IH. reflexivity.
  - rewrite E, IH. reflexivity.
Qed.

Lemma replaceEach_length (s : string) : String.length (Js.replaceEach s) = String.length s.
Proof.
  induction s as [|c r IH]; simpl; congruence.
Qed.

Lemma replaceRunsFrom_length (s : string) (b : bool) :
  (String.length (Js.replaceRunsFrom b s) <= String.length s)%nat.
Proof.
  revert b. induction s as [|c r IH]; intros b; simpl; [lia|].
  destruct (Js.not_az09 c); [destruct b|]; simpl;
    try (pose proof (IH true)); try (pose proof (IH false)); lia.
Qed.

Lemma replacements_agree (s : string) (prev : bool) :
  Js.replaceRunsFrom prev s = Js.replaceEach s <-> Further.separatedFrom prev s = true.
Proof.
  revert prev. induction s as [|c r IH]; intros prev; simpl; [tauto|].
  destruct (Js.not_az09 c) eqn:E.
  - destruct prev; simpl.
    + split; [|discriminate]. intros H.
      apply (f_equal String.length) in H. simpl in H.
      rewrite replaceEach_length in H.
      pose proof (replaceRunsFrom_length r true). lia.
    + rewrite <- IH. split; [intros [= H]; exact H|intros ->; reflexivity].
  - rewrite <- IH. split; [intros [= H]; exact H|intros ->; reflexivity].
Qed.

(** X10.  The slug of [category-all.json] is the slug of the release files
    with every run of hyphens collapsed into one.  The two scripts give a
    category the same slug exactly when its lower-cased name has no two
    neighbouring code units outside [[a-z0-9]]. *)
Theorem X10_slugs_of_the_two_scripts (category : string) :
  Consolidated.categorySlug category = Js.replaceRuns (Releases.categorySlug category)
  /\ (Consolidated.categorySlug category = Releases.categorySlug category
      <-> Further.singleSeparators category = true).
Proof.
  unfold Consolidated.categorySlug, Releases.categorySlug, Js.replaceRuns,
    Further.singleSeparators.
  split; [symmetry; apply replaceRunsFrom_replaceEach|apply replacements_agree].
Qed.

(* ------------------------------------------------------------------ *)
(** ** Time stamps that are written are dates *)
(* ------------------------------------------------------------------ *)

Lemma timestampOfLog_valid (r : ExecResult) (now : Z) :
  Js.validTimeValue (now * 1000) = true ->
  Js.validTimeValue (timestampOfLog r now * 1000) = true.
Proof.
  intros Hnow. unfold timestampOfLog.
  destruct r as [|out]; [exact Hnow|].
  destruct (Js.truthy_string (Js.trim out)); [|exact Hnow].
  destruct (Js.parseInt (Js.trim out)) as [t|]; [|exact Hnow].
  destruct (Js.validTimeValue (t * 1000)) eqn:E; [exact E|exact Hnow].
Qed.

(** X11.  When every reading of the clock is within the range of [Date],
    so is every time stamp the scripts write, whatever git prints: the
    [lastUpdated] of each app and of each category of [category-all.json],
    the latter being a number and never [-Infinity], and the [lastUpdated]
    of each entry of [categories.json]. *)
Theorem X11_written_timestamps_are_dates (w : World)
        (clock : forall k, Js.validTimeValue (dateNow w k * 1000) = true) :
  (forall file data c,
      In (file, CategoryAllFile data) (outputs (Consolidated.main w)) ->
      In c (Catalog.categories data) ->
      Forall (fun app => Js.validTimeValue (Catalog.lastUpdated app * 1000) = true)
        (Catalog.catApps c)
      /\ exists m, Catalog.catLastUpdated c = Some (Num m)
                   /\ Js.validTimeValue (m * 1000) = true)
  /\ (forall file idx e,
        In (file, CategoriesFile idx) (outputs (Releases.main w)) ->
        In e (Release.categories idx) ->
        Js.validTimeValue (Release.lastUpdated e * 1000) = true).
Proof.
  split.
  - intros file data c Hout Hc.
    destruct (@main_outputs w _ _ Hout) as (data' & _ & [= <-] & Hb).
    destruct (@build_category w _ _ Hb Hc) as (_ & _ & Hne & Hlu & Hincl & _).
    assert (Hall : Forall (fun app => Js.validTimeValue (Catalog.lastUpdated app * 1000) = true)
                     (Catalog.catApps c)).
    { rewrite Forall_forall. intros app Happ. apply Hincl in Happ.
      destruct (@readAllMetadataFiles_In w _ Happ) as (f & j & _ & _ & _ & -> & _).
      apply timestampOfLog_valid, clock. }
    split; [exact Hall|].
    destruct (@mathMax_spec (map Catalog.lastUpdated (Catalog.catApps c))) as (m & Hm & Hin & _).
    { destruct (Catalog.catApps c); [congruence|discriminate]. }
    exists m. split; [rewrite Hlu; unfold Consolidated.getCategoryLastUpdated; congruence|].
    apply in_map_iff in Hin. destruct Hin as (app & <- & Happ).
    rewrite Forall_forall in Hall. apply Hall, Happ.
  - intros file idx e Hout He.
    destruct (@releases_index_entry w _ _ _ Hout He) as (files & _ & _ & _ & -> & _).
    unfold Releases.getLastCommitTimestampForCategory.
    destruct (Releases.hasUncommittedChanges w _); [apply clock|].
    apply timestampOfLog_valid, clock.
Qed.

Lemma X11_written_timestamps_are_dates_witness :
  exists idx e,
    In ("categories.json", CategoriesFile idx)
       (outputs (Releases.main (Further.dated 99999999999999)))
    /\ In e (Release.categories idx)
    /\ Release.name e = "Games"
    /\ Js.validTimeValue (Release.lastUpdated e * 1000) = true.
Proof.
  eexists. eexists.
  split; [vm_compute; right; left; reflexivity|].
  split; [simpl; left; reflexivity|].
  split; [reflexivity|].
  apply (proj2 (X11_written_timestamps_are_dates (Further.dated 99999999999999)
                  (fun k => eq_refl)) "categories.json" _ _
           (or_intror (or_introl eq_refl)) (or_introl eq_refl)).
Defined.

(* ------------------------------------------------------------------ *)
(** ** What [releases/] holds after a run of the release script *)
(* ------------------------------------------------------------------ *)

Lemma includes_In (l : list string) (x : string) : Js.includes l x = true <-> In x l.
Proof.
  unfold Js.includes. rewrite existsb_exists. split.
  - intros [y [Hy Heq]]. apply String.eqb_eq in Heq. subst y. exact Hy.
  - intros H. exists x. split; [exact H|apply String.eqb_refl].
Qed.

Lemma get_remove (A : Type) (k' k : string) (o : list (string * A)) :
  Obj.get k' (Obj.remove k o) = if String.eqb k' k then None else Obj.get k' o.
Proof.
  unfold Obj.remove. induction o as [|[k0 v0] r IH]; simpl.
  - destruct (String.eqb k' k); reflexivity.
  - destruct (String.eqb_spec k k0) as [->|Hne]; simpl.
    + rewrite IH. destruct (String.eqb k' k0); reflexivity.
    + rewrite IH. destruct (String.eqb_spec k' k0) as [->|Hne']; [|reflexivity].
      destruct (String.eqb_spec k0 k); [congruence|reflexivity].
Qed.

Lemma get_removeFiles (w : World) (file : string) (files : list string) : forall d,
  Obj.get file (Releases.removeFiles w d files)
  = if Js.includes files file && removable w file then None else Obj.get file d.
Proof.
  induction files as [|f r IH]; intros d; simpl; [reflexivity|].
  unfold unlinkSync. destruct (removable w f) eqn:Ef; rewrite IH.
  - rewrite get_remove.
    destruct (String.eqb_spec file f) as [->|Hne]; simpl.
    + rewrite Ef. destruct (Js.includes r f); reflexivity.
    + reflexivity.
  - destruct (String.eqb_spec file f) as [->|Hne]; simpl; [|reflexivity].
    rewrite Ef, andb_false_r. reflexivity.
Qed.

Lemma get_snoc (A : Type) (k : string) (kv : string * A) (l : list (string * A)) :
  Obj.get k (rev (l ++ [kv]))
  = if String.eqb k (fst kv) then Some (snd kv) else Obj.get k (rev l).
Proof.
  rewrite rev_app_distr. destruct kv as [k0 v0]. reflexivity.
Qed.

Section ReleaseDirectory.
Variable w : World.
Variable before : Dir.

Lemma generateRelease_tracks st entry st' :
  Releases.generateRelease w st entry = Ok st' -> Further.tracks before st -> Further.tracks before st'.
Proof.
  intros H Ht.
  destruct (@generateRelease_cases w _ _ _ H) as (sorted & _ & [[_ ->]|(_ & Hd & _ & _ & Hw)]);
    [exact Ht|].
  intros file. unfold Further.lastWritten. rewrite Hd, Hw, get_set, get_snoc.
  destruct (String.eqb file _); [reflexivity|apply Ht].
Qed.

Lemma generateReleases_tracks entries : forall st e st',
  Releases.generateReleases w st entries = (e, st') -> Further.tracks before st -> Further.tracks before st'.
Proof.
  induction entries as [|entry r IH]; simpl; intros st e st'.
  - intros [= _ <-] Ht. exact Ht.
  - destruct (Releases.generateRelease w st entry) as [st1|x] eqn:E.
    + intros H Ht. exact (IH _ _ _ H (@generateRelease_tracks _ _ _ E Ht)).
    + intros [= _ <-] Ht. exact Ht.
Qed.

Lemma writeCategoriesIndex_tracks cats st st' :
  Releases.writeCategoriesIndex w cats st = Ok st' -> Further.tracks before st -> Further.tracks before st'.
Proof.
  unfold Releases.writeCategoriesIndex.
  destruct (Releases.categoriesWithReleases st) as [|c0 cs].
  - intros [= <-] Ht. exact Ht.
  - destruct (Releases.mapM _ _) as [entries|e]; simpl; [|discriminate].
    destruct (ArraySort.sort _ entries) as [sorted|e]; simpl; [|discriminate].
    unfold writeFileSync. destruct (writable w "categories.json").
    + intros [= <-] Ht file. unfold Further.lastWritten. simpl.
      rewrite get_set, get_snoc. simpl.
      destruct (String.eqb file _); [reflexivity|apply Ht].
    + intros [= <-] Ht. exact Ht.
Qed.

End ReleaseDirectory.

Lemma substring_all (s : string) : String.substring 0 (String.length s) s = s.
Proof.
  induction s as [|c r IH]; simpl; congruence.
Qed.

Lemma substring_suffix (a b : string) :
  String.substring (String.length a) (String.length b) (a ++ b) = b.
Proof.
  induction a as [|c r IH]; simpl; [apply substring_all|exact IH].
Qed.

Lemma length_append (a b : string) :
  String.length (a ++ b) = (String.length a + String.length b)%nat.
Proof.
  induction a as [|c r IH]; simpl; congruence.
Qed.

Lemma endsWith_append (a b : string) : Js.endsWith (a ++ b) b = true.
Proof.
  unfold Js.endsWith. rewrite length_append.
  replace (String.length a + String.length b - String.length b)%nat
    with (String.length a) by lia.
  rewrite substring_suffix, String.eqb_refl, andb_true_r.
  apply Nat.leb_le. lia.
Qed.

Lemma releaseFileName_isReleaseFileName (category : string) :
  Releases.isReleaseFileName (Releases.releaseFileName category) = true.
Proof.
  unfold Releases.isReleaseFileName, Releases.releaseFileName.
  apply andb_true_intro. split.
  - unfold Js.startsWith. simpl.
    destruct (Releases.categorySlug category ++ ".json"); reflexivity.
  - change ("category-" ++ Releases.categorySlug category ++ ".json")
      with ("category-" ++ (Releases.categorySlug category ++ ".json")).
    rewrite <- string_append_assoc. apply endsWith_append.
Qed.

Lemma releases_written_names (w : World) (file : string) :
  In file (map fst (outputs (Releases.main w))) ->
  Releases.isReleaseFileName file = true \/ file = "categories.json".
Proof.
  intros Hin. apply in_map_iff in Hin. destruct Hin as [out [<- Hin]].
  destruct (@releases_outputs w _ Hin)
    as (files & cats & _ & _ & [(entry & sorted & _ & _ & ->)|(idx & names & -> & _)]).
  - left. apply releaseFileName_isReleaseFileName.
  - right. reflexivity.
Qed.

Lemma lastWritten_In (file : string) (data : FileData) (outs : list (string * FileData)) :
  Further.lastWritten file outs = Some data -> In file (map fst outs).
Proof.
  intros H. apply get_In in H. apply in_rev in H.
  apply in_map_iff. exists (file, data). auto.
Qed.

Lemma releases_removals (w : World) (file : string) :
  In file (removals (Releases.main w)) ->
  Releases.isReleaseFileName file = true
  /\ ~ In file (map fst (outputs (Releases.main w))).
Proof.
  destruct (@releases_main_inv w)
    as [[c [-> _]]|(files & cats & st & _ & _ & _ & Hcases)]; [intros []|].
  destruct Hcases as [(e & -> & _)|[(e & -> & _)
                     |[(st' & e & _ & _ & _ & ->)|(st' & He & Hi & _ & ->)]]];
    [intros []|intros []|intros []|].
  simpl. intros Hin. apply obsoleteFiles_In in Hin. destruct Hin as (_ & Hrel & Hnot).
  split; [exact Hrel|]. intros Hw. apply Hnot.
  destruct (@generateReleases_spec w _ _ _ _ He) as (new & Hw0 & Hf0 & _).
  destruct (@writeCategoriesIndex_spec w _ _ _ Hi) as (Hf1 & _ & Hw1).
  simpl in Hw0, Hf0. rewrite Hf1, Hf0.
  destruct Hw1 as [Hw1|(idx & Hw1 & _)]; rewrite Hw1, Hw0 in Hw; [exact Hw|].
  rewrite map_app in Hw. apply in_app_or in Hw. destruct Hw as [Hw|[<-|[]]]; [exact Hw|].
  discriminate.
Qed.

Lemma releases_expected (w : World) (d : Dir) (file : string) :
  releasesAfter (Releases.main w) = Some d ->
  Obj.get file d
  = Further.expectedFile w (Releases.ensureReleasesDir w) (Releases.main w) file.
Proof.
  intros after. unfold Further.expectedFile.
  assert (Hinit : Further.tracks (Releases.ensureReleasesDir w) (Releases.initialState w)).
  { intros f. reflexivity. }
  destruct (@releases_main_inv w)
    as [[c [Hm _]]|(files & cats & st & _ & _ & _ & Hcases)].
  - rewrite Hm in *. simpl in *. unfold Releases.ensureReleasesDir.
    rewrite after. reflexivity.
  - destruct Hcases as [(e & Hm & He)|[(e & Hm & He & _)
                       |[(st' & e & He & Hi & _ & Hm)|(st' & He & Hi & _ & Hm)]]].
    + rewrite Hm in *. simpl in *. injection after as <-.
      apply (@generateReleases_tracks w _ _ _ _ _ He Hinit).
    + rewrite Hm in *. simpl in *. injection after as <-.
      apply (@generateReleases_tracks w _ _ _ _ _ He Hinit).
    + rewrite Hm in *. simpl in *. injection after as <-.
      apply (@writeCategoriesIndex_tracks w _ _ _ _ Hi
               (@generateReleases_tracks w _ _ _ _ _ He Hinit)).
    + pose proof (@writeCategoriesIndex_tracks w _ _ _ _ Hi
                    (@generateReleases_tracks w _ _ _ _ _ He Hinit))
        as Ht.
      destruct (Further.lastWritten file (outputs (Releases.main w))) as [data|] eqn:El.
      * assert (Hno : Js.includes (removals (Releases.main w)) file = false).
        { destruct (Js.includes _ file) eqn:Ei; [|reflexivity].
          apply includes_In in Ei. destruct (@releases_removals w _ Ei) as [_ Hnot].
          exfalso. apply Hnot. exact (@lastWritten_In _ _ _ El). }
        rewrite Hm in after, El, Hno. simpl in after, El, Hno. injection after as <-.
        rewrite get_removeFiles, Hno. simpl.
        rewrite (Ht file), El. reflexivity.
      * rewrite Hm in after, El |- *. simpl in after, El |- *. injection after as <-.
        rewrite get_removeFiles.
        destruct (_ && _); [reflexivity|]. rewrite (Ht file), El. reflexivity.
Qed.

(** X12.  After a run of the release script, whichever way it ended,
    [releases/] holds under a name the data last written under it in the
    run; under a name that was not written, nothing when the clean-up
    removed it, and otherwise what it held before.  So a file whose name is
    neither [category-*.json] nor [categories.json] is left as it was, and
    no file written in the run is removed by the clean-up of that run. *)
Theorem X12_release_directory_after_run (w : World) (d : Dir)
        (after : releasesAfter (Releases.main w) = Some d) :
  (forall file,
      Obj.get file d
      = Further.expectedFile w (Releases.ensureReleasesDir w) (Releases.main w) file)
  /\ (forall file,
        Releases.isReleaseFileName file = false -> file <> "categories.json" ->
        Obj.get file d = Obj.get file (Releases.ensureReleasesDir w))
  /\ (forall file,
        In file (map fst (outputs (Releases.main w))) ->
        ~ In file (removals (Releases.main w))).
Proof.
  split; [intros file; exact (@releases_expected w d file after)|]. split.
  - intros file Hrel Hne. rewrite (@releases_expected w d file after).
    unfold Further.expectedFile.
    destruct (Further.lastWritten file _) as [data|] eqn:El.
    + destruct (@releases_written_names w _ (@lastWritten_In _ _ _ El)); congruence.
    + destruct (Js.includes _ file) eqn:Ei; [|reflexivity].
      apply includes_In in Ei. destruct (@releases_removals w _ Ei) as [Hrel' _]. congruence.
  - intros file Hin Hr. exact (proj2 (@releases_removals w _ Hr) Hin).
Qed.

Lemma X12_release_directory_after_run_witness :
  exists d,
    releasesAfter (Releases.main Examples.catalog) = Some d
    /\ Obj.get "README.md" d = Obj.get "README.md" (Releases.ensureReleasesDir Examples.catalog)
    /\ Obj.get "category-retired.json" d = None.
Proof.
  eexists. split; [vm_compute; reflexivity|].
  match goal with
  | |- Obj.get _ ?d = _ /\ _ =>
      destruct (@X12_release_directory_after_run Examples.catalog d) as (Hall & Hframe & _);
        [vm_compute; reflexivity|]
  end.
  split.
  - apply Hframe; [reflexivity|discriminate].
  - rewrite Hall. vm_compute. reflexivity.
Defined.

(* ------------------------------------------------------------------ *)
(** ** What the consolidated script touches *)
(* ------------------------------------------------------------------ *)

(** X13.  The consolidated script removes nothing and writes nothing but
    [category-all.json]: every other file of [releases/] is left as it was.
    It never creates [releases/]: when the directory is missing and there
    is an app to write, the process ends with status 1 and the directory
    is still missing.  The release script creates the directory as soon as
    the entries are grouped; when it cannot, it ends with the exception of
    [mkdirSync], having written nothing. *)
Theorem X13_consolidated_touches_one_file (w : World) :
  removals (Consolidated.main w) = []
  /\ (forall file, In file (map fst (outputs (Consolidated.main w))) ->
                   file = "category-all.json")
  /\ (forall before,
        releases w = Some before ->
        exists d,
          releasesAfter (Consolidated.main w) = Some d
          /\ (forall file, file <> "category-all.json" ->
                           Obj.get file d = Obj.get file before)
          /\ (forall data,
                In ("category-all.json", data) (outputs (Consolidated.main w)) ->
                Obj.get "category-all.json" d = Some data))
  /\ (releases w = None ->
      releasesAfter (Consolidated.main w) = None
      /\ outputs (Consolidated.main w) = []
      /\ forall data, Consolidated.build w = Ok (Some data) ->
                      exitStatus (Consolidated.main w) = 1)
  /\ (forall s f files cats,
        Releases.joinValidCategories (Releases.loadValidCategories w) = Ok s ->
        Releases.collect w = Ok (f :: files) ->
        Releases.groupByCategory [] (f :: files) = Ok cats ->
        match Releases.mkdirSync w with
        | Ok _ => exists d, releasesAfter (Releases.main w) = Some d
        | Throw e =>
            Releases.main w
            = {| ending := Thrown e; releasesAfter := None; outputs := []; removals := [] |}
        end).
Proof.
  split; [|split; [|split; [|split]]].
  - unfold Consolidated.main.
    destruct (Consolidated.build w) as [[data|]|e]; try reflexivity.
    destruct (writeFileSync _ _ _ _); reflexivity.
  - intros file Hin. apply in_map_iff in Hin. destruct Hin as [[file' data] [<- Hin]].
    destruct (@main_outputs w _ _ Hin) as (data' & -> & _). reflexivity.
  - intros before Hb. unfold Consolidated.main, writeFileSync. rewrite Hb.
    destruct (Consolidated.build w) as [[data|]|e]; simpl.
    + destruct (writable w "category-all.json"); simpl.
      * eexists. split; [reflexivity|]. split.
        -- intros file Hne. apply get_set_other, Hne.
        -- intros data' [[= <-]|[]]. apply get_set_same.
      * rewrite Hb. exists before. split; [reflexivity|]. split; [reflexivity|intros ? []].
    + rewrite Hb. exists before. split; [reflexivity|]. split; [reflexivity|intros ? []].
    + rewrite Hb. exists before. split; [reflexivity|]. split; [reflexivity|intros ? []].
  - intros Hn. unfold Consolidated.main, writeFileSync. rewrite Hn.
    destruct (Consolidated.build w) as [[data|]|e]; simpl; rewrite ?Hn;
      (split; [reflexivity|split; [reflexivity|]]); intros data' [=].
    reflexivity.
  - intros s f files cats Hj Hc Hg. unfold Releases.main. rewrite Hj, Hc, Hg.
    destruct (Releases.mkdirSync w) as [[]|e] eqn:Em.
    + destruct (Releases.generateReleases _ _ _) as [[e|] st]; [eexists; reflexivity|].
      destruct (Releases.writeCategoriesIndex _ _ _) as [st'|e]; [|eexists; reflexivity].
      destruct (Releases.cleanUp w st'); eexists; reflexivity.
    + unfold Releases.mkdirSync in Em. unfold Releases.stopped.
      destruct (releases w); [discriminate|reflexivity].
Qed.

Lemma X13_consolidated_touches_one_file_witness :
  exitStatus (Consolidated.main Further.noReleasesDir) = 1
  /\ exists d, releasesAfter (Releases.main Further.noReleasesDir) = Some d.
Proof.
  destruct (X13_consolidated_touches_one_file Further.noReleasesDir)
    as (_ & _ & _ & Hmissing & Hcreated).
  split.
  - destruct (Hmissing eq_refl) as (_ & _ & Hexit).
    eapply Hexit. vm_compute. reflexivity.
  - eapply (Hcreated "Games, Utilities, Themes"); vm_compute; reflexivity.
Defined.

(* ------------------------------------------------------------------ *)
(** ** A run in which every metadata file is skipped *)
(* ------------------------------------------------------------------ *)

Lemma groupByCategory_skipped (files : list (string * FileRead)) : forall cats,
  Spec.validEntries files = [] -> Releases.groupByCategory cats files = Ok cats.
Proof.
  induction files as [|[p c] r IH]; simpl; intros cats; [reflexivity|].
  destruct (Releases.loadMetadata p c); [discriminate|apply IH].
Qed.

Lemma filter_all (A : Type) (l : list A) : filter (fun _ => true) l = l.
Proof.
  induction l as [|x r IH]; simpl; congruence.
Qed.

(** X14.  When metadata files are found but every one of them is skipped,
    and [releases/] exists or can be created and can be listed, the release
    script still returns normally: it writes no release file and no
    [categories.json], and passes every [category-*.json] of [releases/]
    to the clean-up.  A [categories.json] left from an earlier run stays as
    it was. *)
Theorem X14_all_files_skipped (w : World) (s : string) (f : string * FileRead)
        (files : list (string * FileRead))
        (joined : Releases.joinValidCategories (Releases.loadValidCategories w) = Ok s)
        (found : Releases.collect w = Ok (f :: files))
        (skipped : Spec.validEntries (f :: files) = [])
        (created : Releases.mkdirSync w = Ok tt)
        (listed : canList w = true) :
  Releases.main w
  = {| ending := Returned;
       releasesAfter :=
         Some (Releases.removeFiles w (Releases.ensureReleasesDir w)
                 (Further.releaseNames (Releases.ensureReleasesDir w)));
       outputs := [];
       removals := Further.releaseNames (Releases.ensureReleasesDir w) |}
  /\ Obj.get "categories.json"
       (Releases.removeFiles w (Releases.ensureReleasesDir w)
          (Further.releaseNames (Releases.ensureReleasesDir w)))
     = Obj.get "categories.json" (Releases.ensureReleasesDir w).
Proof.
  split.
  - unfold Releases.main.
    rewrite joined, found, (groupByCategory_skipped _ [] skipped), created.
    unfold Releases.cleanUp, Releases.obsoleteFiles, Further.releaseNames. simpl.
    rewrite listed, filter_all. reflexivity.
  - rewrite get_removeFiles.
    destruct (Js.includes _ _) eqn:E; [|reflexivity].
    apply includes_In in E. unfold Further.releaseNames in E.
    apply filter_In in E. destruct E as [_ E]. discriminate.
Qed.

Lemma X14_all_files_skipped_witness :
  outputs (Releases.main Further.broken) = []
  /\ removals (Releases.main Further.broken)
     = ["category-all.json"; "category-retired.json"].
Proof.
  destruct (Releases.collect Further.broken) as [[|f files]|e] eqn:E;
    try (vm_compute in E; discriminate).
  destruct (@X14_all_files_skipped Further.broken "Games" f files) as [H _].
  - reflexivity.
  - exact E.
  - vm_compute in E. injection E as <- <-. reflexivity.
  - reflexivity.
  - reflexivity.
  - rewrite H. split; reflexivity.
Defined.

(* ------------------------------------------------------------------ *)
(** ** The list of valid categories *)
(* ------------------------------------------------------------------ *)

Lemma generateReleases_withCategories (w : World) (content : FileRead)
      (entries : list (string * list props)) : forall st,
  Releases.generateReleases (Further.withCategories w content) st entries
  = Releases.generateReleases w st entries.
Proof.
  induction entries as [|entry r IH]; intros st; simpl; [reflexivity|].
  change (Releases.generateRelease (Further.withCategories w content) st entry)
    with (Releases.generateRelease w st entry).
  destruct (Releases.generateRelease w st entry); [apply IH|reflexivity].
Qed.

Lemma removeFiles_withCategories (w : World) (content : FileRead) (files : list string) :
  forall d,
    Releases.removeFiles (Further.withCategories w content) d files
    = Releases.removeFiles w d files.
Proof.
  induction files as [|f r IH]; intros d; simpl; [reflexivity|].
  change (unlinkSync (Further.withCategories w content) d f) with (unlinkSync w d f).
  destruct (unlinkSync w d f); apply IH.
Qed.

(** X15.  The list in [categories.json] is not a filter: with any other
    content in its place, as long as the first log line can join both (each
    cannot be loaded, or is an array whose elements can be converted to
    strings), the release script does exactly the same.  A file that cannot
    be loaded counts as the empty list.  A file that parses to something
    that is not an array ends the run with an exception before anything is
    read or written. *)
Theorem X15_valid_categories_are_not_a_filter (w : World) :
  (forall content s s',
      Releases.joinValidCategories (Releases.loadValidCategories w) = Ok s ->
      Releases.joinValidCategories
        (Releases.loadValidCategories (Further.withCategories w content)) = Ok s' ->
      Releases.main (Further.withCategories w content) = Releases.main w)
  /\ (Further.isParsed (categoriesJson w) = false ->
      Releases.joinValidCategories (Releases.loadValidCategories w) = Ok EmptyString)
  /\ (forall j,
        categoriesJson w = Parsed j -> Further.isArray j = false ->
        exists e,
          Releases.main w
          = {| ending := Thrown e; releasesAfter := releases w;
               outputs := []; removals := [] |}).
Proof.
  split; [|split].
  - intros content s s' Hj Hj'. unfold Releases.main. rewrite Hj, Hj'.
    change (Releases.collect (Further.withCategories w content)) with (Releases.collect w).
    destruct (Releases.collect w) as [[|f files]|e]; try reflexivity.
    destruct (Releases.groupByCategory [] (f :: files)) as [cats|e]; [|reflexivity].
    change (Releases.mkdirSync (Further.withCategories w content))
      with (Releases.mkdirSync w).
    destruct (Releases.mkdirSync w) as [[]|e]; [|reflexivity].
    change (Releases.initialState (Further.withCategories w content))
      with (Releases.initialState w).
    rewrite generateReleases_withCategories.
    destruct (Releases.generateReleases w _ _) as [[e|] st]; [reflexivity|].
    change (Releases.writeCategoriesIndex (Further.withCategories w content) cats st)
      with (Releases.writeCategoriesIndex w cats st).
    destruct (Releases.writeCategoriesIndex w cats st) as [st'|e]; [|reflexivity].
    unfold Releases.cleanUp.
    change (canList (Further.withCategories w content)) with (canList w).
    rewrite removeFiles_withCategories. reflexivity.
  - unfold Releases.loadValidCategories.
    destruct (categoriesJson w); [reflexivity|reflexivity|discriminate].
  - intros j Hc Hj. unfold Releases.main, Releases.loadValidCategories. rewrite Hc.
    destruct j; try discriminate; eexists; reflexivity.
Qed.

Lemma X15_valid_categories_are_not_a_filter_witness :
  Releases.main Further.otherCategories = Releases.main Examples.catalog
  /\ exists e,
       Releases.main Further.wrappedCategories
       = {| ending := Thrown e; releasesAfter := releases Further.wrappedCategories;
            outputs := []; removals := [] |}.
Proof.
  split.
  - destruct (X15_valid_categories_are_not_a_filter Examples.catalog) as (H & _ & _).
    eapply H; vm_compute; reflexivity.
  - destruct (X15_valid_categories_are_not_a_filter Further.wrappedCategories) as (_ & _ & H).
    eapply H; reflexivity.
Defined.

(* ------------------------------------------------------------------ *)
(** ** Exceptions outside every [try] *)
(* ------------------------------------------------------------------ *)

(** A symbolic link to a directory tells the collectors apart: the
    consolidated script searches it, the release script does not. *)
Lemma links_tell_collectors_apart :
  map Consolidated.relativePath (Consolidated.collect Further.linked)
  = ["repositories/owner/repo/alpha/metadata.json";
     "repositories/owner/repo/mirror/metadata.json"]
  /\ (exists files,
        Releases.collect Further.linked = Ok files
        /\ map fst files
           = ["/work/App-Store-Data/repositories/owner/repo/alpha/metadata.json"]).
Proof.
  split; [vm_compute; reflexivity|].
  eexists. split; vm_compute; reflexivity.
Qed.

(** When [releases/] is missing and cannot be created, the release script
    ends with the exception of [mkdirSync]; when it cannot be listed, with
    the exception of [readdirSync], after the files are written. *)
Lemma directory_failures_end_the_run :
  (Releases.main Further.uncreatable
   = {| ending := Thrown (IOError "EACCES"); releasesAfter := None;
        outputs := []; removals := [] |}
   /\ exitStatus (Releases.main Further.uncreatable) = 1)
  /\ (ending (Releases.main Further.unlistable) = Thrown (IOError "EACCES")
      /\ map fst (outputs (Releases.main Further.unlistable))
         = ["category-games.json"; "category-utilities.json"; "categories.json"]
      /\ removals (Releases.main Further.unlistable) = []
      /\ exitStatus (Releases.main Further.unlistable) = 1).
Proof.
  repeat split; vm_compute; reflexivity.
Qed.

(** A value [ToString] cannot convert ends the release script where it is
    printed: an owner in the slug, an element of the valid categories in
    the first log line. *)
Lemma unconvertible_values_end_the_run :
  (ending (Releases.main Further.ownerObject)
   = Thrown (TypeError "Cannot convert object to primitive value")
   /\ outputs (Releases.main Further.ownerObject) = []
   /\ exists files,
        Releases.collect Further.ownerObject = Ok files
        /\ List.length (Spec.validEntries files) = 1%nat)
  /\ Releases.main Further.unjoinableCategories
     = {| ending := Thrown (TypeError "Cannot convert object to primitive value");
          releasesAfter := releases Examples.catalog; outputs := []; removals := [] |}.
Proof.
  split; [|vm_compute; reflexivity].
  split; [vm_compute; reflexivity|]. split; [vm_compute; reflexivity|].
  eexists. split; vm_compute; reflexivity.
Qed.

(* ------------------------------------------------------------------ *)
(** ** Running the release script again *)
(* ------------------------------------------------------------------ *)

Lemma generateReleases_withReleases (w : World) (d : Dir)
      (entries : list (string * list props)) : forall st,
  Releases.generateReleases (Further.withReleases w d) st entries
  = Releases.generateReleases w st entries.
Proof.
  induction entries as [|entry r IH]; intros st; simpl; [reflexivity|].
  change (Releases.generateRelease (Further.withReleases w d) st entry)
    with (Releases.generateRelease w st entry).
  destruct (Releases.generateRelease w st entry); [apply IH|reflexivity].
Qed.

Lemma removeFiles_withReleases (w : World) (d0 : Dir) (files : list string) :
  forall d,
    Releases.removeFiles (Further.withReleases w d0) d files
    = Releases.removeFiles w d files.
Proof.
  induction files as [|f r IH]; intros d; simpl; [reflexivity|].
  change (unlinkSync (Further.withReleases w d0) d f) with (unlinkSync w d f).
  destruct (unlinkSync w d f); apply IH.
Qed.

Section DirectoryIrrelevant.
Variable w : World.

Lemma generateRelease_sameButDir st1 st2 entry :
  Further.sameButDir st1 st2 ->
  Further.sameStep (Releases.generateRelease w st1 entry)
    (Releases.generateRelease w st2 entry).
Proof.
  intros (Hf & Hc & Hw). destruct entry as [category apps].
  unfold Releases.generateRelease.
  destruct (ArraySort.sort (Releases.compareApps w) apps) as [sorted|e]; cbn [bind];
    [|reflexivity].
  destruct (Releases.mapM Releases.filterApp sorted) as [filteredApps|e]; cbn [bind];
    [|reflexivity].
  unfold writeFileSync. destruct (writable w _); simpl.
  - unfold Further.sameButDir. simpl. rewrite Hf, Hc, Hw. auto.
  - unfold Further.sameButDir. auto.
Qed.

Lemma generateReleases_sameButDir entries : forall st1 st2,
  Further.sameButDir st1 st2 ->
  fst (Releases.generateReleases w st1 entries)
  = fst (Releases.generateReleases w st2 entries)
  /\ Further.sameButDir (snd (Releases.generateReleases w st1 entries))
       (snd (Releases.generateReleases w st2 entries)).
Proof.
  induction entries as [|entry r IH]; intros st1 st2 Hs; simpl; [auto|].
  pose proof (@generateRelease_sameButDir st1 st2 entry Hs) as Hstep.
  destruct (Releases.generateRelease w st1 entry) as [a|e1];
    destruct (Releases.generateRelease w st2 entry) as [b|e2];
    simpl in Hstep; try contradiction.
  - apply IH, Hstep.
  - subst e2. simpl. auto.
Qed.

Lemma writeCategoriesIndex_sameButDir cats st1 st2 :
  Further.sameButDir st1 st2 ->
  Further.sameStep (Releases.writeCategoriesIndex w cats st1)
    (Releases.writeCategoriesIndex w cats st2).
Proof.
  intros Hs. pose proof Hs as (Hf & Hc & Hw).
  unfold Releases.writeCategoriesIndex. rewrite Hc.
  destruct (Releases.categoriesWithReleases st2) as [|c0 cs]; [exact Hs|].
  destruct (Releases.mapM _ _) as [entries|e]; simpl; [|reflexivity].
  destruct (ArraySort.sort _ entries) as [sorted|e]; simpl; [|reflexivity].
  unfold writeFileSync. destruct (writable w "categories.json"); simpl; [|exact Hs].
  unfold Further.sameButDir. simpl. rewrite Hf, Hw. auto.
Qed.

End DirectoryIrrelevant.

Lemma tracks_names (before : Dir) (st : Releases.GenState) (file : string) :
  Further.tracks before st ->
  In file (map fst (Releases.dir st)) ->
  In file (map fst (Releases.written st)) \/ In file (map fst before).
Proof.
  intros Ht Hin. apply In_key_get in Hin. destruct Hin as [v Hv].
  rewrite (Ht file) in Hv.
  destruct (Further.lastWritten file (Releases.written st)) as [data|] eqn:El.
  - left. exact (@lastWritten_In _ _ _ El).
  - right. apply get_In in Hv. apply in_map_iff. exists (file, v). auto.
Qed.

(** X16.  Running the release script a second time changes nothing: when a
    run in which no write failed returned and its clean-up could remove
    what it wanted to remove, a second run over the directory the first one
    left, with the same metadata files and the same answers from git and
    the clock, returns, writes the same files with the same data, removes
    nothing, and leaves every file of the directory as it was.  (A file
    the first run could not overwrite and then removed is different: the
    second run may be able to create it.) *)
Theorem X16_second_run_changes_nothing (w : World) (d : Dir)
        (returned : ending (Releases.main w) = Returned)
        (after : releasesAfter (Releases.main w) = Some d)
        (written : forall file, writable w file = true)
        (removed : forall file, In file (removals (Releases.main w)) ->
                                removable w file = true) :
  ending (Releases.main (Further.withReleases w d)) = Returned
  /\ outputs (Releases.main (Further.withReleases w d)) = outputs (Releases.main w)
  /\ removals (Releases.main (Further.withReleases w d)) = []
  /\ exists d',
       releasesAfter (Releases.main (Further.withReleases w d)) = Some d'
       /\ forall file, Obj.get file d' = Obj.get file d.
Proof.
  pose proof (fun file => @releases_expected w d file after) as Hexp.
  assert (Hjoin : exists s,
             Releases.joinValidCategories (Releases.loadValidCategories w) = Ok s).
  { unfold Releases.main in returned.
    destruct (Releases.joinValidCategories _) as [s|e]; [eauto|discriminate]. }
  destruct Hjoin as [s Hjoin].
  destruct (@releases_main_inv w)
    as [[c [Hm Hc]]|(files & cats & st & Hcol & Hne & Hg & Hcases)].
  - rewrite Hm in returned, after |- *. simpl in returned, after. subst c.
    unfold Releases.main.
    change (Releases.joinValidCategories
              (Releases.loadValidCategories (Further.withReleases w d)))
      with (Releases.joinValidCategories (Releases.loadValidCategories w)).
    change (Releases.collect (Further.withReleases w d)) with (Releases.collect w).
    rewrite Hjoin, (Hc eq_refl). simpl.
    split; [reflexivity|]. split; [reflexivity|]. split; [reflexivity|].
    exists d. auto.
  - destruct Hcases as [(e & Hm & _)|[(e & Hm & _)
                       |[(st' & e & _ & _ & _ & Hm)|(st' & He & Hi & Hls & Hm)]]];
      [rewrite Hm in returned; discriminate|rewrite Hm in returned; discriminate
      |rewrite Hm in returned; discriminate|].
    rewrite Hm in after, removed, Hexp |- *. simpl in after, removed |- *.
    injection after as Hd.
    destruct (@generateReleases_sameButDir w (Obj.entries cats)
                (Releases.initialState w) (Releases.initialState (Further.withReleases w d)))
      as [Hfst Hsnd]; [unfold Further.sameButDir; auto|].
    rewrite He in Hfst, Hsnd. simpl in Hfst, Hsnd.
    destruct (Releases.generateReleases w (Releases.initialState (Further.withReleases w d)) (Obj.entries cats))
      as [e2 st2] eqn:He2.
    simpl in Hfst, Hsnd. subst e2.
    pose proof (@writeCategoriesIndex_sameButDir w cats st st2 Hsnd) as Hstep.
    rewrite Hi in Hstep.
    destruct (Releases.writeCategoriesIndex w cats st2) as [st2'|e2] eqn:Hi2;
      simpl in Hstep; [|contradiction].
    destruct Hstep as (Hf & _ & Hw).
    assert (Ht2 : Further.tracks d st2').
    { apply (@writeCategoriesIndex_tracks w d _ _ _ Hi2).
      apply (@generateReleases_tracks w d _ _ _ _ He2).
      intros file. reflexivity. }
    assert (Hnames : forall file,
               In file (map fst (Releases.written st2')) ->
               In file (Releases.releaseFiles st2') \/ file = "categories.json").
    { intros file Hin.
      destruct (@generateReleases_spec w _ _ _ _ He2) as (new & Hw0 & Hf0 & _).
      destruct (@writeCategoriesIndex_spec w _ _ _ Hi2) as (Hf1 & _ & Hw1).
      simpl in Hw0, Hf0. rewrite Hf1, Hf0.
      destruct Hw1 as [Hw1|(idx & Hw1 & _)]; rewrite Hw1, Hw0 in Hin; [left; exact Hin|].
      rewrite map_app in Hin. apply in_app_or in Hin.
      destruct Hin as [Hin|[<-|[]]]; [left; exact Hin|right; reflexivity]. }
    assert (Hnone : Releases.obsoleteFiles (Releases.dir st2') (Releases.releaseFiles st2')
                    = []).
    { destruct (Releases.obsoleteFiles (Releases.dir st2') (Releases.releaseFiles st2'))
        as [|x r] eqn:Eo; [reflexivity|].
      exfalso.
      assert (Hx : In x (Releases.obsoleteFiles (Releases.dir st2')
                           (Releases.releaseFiles st2'))).
      { rewrite Eo. left. reflexivity. }
      apply obsoleteFiles_In in Hx. destruct Hx as (Hdir & Hrel & Hnot).
      destruct (@tracks_names d st2' x Ht2 Hdir) as [Hwr|Hold].
      - destruct (Hnames _ Hwr) as [Hin| ->]; [exact (Hnot Hin)|discriminate].
      - assert (Hobs : In x (Releases.obsoleteFiles (Releases.dir st')
                              (Releases.releaseFiles st'))).
        { apply obsoleteFiles_In. split; [|split; [exact Hrel|rewrite Hf; exact Hnot]].
          rewrite <- Hd in Hold.
          exact (@removeFiles_incl w _ _ _ Hold). }
        rewrite <- Hd in Hold.
        exact (@removeFiles_removes w _ _ _ Hobs (removed _ Hobs) Hold). }
    unfold Releases.main.
    change (Releases.joinValidCategories (Releases.loadValidCategories (Further.withReleases w d)))
      with (Releases.joinValidCategories (Releases.loadValidCategories w)).
    change (Releases.collect (Further.withReleases w d)) with (Releases.collect w).
    rewrite Hjoin, Hcol.
    destruct files as [|f files]; [congruence|].
    rewrite Hg, generateReleases_withReleases.
    rewrite He2.
    change (Releases.writeCategoriesIndex (Further.withReleases w d) cats st2)
      with (Releases.writeCategoriesIndex w cats st2).
    rewrite Hi2. unfold Releases.cleanUp.
    change (canList (Further.withReleases w d)) with (canList w).
    rewrite Hls, Hnone. simpl.
    split; [reflexivity|]. split; [symmetry; exact Hw|]. split; [reflexivity|].
    eexists. split; [reflexivity|].
    intros file.
    rewrite (Ht2 file), <- Hw.
    destruct (Further.lastWritten file (Releases.written st')) as [data|] eqn:El;
      [|reflexivity].
    rewrite (Hexp file). unfold Further.expectedFile. simpl. rewrite El. reflexivity.
Qed.

Lemma X16_second_run_changes_nothing_witness :
  exists d,
    releasesAfter (Releases.main Examples.catalog) = Some d
    /\ removals (Releases.main Examples.catalog)
       = ["category-all.json"; "category-retired.json"]
    /\ removals (Releases.main (Further.withReleases Examples.catalog d)) = []
    /\ outputs (Releases.main (Further.withReleases Examples.catalog d))
       = outputs (Releases.main Examples.catalog).
Proof.
  eexists. split; [vm_compute; reflexivity|]. split; [vm_compute; reflexivity|].
  match goal with
  | |- removals (Releases.main (Further.withReleases _ ?d)) = _ /\ _ =>
      destruct (@X16_second_run_changes_nothing Examples.catalog d)
        as (_ & Hout & Hrem & _);
        [vm_compute; reflexivity|vm_compute; reflexivity|intros file; reflexivity
        |intros file _; reflexivity|]
  end.
  split; [exact Hrem|exact Hout].
Defined.
